(** * Doorstep: the Pachyderm engine ([ltldoorstep.engines.pachyderm])

    A shallow embedding of [PachydermEngine] and of the commit proxy
    [PachydermCommit], with the properties of the orchestration design
    stated against it.

    Layout:
    - [Py]       the fragment of Python's data model the engine relies on
                 (text, bytes, UTF-8, truthiness, formatting);
    - [Effects]  the world the engine acts on and the monad of its code;
    - the engine itself, one section per method group;
    - the theorems. *)

From Stdlib Require Import ZArith NArith List String Ascii Bool Lia QArith.
From Stdlib Require Import Strings.Byte.
From stdpp Require Import base option list gmap strings.
Import ListNotations.

Set Warnings "-register-all,-clear-no-such-hyp".

Local Open Scope N_scope.
Local Open Scope list_scope.

(* ===================================================================== *)
(** * Python values *)
(* ===================================================================== *)

Module Py.

(** A Python [str] is a sequence of Unicode code points. *)
Definition str := list N.

(** A Python [bytes] object. *)
Definition bytes := list byte.

(** A literal of the source, written in ASCII. *)
Definition lit (s : string) : str :=
  map N_of_ascii (list_ascii_of_string s).

(** [sep.join(parts)]. *)
Fixpoint join (sep : str) (parts : list str) : str :=
  match parts with
  | [] => []
  | [p] => p
  | p :: rest => p ++ sep ++ join sep rest
  end.

(** [str.isspace] for one code point: the code points Python treats as
    whitespace. *)
Definition isspace (c : N) : bool :=
  ((0x09 <=? c) && (c <=? 0x0D)) || ((0x1C <=? c) && (c <=? 0x20))
  || (c =? 0x85) || (c =? 0xA0) || (c =? 0x1680)
  || ((0x2000 <=? c) && (c <=? 0x200A))
  || (c =? 0x2028) || (c =? 0x2029) || (c =? 0x202F) || (c =? 0x205F)
  || (c =? 0x3000).

(** [s.rstrip()]: drop the trailing whitespace. *)
Fixpoint rstrip (s : str) : str :=
  match s with
  | [] => []
  | c :: rest =>
      match rstrip rest with
      | [] => if isspace c then [] else [c]
      | kept => c :: kept
      end
  end.

(** What a file opened in text mode with the default [newline=None]
    hands over: ['\r\n'] and a lone ['\r'] are read as ['\n']. *)
Fixpoint universal_newlines (s : str) : str :=
  match s with
  | [] => []
  | c :: rest =>
      if c =? 13 then
        match rest with
        | d :: rest' =>
            if d =? 10 then 10 :: universal_newlines rest'
            else 10 :: universal_newlines rest
        | [] => [10]
        end
      else c :: universal_newlines rest
  end.

(** ** UTF-8 *)

Definition b2n (b : byte) : N := Byte.to_N b.

Definition n2b (n : N) : byte :=
  match Byte.of_N n with Some b => b | None => x00 end.

(** [s.encode('utf-8')]; [None] is [UnicodeEncodeError] (a surrogate, or
    a value that is no code point). *)
Definition encode_point (c : N) : option bytes :=
  if c <? 0x80 then Some [n2b c]
  else if c <? 0x800 then
    Some [n2b (0xC0 + c / 0x40); n2b (0x80 + c mod 0x40)]
  else if (0xD800 <=? c) && (c <=? 0xDFFF) then None
  else if c <? 0x10000 then
    Some [n2b (0xE0 + c / 0x1000); n2b (0x80 + (c / 0x40) mod 0x40);
          n2b (0x80 + c mod 0x40)]
  else if c <? 0x110000 then
    Some [n2b (0xF0 + c / 0x40000); n2b (0x80 + (c / 0x1000) mod 0x40);
          n2b (0x80 + (c / 0x40) mod 0x40); n2b (0x80 + c mod 0x40)]
  else None.

Fixpoint encode (s : str) : option bytes :=
  match s with
  | [] => Some []
  | c :: rest =>
      match encode_point c, encode rest with
      | Some bs, Some more => Some (bs ++ more)
      | _, _ => None
      end
  end.

(** The decoder's state between two bytes: how many continuation bytes
    are still due, the bits gathered so far, and the range the next byte
    must lie in (which rules out overlong forms, surrogates and values
    past U+10FFFF). *)
Record dstate := { due : nat; acc : N; lo : N; hi : N }.

Definition dstart : dstate := {| due := 0; acc := 0; lo := 0x80; hi := 0xBF |}.

Definition lead (n : N) : option dstate :=
  if (0xC2 <=? n) && (n <=? 0xDF) then
    Some {| due := 1; acc := n - 0xC0; lo := 0x80; hi := 0xBF |}
  else if n =? 0xE0 then Some {| due := 2; acc := 0; lo := 0xA0; hi := 0xBF |}
  else if n =? 0xED then Some {| due := 2; acc := 0xD; lo := 0x80; hi := 0x9F |}
  else if (0xE1 <=? n) && (n <=? 0xEF) then
    Some {| due := 2; acc := n - 0xE0; lo := 0x80; hi := 0xBF |}
  else if n =? 0xF0 then Some {| due := 3; acc := 0; lo := 0x90; hi := 0xBF |}
  else if n =? 0xF4 then Some {| due := 3; acc := 4; lo := 0x80; hi := 0x8F |}
  else if (0xF1 <=? n) && (n <=? 0xF3) then
    Some {| due := 3; acc := n - 0xF0; lo := 0x80; hi := 0xBF |}
  else None.

(** [b.decode('utf-8')]; [None] is [UnicodeDecodeError]. *)
Fixpoint decode_from (st : dstate) (bs : bytes) : option str :=
  match bs with
  | [] => match due st with O => Some [] | S _ => None end
  | b :: rest =>
      let n := b2n b in
      match due st with
      | O =>
          if n <? 0x80 then
            match decode_from dstart rest with
            | Some s => Some (n :: s)
            | None => None
            end
          else
            match lead n with
            | Some st' => decode_from st' rest
            | None => None
            end
      | S k =>
          if (lo st <=? n) && (n <=? hi st) then
            let a := acc st * 0x40 + (n - 0x80) in
            match k with
            | O =>
                match decode_from dstart rest with
                | Some s => Some (a :: s)
                | None => None
                end
            | S _ => decode_from {| due := k; acc := a; lo := 0x80; hi := 0xBF |} rest
            end
          else None
      end
  end.

Definition decode (bs : bytes) : option str := decode_from dstart bs.

(** ** [repr] of a [bytes] object, as ['%s' % b] prints it *)

Definition hexdigit (n : N) : N :=
  if n <? 10 then 48 + n else 87 + n.

Definition repr_byte (quote : N) (b : byte) : str :=
  let n := b2n b in
  if (n =? quote) || (n =? 92) then [92; n]
  else if n =? 9 then [92; 116]
  else if n =? 10 then [92; 110]
  else if n =? 13 then [92; 114]
  else if (n <? 32) || (127 <=? n) then [92; 120; hexdigit (n / 16); hexdigit (n mod 16)]
  else [n].

Definition has_byte (n : N) (bs : bytes) : bool :=
  existsb (fun b => b2n b =? n) bs.

Definition repr_bytes (bs : bytes) : str :=
  let quote := if has_byte 39 bs && negb (has_byte 34 bs) then 34 else 39 in
  [98; quote] ++ concat (map (repr_byte quote) bs) ++ [quote].

(** ** JSON documents, as [json.load] returns them *)

(** Numbers are kept as integers: the engine never computes with the
    document, it stores it and tests whether it is truthy. *)
Inductive json :=
| JNull
| JBool (b : bool)
| JInt (z : Z)
| JStr (s : str)
| JArr (items : list json)
| JObj (members : list (str * json)).

(** Truthiness, as [if x] and [not x] see it. *)
Definition truthy (v : json) : bool :=
  match v with
  | JNull => false
  | JBool b => b
  | JInt z => negb (z =? 0)%Z
  | JStr s => match s with [] => false | _ => true end
  | JArr items => match items with [] => false | _ => true end
  | JObj members => match members with [] => false | _ => true end
  end.

(** What a method returns to its caller where the claims look at the
    shape of the value: a [str], or a [list]. *)
Inductive value :=
| Str (s : str)
| List (items : list value).

(** Truthiness of an optional string argument ([None] or a [str]). *)
Definition truthy_opt (o : option str) : bool :=
  match o with
  | None => false
  | Some [] => false
  | Some _ => true
  end.

(** ['%s' % o] for an optional string argument. *)
Definition format_opt (o : option str) : str :=
  match o with
  | Some s => s
  | None => lit "None"
  end.

End Py.

(* ===================================================================== *)
(** * The world the engine acts on *)
(* ===================================================================== *)

Module Effects.
Import Py.

(** Job states of the cluster. *)
Inductive job_state := PENDING | STARTING | RUNNING | SUCCEEDED | FAILED.

Definition job_state_eqb (a b : job_state) : bool :=
  match a, b with
  | PENDING, PENDING | STARTING, STARTING | RUNNING, RUNNING
  | SUCCEEDED, SUCCEEDED | FAILED, FAILED => true
  | _, _ => false
  end.

(** One entry of a job's log: its [message], and the text [print] shows
    for the entry itself. *)
Record log_message := { message : str; shown : str }.

(** The [content] argument of the staging methods: the file's bytes, or
    (with a bucket) a [str]. *)
Inductive content := Raw (b : bytes) | Text (s : str).

(** ['%s' % content]. *)
Definition format_content (c : content) : str :=
  match c with
  | Text s => s
  | Raw b => repr_bytes b
  end.

(** Calls on the two cluster clients ([pps], [pfs]). *)
Inductive rpc :=
| CreateRepo (name : str)
| DeleteRepo (name : str)
| CreatePipeline (name : str) (definition : json) (data processors : str)
| DeletePipeline (name : str)
| StartCommit (repo branch : str)
| FinishCommit (commit : str)
| PutFileBytes (commit path : str) (c : content)
| PutFileUrl (commit path url : str)
| GetFile (pipeline path : str)
| SubscribeCommit (pipeline : str)
| Unsubscribe (pipeline : str)
| InspectJob (pipeline : str)
| GetLogs (pipeline : str).

(** What the engine does to the outside, in the order it does it. *)
Inductive effect :=
| Rpc (c : rpc)
| Write (s : str)
| Open (path : str)
| Sleep (d : Q)
| CancelTask.

(** The exceptions of the engine and of what it calls; [RpcError] is a
    call the cluster refuses (a failed provisioning, staging or
    cleanup). *)
Inductive exn :=
| OSError (path : str)
| JSONDecodeError
| UnicodeEncodeError
| UnicodeDecodeError
| TypeError
| KeyError (key : str)
| AttributeError (name : string)
| RpcError (c : rpc)
| RetryExhausted (suffix : str)
| JobFailedException (logs : list log_message)
| NotFound (path : str)
| CancelledError.

(** What the outside answers; it does not change during a run. *)
Record env := {
  disk : str -> option bytes;         (* the bytes of a file, [None]: [open] fails *)
  locale_decode : bytes -> option str;
    (* the decoder of [locale.getpreferredencoding(False)], which a file
       opened in text mode without [encoding=] is read with; [None]:
       [UnicodeDecodeError] *)
  parse_json : str -> option json;    (* [json.load] *)
  module_dir : str;                   (* [os.path.dirname(__file__)] *)
  uuid4 : nat -> str;                 (* the n-th random identifier *)
  commit_id : nat -> str;             (* the id the cluster gives the n-th commit *)
  rpc_fails : rpc -> bool;            (* calls the cluster refuses *)
  job_logs : list log_message;        (* the job's log *)
  artifact : str -> option (list bytes) (* the lines of an output file *)
}.

(** The text [open(path, 'r').read()] returns, when it returns one: the
    bytes of the file, decoded, with the newlines translated. *)
Definition files (E : env) (path : str) : option str :=
  match disk E path with
  | Some raw =>
      match locale_decode E raw with
      | Some text => Some (universal_newlines text)
      | None => None
      end
  | None => None
  end.

(** The exception it raises, when it returns none: that of [open] when
    there is no such file to read, that of the decoding when the bytes
    of the file are not a text in the encoding of the locale. *)
Definition read_error (E : env) (path : str) : exn :=
  match disk E path with
  | Some _ => UnicodeDecodeError
  | None => OSError path
  end.

(** The mutable part: the effects so far (oldest first), the attribute
    dictionary of every engine object, and the number of identifiers
    drawn. *)
Record world := {
  timeline : list effect;
  heap : list (gmap string json);
  drawn : nat
}.

Definition world0 : world := {| timeline := []; heap := []; drawn := 0 |}.

(** How a piece of engine code ends: it returns, it raises, or it is
    still suspended at an [await] when the events run out. *)
Inductive outcome (A : Type) :=
| Ret (a : A)
| Raise (e : exn)
| Blocked.
Arguments Ret {A} a.
Arguments Raise {A} e.
Arguments Blocked {A}.

Definition M (A : Type) : Type := world -> outcome A * world.

Definition ret {A} (a : A) : M A := fun w => (Ret a, w).
Definition raise {A} (e : exn) : M A := fun w => (Raise e, w).
Definition blocked {A} : M A := fun w => (Blocked, w).

Definition bind {A B} (m : M A) (k : A -> M B) : M B :=
  fun w =>
    match m w with
    | (Ret a, w') => k a w'
    | (Raise e, w') => (Raise e, w')
    | (Blocked, w') => (Blocked, w')
    end.

Definition perform (e : effect) : M unit :=
  fun w => (Ret tt, {| timeline := timeline w ++ [e]; heap := heap w; drawn := drawn w |}).

(** [try: m  except: pass]. *)
Definition swallow (m : M unit) : M unit :=
  fun w =>
    match m w with
    | (Raise _, w') => (Ret tt, w')
    | r => r
    end.

(** [with enter as r: body r], for a context manager that releases with
    [leave r]. The release runs when the body returns and when it raises
    (an exception of the release replaces the body's); a body that is
    still suspended has not left the block. *)
Definition with_ {R A} (enter : M R) (leave : R -> M unit) (body : R -> M A) : M A :=
  fun w =>
    match enter w with
    | (Ret r, w1) =>
        match body r w1 with
        | (Ret a, w2) =>
            match leave r w2 with
            | (Ret _, w3) => (Ret a, w3)
            | (Raise e, w3) => (Raise e, w3)
            | (Blocked, w3) => (Blocked, w3)
            end
        | (Raise e, w2) =>
            match leave r w2 with
            | (Ret _, w3) => (Raise e, w3)
            | (Raise e', w3) => (Raise e', w3)
            | (Blocked, w3) => (Blocked, w3)
            end
        | (Blocked, w2) => (Blocked, w2)
        end
    | (Raise e, w1) => (Raise e, w1)
    | (Blocked, w1) => (Blocked, w1)
    end.

End Effects.

Notation "'let*' x ':=' m 'in' k" := (Effects.bind m (fun x => k))
  (at level 10, x name, m at level 100, k at level 200).
Notation "'let*' ' p ':=' m 'in' k" := (Effects.bind m (fun x => match x with p => k end))
  (at level 10, p pattern, m at level 100, k at level 200).
Notation "m ';;;' k" := (Effects.bind m (fun _ => k))
  (at level 100, k at level 200, right associativity).

(* ===================================================================== *)
(** * The commit proxy ([pachyderm_proxy/commit.py]) *)
(* ===================================================================== *)

Module Commit.
Import Py Effects.

(** One entry of a provenance listing: the dict with keys ['id'] and
    ['repo_name']. *)
Record provenance_entry := { id : str; repo_name : str }.

(** [_repo] is kept as the text ['%s' % self._repo] gives, which is the
    one use the proxy makes of it ([get_full_name]): the name, for a
    commit made on a repository; the text of the [Repo] message, for a
    commit built by [from_raw]. *)
Record PachydermCommit := {
  _repo : str;
  _name : str;
  _provenance : option (list provenance_entry)   (* [None] is Python's [None] *)
}.

(** The gRPC commit: [commit.commit.repo], [commit.commit.id] and the
    repeated field [commit.provenance] with [prov.id] and
    [prov.repo.name]. [commit.commit.repo] is a [Repo] message, not a
    name: [raw_repo_str] is [str(commit.commit.repo)], the text the
    protocol buffer library prints for it. *)
Record raw_provenance := { prov_id : str; prov_repo_name : str }.
Record raw_commit := {
  raw_repo_str : str;
  raw_id : str;
  raw_provenance_list : list raw_provenance
}.

Definition get_name (c : PachydermCommit) : str := _name c.

Definition get_full_name (c : PachydermCommit) : str :=
  _repo c ++ lit "/" ++ _name c.

Definition get_provenance (c : PachydermCommit) : option (list provenance_entry) :=
  _provenance c.

Definition from_raw (commit : raw_commit) : PachydermCommit :=
  let provenance :=
    match raw_provenance_list commit with
    | [] => None
    | provs => Some (map (fun prov => {| id := prov_id prov; repo_name := prov_repo_name prov |}) provs)
    end in
  {| _repo := raw_repo_str commit; _name := raw_id commit; _provenance := provenance |}.

End Commit.

(* ===================================================================== *)
(** * The engine ([engines/pachyderm.py]) *)
(* ===================================================================== *)

Module Engine.
Import Py Effects Commit.

Definition _retry_count : nat := 120.
Definition _retry_delay : Q := 1.
Definition _retry_processing_count : nat := 50.

(** The attributes defined in the class body that the methods read
    through [self]. *)
Definition class_attrs : gmap string json :=
  {[ "pipeline_definition"%string := JNull ]}.

(** [posixpath.join a b]. *)
Definition path_join (a b : str) : str :=
  match b with
  | 47 :: _ => b
  | _ =>
      match last a with
      | None => b
      | Some 47 => a ++ b
      | Some _ => a ++ [47] ++ b
      end
  end.

(** A coroutine of the job-wait path, as the tree of what it does next:
    it is over, it does something to the outside, or it asks the cluster
    for the state of the job and goes on with the answer. *)
Inductive task (A : Type) :=
| Done (a : A)
| Fail (e : exn)
| Do (eff : effect) (k : task A)
| Inspect (pipeline : str) (k : job_state -> task A).
Arguments Done {A} a.
Arguments Fail {A} e.
Arguments Do {A} eff k.
Arguments Inspect {A} pipeline k.

Fixpoint tbind {A B} (t : task A) (f : A -> task B) : task B :=
  match t with
  | Done a => f a
  | Fail e => Fail e
  | Do eff k => Do eff (tbind k f)
  | Inspect p k => Inspect p (fun s => tbind (k s) f)
  end.

(** [try: t  except ...: h], where [h e] is [None] for an exception no
    clause matches. *)
Fixpoint tcatch {A} (t : task A) (h : exn -> option (task A)) : task A :=
  match t with
  | Done a => Done a
  | Fail e => match h e with Some t' => t' | None => Fail e end
  | Do eff k => Do eff (tcatch k h)
  | Inspect p k => Inspect p (fun s => tcatch (k s) h)
  end.

(** Where [watch_for_output] stands: in its loop, past it with the commit
    it has put on the queue, or dead of an exception. *)
Inductive watcher :=
| Watching
| Delivered (c : PachydermCommit)
| Died (e : exn).

(** What the event loop is woken by while [run] awaits the queue: the
    subscription delivers a commit, or the job-wait path gets one more
    answer about the job. *)
Inductive event :=
| CommitArrived (c : raw_commit)
| JobObserved (s : job_state).

Section WithEnv.
Variable E : env.

(** ** Primitives *)

Definition call (c : rpc) : M unit :=
  perform (Rpc c) ;;;
  if rpc_fails E c then raise (RpcError c) else ret tt.

(** [with open(path, 'r') as file_obj: file_obj.read()]. *)
Definition open_read (path : str) : M str :=
  perform (Open path) ;;;
  match disk E path with
  | Some raw =>
      match locale_decode E raw with
      | Some text => ret (universal_newlines text)
      | None => raise UnicodeDecodeError
      end
  | None => raise (OSError path)
  end.

Definition json_load (text : str) : M json :=
  match parse_json E text with
  | Some v => ret v
  | None => raise JSONDecodeError
  end.

Definition encode_utf8 (s : str) : M bytes :=
  match encode s with
  | Some b => ret b
  | None => raise UnicodeEncodeError
  end.

Definition decode_utf8 (b : bytes) : M str :=
  match decode b with
  | Some s => ret s
  | None => raise UnicodeDecodeError
  end.

Definition draw {A} (supply : nat -> A) : M A :=
  fun w => (Ret (supply (drawn w)),
            {| timeline := timeline w; heap := heap w; drawn := S (drawn w) |}).

(** ** Engine objects *)

(** [self.name]: the instance dictionary, then the class. *)
Definition getattr (self : nat) (name : string) : M json :=
  fun w =>
    match heap w !! self with
    | Some dict =>
        match dict !! name with
        | Some v => (Ret v, w)
        | None =>
            match class_attrs !! name with
            | Some v => (Ret v, w)
            | None => (Raise (AttributeError name), w)
            end
        end
    | None => (Raise (AttributeError name), w)
    end.

(** [self.name = v]: always the instance dictionary. *)
Definition setattr (self : nat) (name : string) (v : json) : M unit :=
  fun w =>
    match heap w !! self with
    | Some dict =>
        (Ret tt, {| timeline := timeline w;
                    heap := <[self := <[name := v]> dict]> (heap w);
                    drawn := drawn w |})
    | None => (Raise (AttributeError name), w)
    end.

(** [PachydermEngine()]: a new object whose [__init__] stores the path of
    the template. (The clients it also stores are the cluster of the
    world.) *)
Definition PachydermEngine : M nat :=
  fun w =>
    let template :=
      path_join (path_join (module_dir E) (lit "pachyderm_proxy")) (lit "doorstep.json") in
    (Ret (length (heap w)),
     {| timeline := timeline w;
        heap := heap w ++ [ {[ "_pipeline_template"%string := JStr template ]} ];
        drawn := drawn w |}).

Definition as_str (v : json) : M str :=
  match v with
  | JStr s => ret s
  | _ => raise TypeError
  end.

Definition get_definition (self : nat) : M json :=
  let* current := getattr self "pipeline_definition" in
  (if negb (truthy current) then
     let* path := getattr self "_pipeline_template" in
     let* path := as_str path in
     let* text := open_read path in
     let* loaded := json_load text in
     setattr self "pipeline_definition" loaded
   else ret tt) ;;;
  getattr self "pipeline_definition".

(** ** Repositories, commits and pipelines of a session *)

(** Modelled from the spec: [pachyderm_proxy/repo.py] is missing. A
    repository is a named store of commits (section 3), created when the
    session starts and deleted at teardown, where a failing deletion is
    logged and swallowed (section 4.1); a put writes into a new commit on
    a branch of the repository (section 4.2). *)
Record PachydermRepo := { r_name : str }.

Definition get_repo_name (r : PachydermRepo) : str := r_name r.

Definition make_repo_enter (name : str) : M PachydermRepo :=
  call (CreateRepo name) ;;; ret {| r_name := name |}.

Definition make_repo_leave (r : PachydermRepo) : M unit :=
  swallow (call (DeleteRepo (r_name r))).

Definition make_commit_enter (r : PachydermRepo) (branch : str) : M PachydermCommit :=
  call (StartCommit (r_name r) branch) ;;;
  let* name := draw (commit_id E) in
  ret {| _repo := r_name r; _name := name; _provenance := None |}.

Definition make_commit_leave (c : PachydermCommit) : M unit :=
  call (FinishCommit (get_full_name c)).

(** [PachydermCommit.put_file_bytes] and [put_file_url]. *)
Definition put_file_bytes (c : PachydermCommit) (filename : str) (data : content) : M unit :=
  call (PutFileBytes (get_full_name c) filename data).

Definition put_file_url (c : PachydermCommit) (filename url : str) : M unit :=
  call (PutFileUrl (get_full_name c) filename url).

(** Modelled from the spec: [pachyderm_proxy/pipeline.py] is missing. A
    bound pipeline instantiates the definition against the two
    repositories of a session and is deleted at teardown (sections 3 and
    4.3), a failing deletion being swallowed (section 4.1). *)
Record PachydermPipeline := { p_name : str }.

Record session := {
  s_name : str;
  s_data : PachydermRepo;
  s_processors : PachydermRepo;
  s_pipeline : option PachydermPipeline
}.

Definition make_pipeline_enter (definition : json) (s : session) : M PachydermPipeline :=
  call (CreatePipeline (s_name s) definition (r_name (s_data s)) (r_name (s_processors s))) ;;;
  ret {| p_name := s_name s |}.

Definition make_pipeline_leave (p : PachydermPipeline) : M unit :=
  swallow (call (DeletePipeline (p_name p))).

(** [session[category]], for the use [_add_file] makes of it: the entry
    must be a repository. *)
Definition session_repo (s : session) (category : str) : M PachydermRepo :=
  if decide (category = lit "data") then ret (s_data s)
  else if decide (category = lit "processors") then ret (s_processors s)
  else if decide (category = lit "name") then raise (AttributeError "make_commit")
  else if decide (category = lit "pipeline") then
    match s_pipeline s with
    | Some _ => raise (AttributeError "make_commit")
    | None => raise (KeyError category)
    end
  else raise (KeyError category).

(** [session['pipeline']]. *)
Definition session_pipeline (s : session) : M PachydermPipeline :=
  match s_pipeline s with
  | Some p => ret p
  | None => raise (KeyError (lit "pipeline"))
  end.

(** ** Staging *)

Definition _add_file (category filename : str) (data : content) (s : session)
    (bucket : option str) : M unit :=
  let* repo := session_repo s category in
  with_ (make_commit_enter repo (lit "master")) make_commit_leave (fun commit =>
    if truthy_opt bucket then
      put_file_url commit filename
        (lit "s3://" ++ format_opt bucket ++ lit "/" ++ format_content data)
    else
      put_file_bytes commit filename data).

Definition add_processor (module_name : str) (data : content) (s : session) : M unit :=
  let filename := lit "/" ++ module_name ++ lit ".py" in
  _add_file (lit "processors") filename data s None.

Definition add_data (filename : str) (data : content) (s : session)
    (bucket : option str) : M unit :=
  let filename := lit "/" ++ filename in
  _add_file (lit "data") filename data s bucket.

(** ** The session scope *)

(** The generator behind [@contextmanager]: the caller's block runs at
    the [yield], inside the three nested [with] blocks. *)
Definition make_session {A} (self : nat) (body : session -> M A) : M A :=
  let* random := draw (uuid4 E) in
  let name := lit "doorstep-" ++ random in
  let data_name := name ++ lit "-data" in
  let processors_name := name ++ lit "-processors" in
  let* pipeline_definition := get_definition self in
  with_ (make_repo_enter data_name) make_repo_leave (fun data_repo =>
  with_ (make_repo_enter processors_name) make_repo_leave (fun processors_repo =>
    let s := {| s_name := name; s_data := data_repo;
                s_processors := processors_repo; s_pipeline := None |} in
    with_ (make_pipeline_enter pipeline_definition s) make_pipeline_leave (fun pipeline =>
      body {| s_name := name; s_data := data_repo;
              s_processors := processors_repo; s_pipeline := Some pipeline |}))).

(** ** Coroutines that poll the job *)

(** The states [wait_for_run] waits in when the caller names none. *)
Definition default_wait_states : list job_state := [PENDING].

Definition in_states (s : job_state) (l : list job_state) : bool :=
  existsb (job_state_eqb s) l.

(** Modelled from the spec: [PachydermPipeline.wait_for_run] is missing
    ([pachyderm_proxy/pipeline.py]). Section 4.3: it polls the state of
    the job, calls the tick once per attempt that finds the job still in
    the states to wait in, returns as soon as the job has left them, and
    fails with a retry-exhausted error after [retry_count] attempts; a
    job found [FAILED] raises the job-failed error with the job's log
    lines. *)
Fixpoint wait_for_run (p : PachydermPipeline) (retry_count : nat)
    (wait_states : list job_state) (tick_callback : task unit)
    (error_suffix : str) : task job_state :=
  match retry_count with
  | O => Fail (RetryExhausted error_suffix)
  | S n =>
      Inspect (p_name p) (fun state =>
        if in_states state wait_states then
          tbind tick_callback (fun _ =>
            wait_for_run p n wait_states tick_callback error_suffix)
        else if job_state_eqb state FAILED then
          Do (Rpc (GetLogs (p_name p))) (Fail (JobFailedException (job_logs E)))
        else Done state)
  end.

Definition _wait_for_pipeline (pipeline : PachydermPipeline)
    (retry_count retry_processing_count : nat) (retry_delay : Q) : task job_state :=
  let _tick_callback : task unit :=
    Do (Write (lit ".")) (Do (Sleep retry_delay) (Done tt)) in
  tbind (wait_for_run pipeline retry_count default_wait_states
           _tick_callback (lit " to start")) (fun _ =>
  wait_for_run pipeline retry_processing_count [STARTING; RUNNING]
    _tick_callback (lit " to finish")).

(** [print] inside a coroutine. *)
Definition tprint (s : str) : task unit := Do (Write (s ++ [10])) (Done tt).

Definition wait_for_pipeline (pipeline : PachydermPipeline) : task unit :=
  tcatch
    (tbind (_wait_for_pipeline pipeline _retry_count _retry_processing_count _retry_delay)
           (fun job => Done tt))
    (fun exc =>
       match exc with
       | JobFailedException logs =>
           Some (tbind
                   (match logs with
                    | first :: _ =>
                        tbind (tprint (shown first)) (fun _ =>
                        tprint (join [10] (map (fun log => rstrip (message log)) logs)))
                    | [] => Done tt
                    end)
                   (fun _ => Fail exc))
       | _ => None
       end).

(** Run a coroutine up to its next question to the cluster. *)
Fixpoint settle {A} (t : task A) : M (task A) :=
  match t with
  | Do eff k => perform eff ;;; settle k
  | _ => ret t
  end.

(** One more attempt: the cluster answers [s]. A coroutine that is over
    asks nothing. *)
Definition advance {A} (t : task A) (s : job_state) : M (task A) :=
  match t with
  | Inspect p k => perform (Rpc (InspectJob p)) ;;; settle (k s)
  | _ => ret t
  end.

(** The coroutine on a whole series of answers. *)
Fixpoint feed {A} (t : task A) (answers : list job_state) : M (task A) :=
  match answers with
  | [] => ret t
  | s :: rest => let* t' := advance t s in feed t' rest
  end.

(** ** The subscription path *)

(** [{p['repo_name'] for p in commit.get_provenance()}]; iterating over
    [None] is a [TypeError]. *)
Definition provenance_names (c : PachydermCommit) : option (gset str) :=
  match get_provenance c with
  | None => None
  | Some entries => Some (list_to_set (map repo_name entries))
  end.

(** [{session['data'].get_name(), session['processors'].get_name()}]. *)
Definition input_repos (s : session) : gset str :=
  {[ get_repo_name (s_data s); get_repo_name (s_processors s) ]}.

(** One turn of the loop of [watch_for_output]: the commit the queue
    hands over, its provenance, and the test of the loop. *)
Definition watch_step (target : gset str) (commit : PachydermCommit) : watcher :=
  match provenance_names commit with
  | None => Died TypeError
  | Some provenance =>
      if decide (target = provenance) then Delivered commit else Watching
  end.

(** The loop of [watch_for_output] on the commits the subscription
    delivers. *)
Fixpoint watch_loop (target : gset str) (stream : list PachydermCommit) : watcher :=
  match stream with
  | [] => Watching
  | commit :: rest =>
      match watch_step target commit with
      | Watching => watch_loop target rest
      | over => over
      end
  end.

(** ** The completion race *)

(** Modelled from the spec: [watch_commits], [stop_watching_commits] and
    [pull_output] of the pipeline proxy are missing. Section 3 and 4.4:
    the pipeline exposes a live subscription to its commits, which is
    opened and closed; commits are built from the cluster's raw metadata
    (section 4.2). Section 4.2: pulling a file returns its raw bytes and
    fails with a not-found error when the path is absent; the output
    comes as the lines of the file (section 4.5). *)
Definition watch_commits (p : PachydermPipeline) : M unit :=
  call (SubscribeCommit (p_name p)).

Definition stop_watching_commits (p : PachydermPipeline) : M unit :=
  call (Unsubscribe (p_name p)).

Definition pull_output (p : PachydermPipeline) (path : str) : M (list bytes) :=
  call (GetFile (p_name p) path) ;;;
  match artifact E path with
  | Some lines => ret lines
  | None => raise (NotFound path)
  end.

(** The first turn of the task [watch_for_output]: the subscription is
    opened, up to the first [await commit_queue.get()]. An exception
    ends the task and stays in it. *)
Definition start_watch (s : session) : M watcher :=
  fun w =>
    match (let* p := session_pipeline s in watch_commits p) w with
    | (Ret _, w') => (Ret Watching, w')
    | (Raise e, w') => (Ret (Died e), w')
    | (Blocked, w') => (Blocked, w')
    end.

(** The task [wait_for_pipeline(session)], not yet started. *)
Definition start_job_wait (s : session) : task unit :=
  match s_pipeline s with
  | Some p => wait_for_pipeline p
  | None => Fail (KeyError (lit "pipeline"))
  end.

(** [monitor_pipeline]: both tasks are scheduled; the job-wait task is
    handed back, with the [queue.get()] the caller will await. *)
Definition monitor_pipeline (s : session) : M (task unit) :=
  ret (start_job_wait s).

(** The task [watch_for_output], resumed with the commit its
    [commit_queue.get()] was awaiting: one more turn of the loop and,
    when the loop is left, the put on the result queue and the end of
    the subscription (an exception there stays in the task, after the
    put). A task that is over is not resumed. *)
Definition watch_for_output (s : session) (sub : watcher) (raw : raw_commit) : M watcher :=
  match sub with
  | Watching =>
      match watch_step (input_repos s) (from_raw raw) with
      | Delivered commit =>
          swallow (let* p := session_pipeline s in stop_watching_commits p) ;;;
          ret (Delivered commit)
      | sub' => ret sub'
      end
  | _ => ret sub
  end.

(** The event loop while [run] awaits [queue.get()]. Each event resumes
    the task it is for. When [watch_for_output] has put its commit on
    the queue, the awaiting [run] gets it. When the events run out with
    the queue empty, [run] is still suspended. *)
Fixpoint event_loop (s : session) (events : list event) (sub : watcher)
    (job_wait : task unit) : M (PachydermCommit * task unit) :=
  match events with
  | [] => blocked
  | JobObserved state :: rest =>
      let* job_wait' := advance job_wait state in
      event_loop s rest sub job_wait'
  | CommitArrived raw :: rest =>
      let* sub' := watch_for_output s sub raw in
      match sub' with
      | Delivered commit => ret (commit, job_wait)
      | _ => event_loop s rest sub' job_wait
      end
  end.

(** [await monitor_output]: the two tasks start, in the order they were
    scheduled, and the loop runs. *)
Definition monitor_output (s : session) (events : list event)
    (job_wait : task unit) : M (PachydermCommit * task unit) :=
  let* sub := start_watch s in
  let* job_wait' := settle job_wait in
  event_loop s events sub job_wait'.

(** [Task.cancel()]: a task that is over stays as it is. *)
Definition cancel {A} (t : task A) : M (task A) :=
  perform CancelTask ;;;
  ret (match t with
       | Done a => Done a
       | Fail e => Fail e
       | _ => Fail CancelledError
       end).

(** ** The output *)

Fixpoint decode_lines (output : list bytes) : M (list str) :=
  match output with
  | [] => ret []
  | line :: rest =>
      let* text := decode_utf8 line in
      let* more := decode_lines rest in
      ret (text :: more)
  end.

Definition get_output (s : session) : M value :=
  let* p := session_pipeline s in
  let* output := pull_output p (lit "/doorstep.out") in
  let* lines := decode_lines output in
  ret (List [Str (join [10] lines)]).

(** ** [run] *)

Definition run (self : nat) (filename workflow_module : str) (bucket : option str)
    (events : list event) : M value :=
  make_session self (fun s =>
    let* source := open_read workflow_module in
    let* encoded := encode_utf8 source in
    add_processor (lit "processor") (Raw encoded) s ;;;
    let* data :=
      (if truthy_opt bucket then ret (Text filename)
       else
         let* text := open_read filename in
         let* encoded := encode_utf8 text in
         ret (Raw encoded)) in
    add_data (lit "data.csv") data s bucket ;;;
    let* job_wait := monitor_pipeline s in
    let* '(commit, job_wait') := monitor_output s events job_wait in
    cancel job_wait' ;;;
    let* results := get_output s in
    ret results).

End WithEnv.
End Engine.

(* ===================================================================== *)
(** * A concrete cluster, for the examples *)
(* ===================================================================== *)

Module Demo.
Import Py Effects Commit Engine.

(** The text [{"pipeline": "doorstep"}]. *)
Definition template_text : str :=
  lit "{" ++ [34] ++ lit "pipeline" ++ [34] ++ lit ": " ++ [34] ++ lit "doorstep" ++ [34]
  ++ lit "}".
Definition template_json : json := JObj [(lit "pipeline", JStr (lit "doorstep"))].

(** The files of the examples, as text; on disk they are in UTF-8, which
    is also the encoding of the locale. *)
Definition demo_files (path : str) : option str :=
  if decide (path = lit "/engine/pachyderm_proxy/doorstep.json") then Some template_text
  else if decide (path = lit "proc.py") then Some (lit "print(1)")
  else if decide (path = lit "in.csv") then Some (lit "a,b")
  else None.

Definition boom : log_message := {| message := lit "boom"; shown := lit "boom" |}.
Definition line2 : log_message := {| message := lit "line2"; shown := lit "line2" |}.

Definition cluster : env := {|
  disk := fun path => demo_files path ≫= encode;
  locale_decode := decode;
  parse_json := fun text => if decide (text = template_text) then Some template_json else None;
  module_dir := lit "/engine";
  uuid4 := fun n => lit "u" ++ [48 + N.of_nat n];
  commit_id := fun n => lit "c" ++ [48 + N.of_nat n];
  rpc_fails := fun _ => false;
  job_logs := [boom; line2];
  artifact := fun path =>
    if decide (path = lit "/doorstep.out") then Some [ [x61]; [x62] ] else None
|}.

(** The same cluster with a dataset written with the line ends of
    Windows: the four bytes [a], CR, LF, [b]. *)
Definition crlf_cluster : env := {|
  disk := fun path =>
    if decide (path = lit "in.csv") then Some [x61; x0d; x0a; x62] else disk cluster path;
  locale_decode := locale_decode cluster;
  parse_json := parse_json cluster;
  module_dir := module_dir cluster;
  uuid4 := uuid4 cluster;
  commit_id := commit_id cluster;
  rpc_fails := rpc_fails cluster;
  job_logs := job_logs cluster;
  artifact := artifact cluster
|}.

(** A commit of the output repository with the given provenance. *)
Definition raw (names : list string) : raw_commit :=
  {| raw_repo_str := lit "name: " ++ [34] ++ lit "doorstep-u0" ++ [34; 10];
     raw_id := lit "out";
     raw_provenance_list :=
       map (fun n => {| prov_id := lit "i"; prov_repo_name := lit n |}) names |}.

(** The events of a run in which the output commit comes third. *)
Definition three_commits : list event :=
  [ CommitArrived (raw ["doorstep-u0-data"%string]);
    JobObserved RUNNING;
    CommitArrived (raw ["doorstep-u0-processors"%string]);
    JobObserved RUNNING;
    CommitArrived (raw ["doorstep-u0-processors"%string; "doorstep-u0-data"%string]) ].

Definition data_name : string := "doorstep-u0-data".
Definition processors_name : string := "doorstep-u0-processors".

(** A fresh process: one engine, one [run]. *)
Definition go (bucket : option str) (events : list event) : outcome value * world :=
  (let* self := PachydermEngine cluster in
   run cluster self (lit "in.csv") (lit "proc.py") bucket events) world0.

(** The world [go] calls [run] in. *)
Definition started : world := snd (PachydermEngine cluster world0).

(** The session of [go], for statements about single methods. *)
Definition the_pipeline : PachydermPipeline := {| p_name := lit "doorstep-u0" |}.
Definition the_session : session :=
  {| s_name := lit "doorstep-u0";
     s_data := {| r_name := lit data_name |};
     s_processors := {| r_name := lit processors_name |};
     s_pipeline := Some the_pipeline |}.

(** Two engines of one process, each asked for the definition. *)
Definition two_engines : M (nat * nat * json * json) :=
  let* a := PachydermEngine cluster in
  let* b := PachydermEngine cluster in
  let* first := get_definition cluster a in
  let* second := get_definition cluster b in
  ret (a, b, first, second).

(** Commits of the output repository: without provenance, with one of
    the two input repositories, and with both. *)
Definition no_provenance : raw_commit := raw [].
Definition only_data : raw_commit := raw [data_name].
Definition only_processors : raw_commit := raw [processors_name].
Definition output : raw_commit := raw [processors_name; data_name].

(** The job fails, and no output commit ever comes. *)
Definition job_fails : list event := [JobObserved RUNNING; JobObserved FAILED].

(** The calls of [go] up to the end of staging. *)
Definition setup_calls : list rpc :=
  [ CreateRepo (lit data_name);
    CreateRepo (lit processors_name);
    CreatePipeline (lit "doorstep-u0") template_json (lit data_name) (lit processors_name);
    StartCommit (lit processors_name) (lit "master");
    PutFileBytes (lit "doorstep-u0-processors/c1") (lit "/processor.py")
      (Raw [x70; x72; x69; x6e; x74; x28; x31; x29]);
    FinishCommit (lit "doorstep-u0-processors/c1");
    StartCommit (lit data_name) (lit "master");
    PutFileBytes (lit "doorstep-u0-data/c2") (lit "/data.csv") (Raw [x61; x2c; x62]);
    FinishCommit (lit "doorstep-u0-data/c2") ].

(** The job fails, and the output commit comes all the same. *)
Definition job_fails_then_output : list event :=
  [JobObserved RUNNING; JobObserved FAILED; CommitArrived output].

End Demo.

(* ===================================================================== *)
(** * Vocabulary of the statements *)
(* ===================================================================== *)

Module Props.
Import Py Effects Commit Engine.

(** The world after some more effects. *)
Definition emit (l : list effect) (w : world) : world :=
  {| timeline := timeline w ++ l; heap := heap w; drawn := drawn w |}.

(** The world after one more identifier has been drawn. *)
Definition drew (w : world) : world :=
  {| timeline := timeline w; heap := heap w; drawn := S (drawn w) |}.

(** The session [make_session] builds on the name [name]. *)
Definition session_of (name : str) : session :=
  {| s_name := name; s_data := {| r_name := name ++ lit "-data" |};
     s_processors := {| r_name := name ++ lit "-processors" |};
     s_pipeline := Some {| p_name := name |} |}.

(** A piece of code that never stays suspended. *)
Definition unblocked {A} (m : M A) : Prop := forall w w', m w <> (Blocked, w').

(** The files opened, in order. *)
Definition opened (l : list effect) : list str :=
  omap (fun e => match e with Open path => Some path | _ => None end) l.

(** The calls to the cluster, in order. *)
Definition calls (l : list effect) : list rpc :=
  omap (fun e => match e with Rpc c => Some c | _ => None end) l.

(** The teardown of a session: the pipeline, the processors repository,
    the data repository. *)
Definition teardown (s : session) : list effect :=
  [ Rpc (DeletePipeline (s_name s));
    Rpc (DeleteRepo (r_name (s_processors s)));
    Rpc (DeleteRepo (r_name (s_data s))) ].

(** The creation of what a session owns. *)
Definition provisioning (definition : json) (s : session) : list effect :=
  [ Rpc (CreateRepo (r_name (s_data s)));
    Rpc (CreateRepo (r_name (s_processors s)));
    Rpc (CreatePipeline (s_name s) definition (r_name (s_data s)) (r_name (s_processors s))) ].

(** How a block inside the session scope ends for the caller of the
    scope: a block that returns or raises is followed by the teardown; a
    block that is still suspended has not left the scope. *)
Definition after_scope {A} (s : session) (r : outcome A * world) : outcome A * world :=
  match r with
  | (Ret a, w) => (Ret a, emit (teardown s) w)
  | (Raise e, w) => (Raise e, emit (teardown s) w)
  | (Blocked, w) => (Blocked, w)
  end.

(** [emits P Q m]: whatever the world, [m] only adds effects to the
    timeline, every one of them satisfies [P], and a value [m] returns
    satisfies [Q]. *)
Definition emits {A} (P : effect -> Prop) (Q : A -> Prop) (m : M A) : Prop :=
  forall w, exists l,
    timeline (snd (m w)) = timeline w ++ l /\ Forall P l /\
    forall a, fst (m w) = Ret a -> Q a.

(** Every effect a coroutine can ever have satisfies [P]. *)
Fixpoint task_emits {A} (P : effect -> Prop) (t : task A) : Prop :=
  match t with
  | Done _ | Fail _ => True
  | Do eff k => P eff /\ task_emits P k
  | Inspect p k => P (Rpc (InspectJob p)) /\ forall s, task_emits P (k s)
  end.

(** The effects that put something into a repository. *)
Definition is_staging (e : effect) : bool :=
  match e with
  | Rpc (StartCommit _ _) | Rpc (PutFileBytes _ _ _) | Rpc (PutFileUrl _ _ _) => true
  | _ => false
  end.

(** The name of a commit of a repository. *)
Definition commit_of (repo : str) (c : str) : Prop :=
  exists id, c = repo ++ lit "/" ++ id.

(** What one effect of [run] may be, on the session called [name]:
    commits are started on [master] of one of the two repositories, the
    only bytes put are the module's at [/processor.py] and, without a
    bucket, the dataset's at [/data.csv]; the only URL put is, with a
    bucket, the dataset's at [/data.csv]. *)
Definition run_effect (E : env) (name filename workflow_module : str)
    (bucket : option str) (e : effect) : Prop :=
  match e with
  | Rpc (StartCommit repo branch) =>
      branch = lit "master" /\
      (repo = name ++ lit "-processors" \/ repo = name ++ lit "-data")
  | Rpc (PutFileBytes c path data) =>
      (commit_of (name ++ lit "-processors") c /\ path = lit "/processor.py" /\
       exists source encoded,
         files E workflow_module = Some source /\ encode source = Some encoded /\
         data = Raw encoded)
      \/
      (commit_of (name ++ lit "-data") c /\ path = lit "/data.csv" /\
       truthy_opt bucket = false /\
       exists text encoded,
         files E filename = Some text /\ encode text = Some encoded /\
         data = Raw encoded)
  | Rpc (PutFileUrl c path url) =>
      commit_of (name ++ lit "-data") c /\ path = lit "/data.csv" /\
      truthy_opt bucket = true /\
      url = lit "s3://" ++ format_opt bucket ++ lit "/" ++ filename
  | _ => True
  end.

(** A context a coroutine runs in ([tbind _ f], [tcatch _ h], ...): it
    lets the effects and the questions of the coroutine through. *)
Definition frame {A B} (C : task A -> task B) : Prop :=
  (forall eff k, C (Do eff k) = Do eff (C k)) /\
  (forall p k, C (Inspect p k) = Inspect p (fun s => C (k s))).

(** The tick of [_wait_for_pipeline]: a dot, then the delay. *)
Definition tick : task unit :=
  Do (Write (lit ".")) (Do (Sleep _retry_delay) (Done tt)).

(** One attempt that finds the job still in a state to wait in: the
    state is asked for, and the tick runs. *)
Definition attempt (p : PachydermPipeline) : list effect :=
  [Rpc (InspectJob (p_name p)); Write (lit "."); Sleep _retry_delay].

Definition attempts (p : PachydermPipeline) (n : nat) : list effect :=
  concat (repeat (attempt p) n).

(** The last attempt of a phase: the state is asked for, and no tick
    follows. *)
Definition last_attempt (p : PachydermPipeline) : list effect :=
  [Rpc (InspectJob (p_name p))].

(** All these answers are among [states]. *)
Definition all_in (states : list job_state) (answers : list job_state) : Prop :=
  forallb (fun s => in_states s states) answers = true.

(** What [wait_for_pipeline] prints of the log of a failed job. *)
Definition display (logs : list log_message) : list effect :=
  match logs with
  | [] => []
  | first :: _ =>
      [ Write (shown first ++ [10]);
        Write (join [10] (map (fun log => rstrip (message log)) logs) ++ [10]) ]
  end.

(** The two-phase wait with the budgets and the delay of the class. *)
Definition job_wait (E : env) (p : PachydermPipeline) : task job_state :=
  _wait_for_pipeline E p _retry_count _retry_processing_count _retry_delay.

(** No condition on an effect. *)
Definition anything (e : effect) : Prop := True.

(** The put [_add_file] makes into the commit [id] of [repo]. *)
Definition the_put (repo id filename : str) (data : content) (bucket : option str) : rpc :=
  if truthy_opt bucket then
    PutFileUrl (repo ++ lit "/" ++ id) filename
      (lit "s3://" ++ format_opt bucket ++ lit "/" ++ format_content data)
  else PutFileBytes (repo ++ lit "/" ++ id) filename data.

(** The block of [run] inside the session scope. *)
Definition run_block (E : env) (filename workflow_module : str) (bucket : option str)
    (events : list event) (s : session) : M value :=
  let* source := open_read E workflow_module in
  let* encoded := encode_utf8 source in
  add_processor E (lit "processor") (Raw encoded) s ;;;
  let* data :=
    (if truthy_opt bucket then ret (Text filename)
     else
       let* text := open_read E filename in
       let* encoded := encode_utf8 text in
       ret (Raw encoded)) in
  add_data E (lit "data.csv") data s bucket ;;;
  let* job_wait := monitor_pipeline E s in
  let* '(commit, job_wait') := monitor_output E s events job_wait in
  cancel job_wait' ;;;
  let* results := get_output E s in
  ret results.

(** [wait_for_pipeline] around a job wait [t]: the [try] block and its
    [except JobFailedException] clause. *)
Definition reraise (E : env) (t : task job_state) : task unit :=
  tcatch (tbind t (fun job => Done tt))
    (fun exc =>
       match exc with
       | JobFailedException logs =>
           Some (tbind
                   (match logs with
                    | first :: _ =>
                        tbind (tprint (shown first)) (fun _ =>
                        tprint (join [10] (map (fun log => rstrip (message log)) logs)))
                    | [] => Done tt
                    end)
                   (fun _ => Fail exc))
       | _ => None
       end).

(** A commit is discarded: it lists a provenance, and not the target. *)
Definition discarded (target : gset str) (commit : PachydermCommit) : Prop :=
  exists entries,
    get_provenance commit = Some entries /\ list_to_set (map repo_name entries) <> target.

(** A commit is the output: its provenance is the target. *)
Definition matching (target : gset str) (commit : PachydermCommit) : Prop :=
  exists entries,
    get_provenance commit = Some entries /\ list_to_set (map repo_name entries) = target.

(** An event of the job-wait path. *)
Definition job_event (ev : event) : Prop :=
  match ev with
  | JobObserved _ => True
  | CommitArrived _ => False
  end.

(** The commits among the events, as the subscription delivers them. *)
Definition commits_of (events : list event) : list PachydermCommit :=
  omap (fun ev => match ev with
                  | CommitArrived raw => Some (from_raw raw)
                  | JobObserved _ => None
                  end) events.

(** The exceptions of the job-wait path. *)
Definition job_wait_error (e : exn) : bool :=
  match e with
  | JobFailedException _ | RetryExhausted _ => true
  | _ => false
  end.

(** Every exception [m] raises satisfies [X]. *)
Definition raises {A} (X : exn -> Prop) (m : M A) : Prop :=
  forall w e w', m w = (Raise e, w') -> X e.

End Props.

(* ===================================================================== *)
(** * Paths ([posixpath]) *)
(* ===================================================================== *)

Module PyPath.
Import Py.

(** [p.rfind(c)] for a one-character [c]: the index of the last
    occurrence, [-1] when there is none. *)
Fixpoint rfind_from (c : N) (p : str) (i found : Z) : Z :=
  match p with
  | [] => found
  | x :: rest => rfind_from c rest (i + 1)%Z (if x =? c then i else found)
  end.

Definition rfind (c : N) (p : str) : Z := rfind_from c p 0%Z (-1)%Z.

(** [p[i:]] and [p[:i]] for an index that is not negative. *)
Definition slice_from (i : Z) (p : str) : str := drop (Z.to_nat i) p.
Definition slice_to (i : Z) (p : str) : str := take (Z.to_nat i) p.

(** [posixpath.basename]. *)
Definition basename (p : str) : str :=
  let i := (rfind 47 p + 1)%Z in
  slice_from i p.

(** [posixpath.splitext] ([genericpath._splitext] with [sep = '/'], no
    [altsep] and [extsep = '.']): the extension starts at the last dot
    of the last component, unless only dots come before it there. The
    loop over [filenameIndex] is the search for a character that is not
    a dot between the start of the component and the last dot. *)
Definition splitext (p : str) : str * str :=
  let sepIndex := rfind 47 p in
  let dotIndex := rfind 46 p in
  if (sepIndex <? dotIndex)%Z then
    let filenameIndex := (sepIndex + 1)%Z in
    if forallb (N.eqb 46) (slice_to (dotIndex - filenameIndex) (slice_from filenameIndex p))
    then (p, [])
    else (slice_to dotIndex p, slice_from dotIndex p)
  else (p, []).

End PyPath.

(* ===================================================================== *)
(** * Vocabulary of the further statements *)
(* ===================================================================== *)

Module Traces.
Import Py Effects Commit Engine Props.

(** The path [__init__] stores as [_pipeline_template]. *)
Definition template_path (E : env) : str :=
  path_join (path_join (module_dir E) (lit "pachyderm_proxy")) (lit "doorstep.json").

(** The attribute [name] in the instance dictionary of [self]. *)
Definition instance_attr (w : world) (self : nat) (name : string) : option json :=
  heap w !! self ≫= (.!! name).

(** A piece of code that leaves the attributes of every object as they
    are. *)
Definition keeps_heap {A} (m : M A) : Prop := forall w, heap (snd (m w)) = heap w.

(** Opening a file. *)
Definition is_open (e : effect) : bool :=
  match e with
  | Open _ => true
  | _ => false
  end.

(** Of the files, only those in [allowed] are opened. *)
Definition opens_among (allowed : str -> Prop) (e : effect) : Prop :=
  match e with
  | Open path => allowed path
  | _ => True
  end.

(** What the job-wait task does: it asks for the state of the job and
    for its log, it prints, it sleeps. *)
Definition polling (e : effect) : Prop :=
  match e with
  | Rpc (InspectJob _) | Rpc (GetLogs _) | Write _ | Sleep _ => True
  | _ => False
  end.

(** One commit of [_add_file] into [repo]: it is started on [master],
    the file is put, and it is finished. *)
Definition commit_trace (repo id filename : str) (data : content) (bucket : option str)
    : list effect :=
  [ Rpc (StartCommit repo (lit "master"));
    Rpc (the_put repo id filename data bucket);
    Rpc (FinishCommit (repo ++ lit "/" ++ id)) ].

End Traces.

(* ===================================================================== *)
(** * More clusters, for the examples *)
(* ===================================================================== *)

Module Cases.
Import Py Effects Commit Engine Demo.

(** The cluster of the examples with other files (given as texts, kept
    on the disk in UTF-8), another parser and calls it refuses. *)
Definition cluster_where (fs : str -> option str) (pj : str -> option json)
    (refused : rpc -> bool) : env :=
  {| disk := fun path => fs path ≫= encode;
     locale_decode := locale_decode cluster;
     parse_json := pj;
     module_dir := module_dir cluster;
     uuid4 := uuid4 cluster;
     commit_id := commit_id cluster;
     rpc_fails := refused;
     job_logs := job_logs cluster;
     artifact := artifact cluster |}.

(** No file can be opened. *)
Definition no_files : env :=
  cluster_where (fun _ => None) (parse_json cluster) (fun _ => false).

(** The template holds an empty JSON object. *)
Definition empty_template : env :=
  cluster_where demo_files (fun _ => Some (JObj [])) (fun _ => false).

End Cases.

(* ===================================================================== *)
(** * The Dask engine ([engines/dask_distributed.py]) *)
(* ===================================================================== *)

(** The cluster client ([dask.distributed.Client]), the file manager
    ([ltldoorstep.file.make_file_manager]) and the function the cluster
    runs ([dask_common.execute]) are outside this development: a call
    to one of them is written on the trace, and what it answers is a
    parameter of the model. *)
Module Dask.
Import Py PyPath.

Definition DEFAULT_CLIENT : str := lit "tcp://localhost:8786".

(** The Python values the engine handles: [None], [str], [bytes], and
    the clients it makes. *)
Inductive value :=
| VNone
| VStr (s : str)
| VBytes (b : bytes)
| VClient (id : nat).

#[global] Instance byte_eq_dec : EqDecision byte := Byte.byte_eq_dec.
#[global] Instance value_eq_dec : EqDecision value.
Proof. solve_decision. Defined.

(** Truthiness: a client object is truthy as every object without
    [__bool__] and [__len__]. *)
Definition truthy (v : value) : bool :=
  match v with
  | VNone => false
  | VStr s => match s with [] => false | _ => true end
  | VBytes b => match b with [] => false | _ => true end
  | VClient _ => true
  end.

Inductive exn :=
| KeyError (key : string)
| AttributeError (name : string)
| TypeError
| UnicodeDecodeError
| UnboundLocalError (name : string)
| ClusterError (tag : nat).          (* raised by a client or by the file manager *)

(** A dict with keys in order of insertion, as a dict display builds
    it: a key that is there keeps its place and gets the new value. *)
Fixpoint dict_set {V} (k : value) (v : V) (d : list (value * V)) : list (value * V) :=
  match d with
  | [] => [(k, v)]
  | (k', v') :: rest =>
      if decide (k' = k) then (k', v) :: rest else (k', v') :: dict_set k v rest
  end.

Fixpoint dict_get {V} (k : value) (d : list (value * V)) : option V :=
  match d with
  | [] => None
  | (k', v') :: rest => if decide (k' = k) then Some v' else dict_get k rest
  end.

(** The argument of [make_file_manager]: positional, or [content=]. *)
Inductive fm_arg :=
| Positional (bucket : value)
| Content (content : list (value * str)).

(** The calls that leave the engine. *)
Inductive call :=
| MakeClient (url : value)                           (* [Client(url, asynchronous=True)] *)
| EnterFileManager (arg : fm_arg)
| FileManagerGet (fm : nat) (filename : value)
| ExitFileManager (fm : nat) (exc : option exn)
| UploadFile (client : nat) (path : value)
| Submit (client : nat) (local_file module_name : value).   (* [submit(execute, ...)] *)

(** What a call answers: a value, an exception, or (for an awaited
    call) nothing ever. *)
Inductive reply (A : Type) :=
| Gives (a : A)
| Throws (e : exn)
| Never.
Arguments Gives {A} a.
Arguments Throws {A} e.
Arguments Never {A}.

(** [connects] is the constructor [Client(url, asynchronous=True)]: it
    builds the client object and does not wait for the address to
    answer, so that what it raises, if anything, it raises for the
    argument, not for a cluster that is not there. *)
Record env := {
  uuid4 : nat -> str;
  connects : value -> reply unit;
  enters : fm_arg -> reply unit;
  gets : value -> reply value;
  exits : option exn -> reply bool;     (* [__exit__]: whether it swallows *)
  uploads : value -> reply unit;
  submits : value -> value -> reply value
}.

(** The objects of the process are dicts with string keys: the instance
    dictionary of an engine, a session. *)
Record world := {
  trace : list call;
  heap : list (gmap string value);
  drawn : nat;                          (* identifiers from [uuid.uuid4] *)
  made : nat                            (* clients and file managers so far *)
}.

Definition world0 : world := {| trace := []; heap := []; drawn := 0; made := 0 |}.

Inductive outcome (A : Type) :=
| Ret (a : A)
| Raise (e : exn)
| Hang.
Arguments Ret {A} a.
Arguments Raise {A} e.
Arguments Hang {A}.

Definition D (A : Type) : Type := world -> outcome A * world.

Definition ret {A} (a : A) : D A := fun w => (Ret a, w).
Definition raise {A} (e : exn) : D A := fun w => (Raise e, w).

Definition bind {A B} (m : D A) (k : A -> D B) : D B :=
  fun w =>
    match m w with
    | (Ret a, w') => k a w'
    | (Raise e, w') => (Raise e, w')
    | (Hang, w') => (Hang, w')
    end.

#[global] Instance D_ret : MRet D := @ret.
#[global] Instance D_bind : MBind D := fun A B k m => bind m k.

(** A call: it is written on the trace, and answered. *)
Definition ask {A} (c : call) (r : reply A) : D A :=
  fun w =>
    let w' := {| trace := trace w ++ [c]; heap := heap w; drawn := drawn w; made := made w |} in
    match r with
    | Gives a => (Ret a, w')
    | Throws e => (Raise e, w')
    | Never => (Hang, w')
    end.

(** The identity of a new client or file manager. *)
Definition fresh : D nat :=
  fun w => (Ret (made w),
            {| trace := trace w; heap := heap w; drawn := drawn w; made := S (made w) |}).

Definition draw {A} (supply : nat -> A) : D A :=
  fun w => (Ret (supply (drawn w)),
            {| trace := trace w; heap := heap w; drawn := S (drawn w); made := made w |}).

(** A new dict. *)
Definition alloc (d : gmap string value) : D nat :=
  fun w => (Ret (length (heap w)),
            {| trace := trace w; heap := heap w ++ [d]; drawn := drawn w; made := made w |}).

(** [d[key] = v]. *)
Definition setitem (d : nat) (key : string) (v : value) : D unit :=
  fun w =>
    match heap w !! d with
    | Some dict =>
        (Ret tt, {| trace := trace w; heap := <[d := <[key := v]> dict]> (heap w);
                    drawn := drawn w; made := made w |})
    | None => (Raise TypeError, w)
    end.

(** [d[key]]. *)
Definition getitem (d : nat) (key : string) : D value :=
  fun w =>
    match heap w !! d with
    | Some dict =>
        match dict !! key with
        | Some v => (Ret v, w)
        | None => (Raise (KeyError key), w)
        end
    | None => (Raise TypeError, w)
    end.

(** The attributes of the class body. *)
Definition class_attrs : gmap string value :=
  {[ "client"%string := VNone; "client_url"%string := VStr DEFAULT_CLIENT ]}.

(** [self.name]: the instance dictionary, then the class. *)
Definition getattr (self : nat) (name : string) : D value :=
  fun w =>
    match heap w !! self with
    | Some dict =>
        match dict !! name with
        | Some v => (Ret v, w)
        | None =>
            match class_attrs !! name with
            | Some v => (Ret v, w)
            | None => (Raise (AttributeError name), w)
            end
        end
    | None => (Raise (AttributeError name), w)
    end.

(** [self.name = v]. *)
Definition setattr (self : nat) (name : string) (v : value) : D unit :=
  fun w =>
    match heap w !! self with
    | Some dict =>
        (Ret tt, {| trace := trace w; heap := <[self := <[name := v]> dict]> (heap w);
                    drawn := drawn w; made := made w |})
    | None => (Raise (AttributeError name), w)
    end.

(** [b.decode('utf-8')] on a value: only [bytes] has the method. *)
Definition decode_utf8 (v : value) : D str :=
  match v with
  | VBytes b =>
      match decode b with
      | Some s => ret s
      | None => raise UnicodeDecodeError
      end
  | _ => raise (AttributeError "decode")
  end.

(** [os.path.splitext(os.path.basename(p))[0]]; on [bytes] the functions
    of [os.path] work with the byte [/] and the byte [.]. *)
Definition module_name_of (p : value) : D value :=
  match p with
  | VStr s => ret (VStr (fst (splitext (basename s))))
  | VBytes b => ret (VBytes (map n2b (fst (splitext (basename (map b2n b))))))
  | _ => raise TypeError
  end.

Section WithEnv.
Variable E : env.

Definition make_client (url : value) : D value :=
  ask (MakeClient url) (connects E url) ;;
  id ← fresh;
  mret (VClient id).

(** [DaskDistributedEngine(config)], for a [config] that is [None] or a
    dict. *)
Definition DaskDistributedEngine (config : option (gmap string value)) : D nat :=
  self ← alloc ∅;
  match config with
  | Some config =>
      if decide (config = ∅) then mret self
      else
        match config !! "url"%string with
        | Some url => setattr self "client_url" url ;; mret self
        | None => mret self
        end
  | None => mret self
  end.

Definition add_data (filename content : value) (session : nat) : D unit :=
  setitem session "data-filename" filename ;;
  setitem session "data-content" content.

Definition add_processor (filename content : value) (session : nat) : D unit :=
  setitem session "workflow-filename" filename ;;
  setitem session "workflow-content" content.

Definition get_client (self : nat) : D value :=
  current ← getattr self "client";
  (if negb (truthy current) then
     url ← getattr self "client_url";
     client ← make_client url;
     setattr self "client" client
   else mret tt) ;;
  getattr self "client".

(** [with make_file_manager(...) as file_manager: body]. The block ends
    in [Some] of its value, or in [None] when it raised and [__exit__]
    swallowed the exception. *)
Definition with_file_manager {A} (arg : fm_arg) (body : nat -> D A) : D (option A) :=
  ask (EnterFileManager arg) (enters E arg) ;;
  fm ← fresh;
  ((fun w =>
      match body fm w with
      | (Ret a, w1) =>
          (ask (ExitFileManager fm None) (exits E None) ;; mret (Some a)) w1
      | (Raise e, w1) =>
          (swallowed ← ask (ExitFileManager fm (Some e)) (exits E (Some e));
           if swallowed : bool then mret None else raise e) w1
      | (Hang, w1) => (Hang, w1)
      end) : D (option A)).

Definition as_client (v : value) : D nat :=
  match v with
  | VClient id => mret id
  | _ => raise (AttributeError "upload_file")
  end.

Definition _run (filename workflow_module bucket client : value) : D value :=
  result ← with_file_manager (Positional bucket) (fun file_manager =>
    local_file ← ask (FileManagerGet file_manager filename) (gets E filename);
    c ← as_client client;
    ask (UploadFile c workflow_module) (uploads E workflow_module) ;;
    module_name ← module_name_of workflow_module;
    ask (Submit c local_file module_name) (submits E local_file module_name));
  mret (default VNone result).

Definition run (self : nat) (filename workflow_module bucket : value) : D value :=
  client ← get_client self;
  _run filename workflow_module bucket client.

Definition monitor_pipeline (self session : nat) : D value :=
  workflow_module ← getitem session "workflow-filename";
  filename ← getitem session "data-filename";
  workflow_content ← getitem session "workflow-content";
  workflow_text ← decode_utf8 workflow_content;
  data_content ← getitem session "data-content";
  data_text ← decode_utf8 data_content;
  let content := dict_set filename data_text (dict_set workflow_module workflow_text []) in
  result ← with_file_manager (Content content) (fun file_manager =>
    run self filename workflow_module VNone);
  match result with
  | Some result => mret result
  | None => raise (UnboundLocalError "result")
  end.

(** The generator behind [@contextmanager]: the caller's block runs at
    the [yield]; nothing follows it. *)
Definition make_session {A} (self : nat) (body : nat -> D A) : D A :=
  random ← draw (uuid4 E);
  let name := lit "doorstep-" ++ random in
  let data_name := name ++ lit "-data" in
  let processors_name := name ++ lit "-processors" in
  session ← alloc {[ "name"%string := VStr name;
                     "data"%string := VStr data_name;
                     "processors"%string := VStr processors_name ]};
  body session.

End WithEnv.
End Dask.

(* ===================================================================== *)
(** * Vocabulary of the statements on the Dask engine *)
(* ===================================================================== *)

Module DaskTraces.
Import Py Dask.

(** The world after some more calls. *)
Definition said (l : list call) (w : world) : world :=
  {| trace := trace w ++ l; heap := heap w; drawn := drawn w; made := made w |}.

(** The world after one more client or file manager. *)
Definition handed (w : world) : world :=
  {| trace := trace w; heap := heap w; drawn := drawn w; made := S (made w) |}.

(** The block of [_run] inside the file manager. *)
Definition run_work (E : env) (filename workflow_module client : value)
    (file_manager : nat) : D value :=
  local_file ← ask (FileManagerGet file_manager filename) (gets E filename);
  c ← as_client client;
  ask (UploadFile c workflow_module) (uploads E workflow_module) ;;
  module_name ← module_name_of workflow_module;
  ask (Submit c local_file module_name) (submits E local_file module_name).

(** A call of that block. *)
Definition is_work (c : call) : bool :=
  match c with
  | FileManagerGet _ _ | UploadFile _ _ | Submit _ _ _ => true
  | _ => false
  end.

(** A call that connects nowhere and, when it is addressed to a client,
    is addressed to [client]. *)
Definition uses_client (client : value) (c : call) : Prop :=
  match c with
  | MakeClient _ => False
  | UploadFile c' _ | Submit c' _ _ => client = VClient c'
  | _ => True
  end.

End DaskTraces.

(* ===================================================================== *)
(** * A Dask cluster, for the examples *)
(* ===================================================================== *)

Module DaskCases.
Import Py Dask.

(** A client is made for whatever address. The file manager hands a
    file over under its own name and lets exceptions through; the
    cluster answers a job with the name of the module. *)
Definition local_cluster : env :=
  {| uuid4 := fun n => lit "u" ++ [48 + N.of_nat n];
     connects := fun _ => Gives tt;
     enters := fun _ => Gives tt;
     gets := fun filename => Gives filename;
     exits := fun _ => Gives false;
     uploads := fun _ => Gives tt;
     submits := fun local_file module_name => Gives module_name |}.

End DaskCases.

(* ===================================================================== *)
(** * Properties *)
(* ===================================================================== *)

Import Py Effects Commit Engine Props Demo.

(** ** Worlds and calls *)

Lemma emit_emit l1 l2 w : emit l2 (emit l1 w) = emit (l1 ++ l2) w.
Proof. unfold emit; simpl. now rewrite <- app_assoc. Qed.

Lemma perform_emit e w : perform e w = (Ret tt, emit [e] w).
Proof. reflexivity. Qed.

Lemma call_spec E c w :
  call E c w = (if rpc_fails E c then Raise (RpcError c) else Ret tt, emit [Rpc c] w).
Proof. unfold call, bind. rewrite perform_emit. now destruct (rpc_fails E c). Qed.

Lemma release_spec E c w : swallow (call E c) w = (Ret tt, emit [Rpc c] w).
Proof. unfold swallow. rewrite call_spec. now destruct (rpc_fails E c). Qed.

Lemma unblocked_ret {A} (a : A) : unblocked (ret a).
Proof. intros w w'. unfold ret. congruence. Qed.

Lemma unblocked_raise {A} e : unblocked (@raise A e).
Proof. intros w w'. unfold raise. congruence. Qed.

Lemma unblocked_perform e : unblocked (perform e).
Proof. intros w w'. unfold perform. congruence. Qed.

Lemma unblocked_bind {A B} (m : M A) (k : A -> M B) :
  unblocked m -> (forall a, unblocked (k a)) -> unblocked (bind m k).
Proof.
  intros Hm Hk w w'. unfold bind.
  destruct (m w) as [[a | e |] w1] eqn:Hmw; try congruence.
  - apply Hk.
  - exfalso. eapply Hm; eauto.
Qed.

Lemma unblocked_getattr self name : unblocked (getattr self name).
Proof.
  intros w w'. unfold getattr.
  repeat match goal with |- context [match ?x with _ => _ end] => destruct x end; congruence.
Qed.

Lemma unblocked_setattr self name v : unblocked (setattr self name v).
Proof. intros w w'. unfold setattr. destruct (heap w !! self); congruence. Qed.

Lemma unblocked_if {A} (b : bool) (m1 m2 : M A) :
  unblocked m1 -> unblocked m2 -> unblocked (if b then m1 else m2).
Proof. now destruct b. Qed.

(** [open_read] by the text it reads: it raises [OSError] when the file
    cannot be opened and [UnicodeDecodeError] when its bytes are no
    text in the encoding of the locale. *)
Lemma open_read_files E path :
  open_read E path =
  (perform (Open path) ;;;
   match files E path with
   | Some text => ret text
   | None => raise (match disk E path with
                    | Some _ => UnicodeDecodeError
                    | None => OSError path
                    end)
   end).
Proof.
  unfold open_read, files.
  destruct (disk E path) as [raw |]; [destruct (locale_decode E raw) |]; reflexivity.
Qed.

Lemma files_Some E path text :
  files E path = Some text ->
  exists raw decoded,
    disk E path = Some raw /\ locale_decode E raw = Some decoded /\
    text = universal_newlines decoded.
Proof.
  unfold files. destruct (disk E path) as [raw |]; [| discriminate].
  destruct (locale_decode E raw) as [decoded |] eqn:Hd; [| discriminate].
  intros [= <-]. exists raw, decoded. split; [reflexivity | split; [exact Hd | reflexivity]].
Qed.

Lemma unblocked_open_read E path : unblocked (open_read E path).
Proof.
  rewrite open_read_files. apply unblocked_bind; [apply unblocked_perform | intros _].
  destruct (files E path); [apply unblocked_ret | apply unblocked_raise].
Qed.

Lemma unblocked_call E c : unblocked (call E c).
Proof.
  unfold call. apply unblocked_bind; [apply unblocked_perform | intros _].
  destruct (rpc_fails E c); [apply unblocked_raise | apply unblocked_ret].
Qed.

Lemma unblocked_as_str v : unblocked (as_str v).
Proof. destruct v; first [apply unblocked_ret | apply unblocked_raise]. Qed.

Lemma unblocked_json_load E text : unblocked (json_load E text).
Proof.
  unfold json_load. destruct (parse_json E text); [apply unblocked_ret | apply unblocked_raise].
Qed.

Ltac unblock :=
  repeat first
    [ apply unblocked_ret | apply unblocked_raise | apply unblocked_perform
    | apply unblocked_getattr | apply unblocked_setattr | apply unblocked_open_read
    | apply unblocked_as_str | apply unblocked_json_load
    | apply unblocked_if
    | apply unblocked_bind; [| intros ?] ].

Lemma unblocked_get_definition E self : unblocked (get_definition E self).
Proof. unfold get_definition. unblock. Qed.

Lemma make_session_unfold E self A (body : session -> M A) w :
  make_session E self body w =
  let name := lit "doorstep-" ++ uuid4 E (drawn w) in
  let s := session_of name in
  match get_definition E self (drew w) with
  | (Ret d, w1) =>
      if rpc_fails E (CreateRepo (r_name (s_data s))) then
        (Raise (RpcError (CreateRepo (r_name (s_data s)))),
         emit [Rpc (CreateRepo (r_name (s_data s)))] w1)
      else if rpc_fails E (CreateRepo (r_name (s_processors s))) then
        (Raise (RpcError (CreateRepo (r_name (s_processors s)))),
         emit [Rpc (CreateRepo (r_name (s_data s)));
               Rpc (CreateRepo (r_name (s_processors s)));
               Rpc (DeleteRepo (r_name (s_data s)))] w1)
      else if rpc_fails E (CreatePipeline name d (r_name (s_data s)) (r_name (s_processors s))) then
        (Raise (RpcError (CreatePipeline name d (r_name (s_data s)) (r_name (s_processors s)))),
         emit (provisioning d s ++
               [Rpc (DeleteRepo (r_name (s_processors s)));
                Rpc (DeleteRepo (r_name (s_data s)))]) w1)
      else after_scope s (body s (emit (provisioning d s) w1))
  | (Raise e, w1) => (Raise e, w1)
  | (Blocked, w1) => (Blocked, w1)
  end.
Proof.
  unfold make_session, bind at 1. unfold draw at 1. cbv beta iota zeta. fold (drew w).
  set (name := lit "doorstep-" ++ uuid4 E (drawn w)).
  unfold bind at 1.
  destruct (get_definition E self (drew w)) as [[d | e |] w1]; try reflexivity.
  unfold with_, make_repo_enter, make_pipeline_enter, make_repo_leave, make_pipeline_leave, bind, ret.
  cbn [session_of s_name s_data s_processors r_name].
  rewrite call_spec.
  destruct (rpc_fails E (CreateRepo (name ++ lit "-data"))); [reflexivity |].
  rewrite call_spec.
  destruct (rpc_fails E (CreateRepo (name ++ lit "-processors"))).
  { rewrite release_spec, !emit_emit. reflexivity. }
  rewrite call_spec. cbn [s_name s_data s_processors r_name].
  destruct (rpc_fails E (CreatePipeline _ _ _ _)).
  { rewrite !release_spec, !emit_emit. reflexivity. }
  rewrite !emit_emit. cbn [app].
  change [Rpc (CreateRepo (name ++ lit "-data"));
          Rpc (CreateRepo (name ++ lit "-processors"));
          Rpc (CreatePipeline name d (name ++ lit "-data") (name ++ lit "-processors"))]
    with (provisioning d (session_of name)).
  change {| s_name := name; s_data := {| r_name := name ++ lit "-data" |};
            s_processors := {| r_name := name ++ lit "-processors" |};
            s_pipeline := Some {| p_name := name |} |} with (session_of name).
  destruct (body (session_of name) (emit (provisioning d (session_of name)) w1)) as [[a | e |] w2];
    cbn [after_scope]; rewrite ?release_spec; cbn [p_name r_name];
    rewrite ?release_spec, ?emit_emit; reflexivity.
Qed.

(** C7. The session scope is entered exactly when the definition is
    there and the two repositories and the pipeline have been created,
    in that order. Then every way the block ends for the caller, by
    returning or by raising (an error, a cancellation), is followed by
    the teardown (the pipeline is deleted first, then the processors
    repository, then the data repository) and gives the caller the
    outcome of the block; a block that is still suspended has not left
    the scope. When a creation is refused, the block is never run, and
    what had been created before is deleted, in reverse order; when
    the definition cannot be loaded, nothing is created. *)
Theorem session_scope_teardown (E : env) (self : nat) (w : world) :
  let name := lit "doorstep-" ++ uuid4 E (drawn w) in
  let data := name ++ lit "-data" in
  let processors := name ++ lit "-processors" in
  (forall e w1,
      get_definition E self (drew w) = (Raise e, w1) ->
      forall A (body : session -> M A), make_session E self body w = (Raise e, w1)) /\
  (forall d w1,
      get_definition E self (drew w) = (Ret d, w1) ->
      let create_data := CreateRepo data in
      let create_processors := CreateRepo processors in
      let create_pipeline := CreatePipeline name d data processors in
      let created := [Rpc create_data; Rpc create_processors; Rpc create_pipeline] in
      let released :=
        [Rpc (DeletePipeline name); Rpc (DeleteRepo processors); Rpc (DeleteRepo data)] in
      (rpc_fails E create_data = true ->
       forall A (body : session -> M A),
         make_session E self body w = (Raise (RpcError create_data), emit [Rpc create_data] w1)) /\
      (rpc_fails E create_data = false -> rpc_fails E create_processors = true ->
       forall A (body : session -> M A),
         make_session E self body w
         = (Raise (RpcError create_processors),
            emit [Rpc create_data; Rpc create_processors; Rpc (DeleteRepo data)] w1)) /\
      (rpc_fails E create_data = false -> rpc_fails E create_processors = false ->
       rpc_fails E create_pipeline = true ->
       forall A (body : session -> M A),
         make_session E self body w
         = (Raise (RpcError create_pipeline),
            emit (created ++ [Rpc (DeleteRepo processors); Rpc (DeleteRepo data)]) w1)) /\
      (rpc_fails E create_data = false -> rpc_fails E create_processors = false ->
       rpc_fails E create_pipeline = false ->
       forall A (body : session -> M A),
         make_session E self body w =
         match body (session_of name) (emit created w1) with
         | (Ret a, w2) => (Ret a, emit released w2)
         | (Raise e, w2) => (Raise e, emit released w2)
         | (Blocked, w2) => (Blocked, w2)
         end)).
Proof.
  intros name data processors. split.
  - intros e w1 Hdef A body. rewrite make_session_unfold. cbv zeta. now rewrite Hdef.
  - intros d w1 Hdef create_data create_processors create_pipeline created released.
    assert (Hunfold : forall A (body : session -> M A),
              make_session E self body w =
              if rpc_fails E create_data then
                (Raise (RpcError create_data), emit [Rpc create_data] w1)
              else if rpc_fails E create_processors then
                (Raise (RpcError create_processors),
                 emit [Rpc create_data; Rpc create_processors; Rpc (DeleteRepo data)] w1)
              else if rpc_fails E create_pipeline then
                (Raise (RpcError create_pipeline),
                 emit (created ++ [Rpc (DeleteRepo processors); Rpc (DeleteRepo data)]) w1)
              else after_scope (session_of name) (body (session_of name) (emit created w1))).
    { intros A body. rewrite make_session_unfold. cbv zeta. fold name. rewrite Hdef.
      reflexivity. }
    split; [| split; [| split]].
    + intros H1 A body. now rewrite Hunfold, H1.
    + intros H1 H2 A body. now rewrite Hunfold, H1, H2.
    + intros H1 H2 H3 A body. now rewrite Hunfold, H1, H2, H3.
    + intros H1 H2 H3 A body. rewrite Hunfold, H1, H2, H3.
      destruct (body (session_of name) (emit created w1)) as [[a | e |] w2]; reflexivity.
Qed.

Lemma session_scope_teardown_witness :
  let w1 := snd (get_definition cluster 0%nat (drew started)) in
  make_session cluster 0%nat (fun _ => @raise unit CancelledError) started
  = (Raise CancelledError,
     emit [Rpc (DeletePipeline (lit "doorstep-u0"));
           Rpc (DeleteRepo (lit "doorstep-u0-processors"));
           Rpc (DeleteRepo (lit "doorstep-u0-data"))]
       (emit [Rpc (CreateRepo (lit "doorstep-u0-data"));
              Rpc (CreateRepo (lit "doorstep-u0-processors"));
              Rpc (CreatePipeline (lit "doorstep-u0") template_json
                     (lit "doorstep-u0-data") (lit "doorstep-u0-processors"))] w1)).
Proof.
  intros w1.
  destruct (session_scope_teardown cluster 0%nat started) as [_ Hentered].
  destruct (Hentered template_json w1) as (_ & _ & _ & Hscope).
  { unfold w1. rewrite (surjective_pairing (get_definition cluster 0%nat (drew started))) at 1.
    f_equal; vm_compute; reflexivity. }
  exact (Hscope eq_refl eq_refl eq_refl unit (fun _ => raise CancelledError)).
Defined.

(** ** Inversion of the monad *)

Lemma bind_Ret {A B} (m : M A) (k : A -> M B) w b w' :
  bind m k w = (Ret b, w') ->
  exists a w1, m w = (Ret a, w1) /\ k a w1 = (Ret b, w').
Proof.
  unfold bind. destruct (m w) as [[a | e |] w1]; try discriminate. eauto.
Qed.

Lemma with_Ret {R A} (enter : M R) leave (body : R -> M A) w a w' :
  with_ enter leave body w = (Ret a, w') ->
  exists r w1 w2, enter w = (Ret r, w1) /\ body r w1 = (Ret a, w2) /\ leave r w2 = (Ret tt, w').
Proof.
  unfold with_. destruct (enter w) as [[r | e |] w1]; try discriminate.
  destruct (body r w1) as [[a' | e |] w2] eqn:Hb; try discriminate;
    destruct (leave r w2) as [[[] | e' |] w3] eqn:Hl; try discriminate.
  intros [= <- <-]. eauto 10.
Qed.

Lemma after_scope_Ret {A} s (r : outcome A * world) a w' :
  after_scope s r = (Ret a, w') -> exists w2, r = (Ret a, w2) /\ w' = emit (teardown s) w2.
Proof. destruct r as [[a' | e |] w2]; cbn; intros [= <- <-] || discriminate; eauto. Qed.

Lemma make_session_Ret E self A (body : session -> M A) w a w' :
  make_session E self body w = (Ret a, w') ->
  exists d w1 w2,
    let s := session_of (lit "doorstep-" ++ uuid4 E (drawn w)) in
    get_definition E self (drew w) = (Ret d, w1) /\
    body s (emit (provisioning d s) w1) = (Ret a, w2) /\
    w' = emit (teardown s) w2.
Proof.
  rewrite make_session_unfold. cbv zeta.
  destruct (get_definition E self (drew w)) as [[d | e |] w1]; try discriminate.
  repeat match goal with |- context [if ?b then _ else _] => destruct b; try discriminate end.
  intros H. apply after_scope_Ret in H as (w2 & H & ->). eauto 10.
Qed.

(** ** The definition cache *)

Lemma getattr_Ret self name w v w' :
  getattr self name w = (Ret v, w') ->
  w' = w /\ forall w2, heap w2 !! self = heap w !! self -> getattr self name w2 = (Ret v, w2).
Proof.
  unfold getattr. intros H. split.
  - repeat match type of H with context [match ?x with _ => _ end] => destruct x end;
      congruence.
  - intros w2 ->.
    repeat match type of H with context [match ?x with _ => _ end] => destruct x end;
      congruence.
Qed.

Lemma setattr_getattr self name v w w' :
  setattr self name v w = (Ret tt, w') -> getattr self name w' = (Ret v, w').
Proof.
  unfold setattr, getattr. destruct (heap w !! self) as [dict |] eqn:Hd; [| discriminate].
  intros [= <-]. cbn [heap].
  rewrite list_lookup_insert_eq by (eapply lookup_lt_Some; eauto).
  now rewrite lookup_insert_eq.
Qed.

Lemma get_definition_stored E self w d w1 :
  get_definition E self w = (Ret d, w1) ->
  getattr self "pipeline_definition" w1 = (Ret d, w1).
Proof.
  unfold get_definition. intros H.
  apply bind_Ret in H as (cur & w0 & Hcur & H).
  apply bind_Ret in H as ([] & w2 & Hload & H).
  apply getattr_Ret in H as Hw. destruct Hw as [-> _]. exact H.
Qed.

(** C9, as amended. Once [get_definition] has returned a truthy
    definition on an engine object, every later call on that object, as
    long as its attributes are untouched, returns the same value and has
    no effect at all: the template is not opened again, whatever the
    file system holds by then. *)
Theorem definition_cached_per_instance (E E' : env) (self : nat) (w w1 w2 : world) (d : json) :
  get_definition E self w = (Ret d, w1) ->
  truthy d = true ->
  heap w2 !! self = heap w1 !! self ->
  get_definition E' self w2 = (Ret d, w2).
Proof.
  intros Hfirst Htruthy Hsame.
  apply get_definition_stored in Hfirst.
  apply getattr_Ret in Hfirst as [_ Hget]. specialize (Hget w2 Hsame).
  unfold get_definition, bind. rewrite Hget, Htruthy. cbn. now rewrite Hget.
Qed.

Lemma definition_cached_per_instance_witness :
  let w := snd (PachydermEngine cluster world0) in
  let w1 := snd (get_definition cluster 0%nat w) in
  get_definition cluster 0%nat w1 = (Ret template_json, w1).
Proof.
  intros w w1.
  apply (definition_cached_per_instance cluster cluster 0%nat w w1 w1 template_json);
    [| reflexivity | reflexivity].
  unfold w1. rewrite (surjective_pairing (get_definition cluster 0%nat w)) at 1.
  f_equal; vm_compute; reflexivity.
Defined.

(** C9, counterexample. Two engines of one process: the second one opens
    the template again, although the first has loaded it. *)
Lemma definition_reread_by_second_engine :
  fst (two_engines world0) = Ret (0%nat, 1%nat, template_json, template_json) /\
  opened (timeline (snd (two_engines world0)))
  = [lit "/engine/pachyderm_proxy/doorstep.json"; lit "/engine/pachyderm_proxy/doorstep.json"].
Proof. split; vm_compute; reflexivity. Qed.

(** ** The report *)

Lemma decode_lines_Ret output w texts w' :
  decode_lines output w = (Ret texts, w') ->
  map decode output = map Some texts /\ w' = w.
Proof.
  revert texts w'. induction output as [| line rest IH]; intros texts w' H.
  - cbn in H. injection H as <- <-. split; reflexivity.
  - cbn [decode_lines] in H.
    apply bind_Ret in H as (text & w1 & Hd & H).
    apply bind_Ret in H as (more & w2 & Hrest & H).
    injection H as <- <-.
    unfold decode_utf8 in Hd. destruct (decode line) eqn:Hline; [| discriminate].
    injection Hd as <- <-.
    apply IH in Hrest as [Hmap ->]. cbn. now rewrite Hline, Hmap.
Qed.

Lemma get_output_Ret E s w v w' :
  get_output E s w = (Ret v, w') ->
  exists lines texts,
    artifact E (lit "/doorstep.out") = Some lines /\
    map decode lines = map Some texts /\
    v = List [Str (join [10] texts)].
Proof.
  unfold get_output. intros H.
  apply bind_Ret in H as (p & w1 & _ & H).
  apply bind_Ret in H as (output & w2 & Hpull & H).
  apply bind_Ret in H as (texts & w3 & Hdec & H).
  injection H as <- <-.
  unfold pull_output in Hpull. apply bind_Ret in Hpull as ([] & w4 & _ & Hpull).
  destruct (artifact E (lit "/doorstep.out")) as [lines |] eqn:Hart; [| discriminate].
  injection Hpull as <- <-.
  apply decode_lines_Ret in Hdec as [Hmap _]. eauto.
Qed.

(** C4, as amended. The value a run returns is a list with one element:
    the string made of the lines of the output artifact at
    [/doorstep.out], each decoded as UTF-8, joined with newlines. *)
Theorem run_returns_report_in_list (E : env) (self : nat) (filename workflow_module : str)
    (bucket : option str) (events : list event) (w w' : world) (v : value) :
  run E self filename workflow_module bucket events w = (Ret v, w') ->
  exists lines texts,
    artifact E (lit "/doorstep.out") = Some lines /\
    map decode lines = map Some texts /\
    v = List [Str (join [10] texts)].
Proof.
  unfold run. intros H.
  apply make_session_Ret in H as (d & w1 & w2 & _ & H & _).
  repeat (apply bind_Ret in H as (? & ? & _ & H)).
  revert H. match goal with |- context [let (_, _) := ?x in _] => destruct x end. intros H.
  apply bind_Ret in H as (? & ? & _ & H).
  apply bind_Ret in H as (results & w3 & Hout & H).
  injection H as <- <-.
  eapply get_output_Ret; eauto.
Qed.

Lemma run_returns_report_in_list_witness :
  exists lines texts,
    artifact cluster (lit "/doorstep.out") = Some lines /\
    map decode lines = map Some texts /\
    List [Str (lit "a" ++ [10] ++ lit "b")] = List [Str (join [10] texts)].
Proof.
  apply (run_returns_report_in_list cluster 0%nat (lit "in.csv") (lit "proc.py") None
           three_commits (snd (PachydermEngine cluster world0))
           (snd (go None three_commits))).
  change (run cluster 0%nat (lit "in.csv") (lit "proc.py") None three_commits
            (snd (PachydermEngine cluster world0))) with (go None three_commits).
  rewrite (surjective_pairing (go None three_commits)) at 1.
  f_equal; vm_compute; reflexivity.
Defined.

(** C4, counterexample. A run that succeeds returns a list, not the
    report string. *)
Lemma run_returns_a_list_not_a_string :
  fst (go None three_commits) = Ret (List [Str (lit "a" ++ [10] ++ lit "b")]) /\
  forall report : str, fst (go None three_commits) <> Ret (Str report).
Proof.
  assert (H : fst (go None three_commits) = Ret (List [Str (lit "a" ++ [10] ++ lit "b")]))
    by (vm_compute; reflexivity).
  split; [exact H |]. intros report. rewrite H. discriminate.
Qed.


(** ** Effects of composite code *)

Section Emits.
Context {P : effect -> Prop}.

Lemma emits_weaken {A} (P' : effect -> Prop) (Q Q' : A -> Prop) (m : M A) :
  (forall e, P' e -> P e) -> (forall a, Q' a -> Q a) -> emits P' Q' m -> emits P Q m.
Proof.
  intros HP HQ Hm w. destruct (Hm w) as (l & Ht & Hl & Ha).
  exists l. split; [exact Ht | split].
  - eapply Forall_impl; eassumption.
  - intros a Hr. apply HQ, Ha, Hr.
Qed.

Lemma emits_silent {A} (Q : A -> Prop) (m : M A) :
  (forall w, timeline (snd (m w)) = timeline w) ->
  (forall w a, fst (m w) = Ret a -> Q a) ->
  emits P Q m.
Proof.
  intros Ht Hq w. exists []. rewrite app_nil_r.
  split; [apply Ht | split; [constructor | apply Hq]].
Qed.

Lemma emits_ret {A} (Q : A -> Prop) a : Q a -> emits P Q (ret a).
Proof.
  intros Ha. apply emits_silent; [reflexivity |]. intros w a' [= <-]. exact Ha.
Qed.

Lemma emits_raise {A} (Q : A -> Prop) e : emits P Q (raise e).
Proof. apply emits_silent; [reflexivity | discriminate]. Qed.

Lemma emits_blocked {A} (Q : A -> Prop) : emits P Q blocked.
Proof. apply emits_silent; [reflexivity | discriminate]. Qed.

Lemma emits_perform e : P e -> emits P (fun _ => True) (perform e).
Proof.
  intros He w. exists [e]. split; [reflexivity | split; [| intros; exact I]].
  constructor; [exact He | constructor].
Qed.

Lemma emits_bind {A B} (Q : A -> Prop) (R : B -> Prop) (m : M A) (k : A -> M B) :
  emits P Q m -> (forall a, Q a -> emits P R (k a)) -> emits P R (bind m k).
Proof.
  intros Hm Hk w. unfold bind.
  destruct (Hm w) as (l & Ht & Hl & Ha).
  destruct (m w) as [[a | e |] w1]; cbn [fst snd] in *.
  - destruct (Hk a (Ha a eq_refl) w1) as (l' & Ht' & Hl' & Ha').
    exists (l ++ l'). split; [| split].
    + rewrite Ht', Ht. symmetry. apply app_assoc.
    + apply Forall_app; split; assumption.
    + exact Ha'.
  - exists l. split; [exact Ht | split; [exact Hl | discriminate]].
  - exists l. split; [exact Ht | split; [exact Hl | discriminate]].
Qed.

Lemma emits_swallow (m : M unit) :
  emits P (fun _ => True) m -> emits P (fun _ => True) (swallow m).
Proof.
  intros Hm w. unfold swallow. destruct (Hm w) as (l & Ht & Hl & _).
  exists l. destruct (m w) as [[a | e |] w1]; cbn [fst snd] in *;
    (split; [exact Ht | split; [exact Hl | intros; exact I]]).
Qed.

Lemma emits_with {R A} (Q : R -> Prop) (S : A -> Prop) (enter : M R) leave (body : R -> M A) :
  emits P Q enter ->
  (forall r, Q r -> emits P (fun _ => True) (leave r)) ->
  (forall r, Q r -> emits P S (body r)) ->
  emits P S (with_ enter leave body).
Proof.
  intros He Hl Hb w. unfold with_.
  destruct (He w) as (l1 & Ht1 & Hl1 & Hq).
  destruct (enter w) as [[r | e |] w1]; cbn [fst snd] in *;
    [| exists l1; (split; [exact Ht1 | split; [exact Hl1 | discriminate]]) ..].
  specialize (Hq r eq_refl).
  destruct (Hb r Hq w1) as (l2 & Ht2 & Hl2 & Hs).
  destruct (Hl r Hq (snd (body r w1))) as (l3 & Ht3 & Hl3 & _).
  assert (H123 : Forall P (l1 ++ l2 ++ l3))
    by (apply Forall_app; split; [| apply Forall_app; split]; assumption).
  assert (H12 : Forall P (l1 ++ l2)) by (apply Forall_app; split; assumption).
  destruct (body r w1) as [[a | e |] w2]; cbn [fst snd] in *.
  - exists (l1 ++ l2 ++ l3).
    destruct (leave r w2) as [[[] | e' |] w3]; cbn [fst snd] in *;
      (split; [rewrite Ht3, Ht2, Ht1, <- !app_assoc; reflexivity | split; [exact H123 |]]);
      [| discriminate ..].
    intros a' [= <-]. apply Hs. reflexivity.
  - exists (l1 ++ l2 ++ l3).
    destruct (leave r w2) as [[[] | e' |] w3]; cbn [fst snd] in *;
      (split; [rewrite Ht3, Ht2, Ht1, <- !app_assoc; reflexivity | split; [exact H123 |]]);
      discriminate.
  - exists (l1 ++ l2).
    split; [rewrite Ht2, Ht1, <- app_assoc; reflexivity | split; [exact H12 | discriminate]].
Qed.

Lemma emits_call E c : P (Rpc c) -> emits P (fun _ => True) (call E c).
Proof.
  intros Hc. unfold call. eapply emits_bind; [apply emits_perform; auto |].
  intros _ _. destruct (rpc_fails E c); [apply emits_raise | now apply emits_ret].
Qed.

Lemma emits_draw {A} (supply : nat -> A) : emits P (fun _ => True) (draw supply).
Proof. apply emits_silent; [reflexivity | intros; exact I]. Qed.

Lemma emits_getattr self name : emits P (fun _ => True) (getattr self name).
Proof.
  apply emits_silent; [| intros; exact I]. intros w. unfold getattr.
  repeat match goal with |- context [match ?x with _ => _ end] => destruct x end;
    reflexivity.
Qed.

Lemma emits_setattr self name v : emits P (fun _ => True) (setattr self name v).
Proof.
  apply emits_silent; [| intros; exact I]. intros w. unfold setattr.
  destruct (heap w !! self); reflexivity.
Qed.

Lemma emits_open_read E path :
  P (Open path) -> emits P (fun text => files E path = Some text) (open_read E path).
Proof.
  intros Ho. rewrite open_read_files. eapply emits_bind; [apply emits_perform; auto |].
  intros _ _. destruct (files E path) eqn:Hf; [now apply emits_ret | apply emits_raise].
Qed.

Lemma emits_encode_utf8 s : emits P (fun b => encode s = Some b) (encode_utf8 s).
Proof.
  unfold encode_utf8. destruct (encode s); [now apply emits_ret | apply emits_raise].
Qed.

Lemma emits_decode_lines output : emits P (fun _ => True) (decode_lines output).
Proof.
  induction output as [| line rest IH]; cbn [decode_lines].
  - now apply emits_ret.
  - eapply emits_bind with (Q := fun _ => True).
    { unfold decode_utf8. destruct (decode line); [now apply emits_ret | apply emits_raise]. }
    intros text _. eapply emits_bind; [exact IH |]. intros more _. now apply emits_ret.
Qed.

Lemma emits_get_definition E self :
  (forall path, P (Open path)) ->
  emits P (fun _ => True) (get_definition E self).
Proof.
  intros Ho. unfold get_definition.
  eapply emits_bind; [apply emits_getattr |]. intros current _.
  eapply emits_bind with (Q := fun _ => True); [| intros _ _; apply emits_getattr].
  destruct (negb (truthy current)); [| now apply emits_ret].
  eapply emits_bind; [apply emits_getattr |]. intros path _.
  eapply emits_bind with (Q := fun _ => True).
  { unfold as_str. destruct path; first [now apply emits_ret | apply emits_raise]. }
  intros path' _. eapply emits_bind; [apply emits_open_read; auto |]. intros text _.
  eapply emits_bind with (Q := fun _ => True); [| intros; apply emits_setattr].
  unfold json_load. destruct (parse_json E text); [now apply emits_ret | apply emits_raise].
Qed.

(** *** Coroutines *)

Lemma task_emits_tbind {A B} (t : task A) (f : A -> task B) :
  task_emits P t -> (forall a, task_emits P (f a)) -> task_emits P (tbind t f).
Proof.
  intros Ht Hf. induction t as [a | e | eff k IH | p k IH]; cbn in *; auto.
  - destruct Ht; auto.
  - destruct Ht; auto.
Qed.

Lemma task_emits_tcatch {A} (t : task A) h :
  task_emits P t -> (forall e t', h e = Some t' -> task_emits P t') ->
  task_emits P (tcatch t h).
Proof.
  intros Ht Hh. induction t as [a | e | eff k IH | p k IH]; cbn in *; auto.
  - destruct (h e) eqn:He; cbn; eauto.
  - destruct Ht; auto.
  - destruct Ht; auto.
Qed.

Lemma task_emits_wait_for_run E p n states tick suffix :
  P (Rpc (InspectJob (p_name p))) -> P (Rpc (GetLogs (p_name p))) ->
  task_emits P tick ->
  task_emits P (wait_for_run E p n states tick suffix).
Proof.
  intros Hi Hg Ht. induction n as [| n IH]; cbn; auto.
  split; auto. intros s.
  destruct (in_states s states).
  - apply task_emits_tbind; auto.
  - destruct (job_state_eqb s FAILED); cbn; auto.
Qed.

Lemma task_emits_wait_for_pipeline E p :
  (forall e, is_staging e = false -> P e) ->
  task_emits P (wait_for_pipeline E p).
Proof.
  intros HP. unfold wait_for_pipeline, _wait_for_pipeline.
  assert (Htick : task_emits P (Do (Write (lit ".")) (Do (Sleep _retry_delay) (Done tt)))).
  { cbn [task_emits]. split; [| split; [| exact I]]; apply HP; reflexivity. }
  apply task_emits_tcatch.
  - apply task_emits_tbind; [| intros; exact I].
    apply task_emits_tbind; [| intros _];
      (apply task_emits_wait_for_run; [apply HP; reflexivity | apply HP; reflexivity | exact Htick]).
  - intros e t' He. destruct e; try discriminate. injection He as <-.
    apply task_emits_tbind; [| intros; exact I].
    destruct logs as [| first rest]; [exact I |].
    unfold tprint. cbn [tbind task_emits].
    split; [apply HP; reflexivity | split; [apply HP; reflexivity | exact I]].
Qed.

Lemma emits_settle {A} (t : task A) :
  task_emits P t -> emits P (task_emits P) (settle t).
Proof.
  induction t as [a | e | eff k IH | p k IH]; intros Ht; cbn [settle];
    try (apply emits_ret; exact Ht).
  destruct Ht as [He Hk].
  eapply emits_bind; [apply emits_perform; auto |]. intros _ _. auto.
Qed.

Lemma emits_advance {A} (t : task A) s :
  task_emits P t -> emits P (task_emits P) (advance t s).
Proof.
  destruct t as [a | e | eff k | p k]; intros Ht; cbn [advance];
    try (apply emits_ret; exact Ht).
  destruct Ht as [Hi Hk].
  eapply emits_bind; [apply emits_perform; auto |]. intros _ _. apply emits_settle; auto.
Qed.

End Emits.


(** ** Staging *)

Lemma session_repo_processors s : session_repo s (lit "processors") = ret (s_processors s).
Proof.
  unfold session_repo.
  destruct (decide (lit "processors" = lit "data")) as [H |]; [discriminate H |].
  destruct (decide (lit "processors" = lit "processors")) as [| H]; [reflexivity |].
  exfalso. apply H. reflexivity.
Qed.

Lemma session_repo_data s : session_repo s (lit "data") = ret (s_data s).
Proof.
  unfold session_repo.
  destruct (decide (lit "data" = lit "data")) as [| H]; [reflexivity |].
  exfalso. apply H. reflexivity.
Qed.

Section Staging.
Context {P : effect -> Prop}.

Lemma emits_in_commit E (r : PachydermRepo) (body : PachydermCommit -> M unit) :
  P (Rpc (StartCommit (r_name r) (lit "master"))) ->
  (forall c, P (Rpc (FinishCommit c))) ->
  (forall id, emits P (fun _ => True)
                (body {| _repo := r_name r; _name := id; _provenance := None |})) ->
  emits P (fun _ => True)
    (with_ (make_commit_enter E r (lit "master")) (make_commit_leave E) body).
Proof.
  intros Hs Hf Hb.
  eapply emits_with with
    (Q := fun c => exists id, c = {| _repo := r_name r; _name := id; _provenance := None |}).
  - unfold make_commit_enter.
    eapply emits_bind; [apply emits_call; exact Hs |]. intros _ _.
    eapply emits_bind; [apply emits_draw |]. intros id _.
    apply emits_ret. eauto.
  - intros c _. unfold make_commit_leave. apply emits_call. apply Hf.
  - intros c [id ->]. apply Hb.
Qed.

Lemma emits_add_file E (r : PachydermRepo) category filename data s bucket :
  session_repo s category = ret r ->
  P (Rpc (StartCommit (r_name r) (lit "master"))) ->
  (forall c, P (Rpc (FinishCommit c))) ->
  (forall id,
      P (Rpc (if truthy_opt bucket
              then PutFileUrl (r_name r ++ lit "/" ++ id) filename
                     (lit "s3://" ++ format_opt bucket ++ lit "/" ++ format_content data)
              else PutFileBytes (r_name r ++ lit "/" ++ id) filename data))) ->
  emits P (fun _ => True) (_add_file E category filename data s bucket).
Proof.
  intros Hr Hs Hf Hp. unfold _add_file. rewrite Hr.
  eapply emits_bind with (Q := fun r' => r' = r); [apply emits_ret; reflexivity |].
  intros r' ->.
  apply emits_in_commit; [exact Hs | exact Hf |].
  intros id. specialize (Hp id).
  destruct (truthy_opt bucket); [unfold put_file_url | unfold put_file_bytes];
    apply emits_call; exact Hp.
Qed.

End Staging.

(** ** The timeline of [run] *)

Lemma run_effect_other E name filename workflow_module bucket e :
  is_staging e = false -> run_effect E name filename workflow_module bucket e.
Proof. destruct e as [[] | | | |]; cbn; intros H; try discriminate H; exact I. Qed.

Section RunBody.
Variable E : env.
Variables (name filename workflow_module : str) (bucket : option str).
Let P := run_effect E name filename workflow_module bucket.
Let s := session_of name.

Lemma P_other e : is_staging e = false -> P e.
Proof. apply run_effect_other. Qed.

Lemma emits_stage_processor source encoded :
  files E workflow_module = Some source -> encode source = Some encoded ->
  emits P (fun _ => True) (add_processor E (lit "processor") (Raw encoded) s).
Proof.
  intros Hsrc Henc. unfold add_processor.
  eapply emits_add_file with (r := s_processors s).
  - apply session_repo_processors.
  - cbn. split; [reflexivity | left; reflexivity].
  - intros c. apply P_other. reflexivity.
  - intros id. cbn. left. split; [exists id; reflexivity | split; [reflexivity |]].
    exists source, encoded. auto.
Qed.

Lemma emits_stage_data data :
  (if truthy_opt bucket then data = Text filename
   else exists text encoded,
       files E filename = Some text /\ encode text = Some encoded /\ data = Raw encoded) ->
  emits P (fun _ => True) (add_data E (lit "data.csv") data s bucket).
Proof.
  intros Hdata. unfold add_data.
  eapply emits_add_file with (r := s_data s).
  - apply session_repo_data.
  - cbn. split; [reflexivity | right; reflexivity].
  - intros c. apply P_other. reflexivity.
  - intros id. destruct (truthy_opt bucket) eqn:Hb.
    + subst data. cbn. rewrite Hb.
      split; [exists id; reflexivity | split; [reflexivity | split; reflexivity]].
    + cbn. right. rewrite Hb.
      split; [exists id; reflexivity | split; [reflexivity | split; [reflexivity | exact Hdata]]].
Qed.

End RunBody.

Section Race.
Context {P : effect -> Prop}.
Hypothesis P_other : forall e, is_staging e = false -> P e.

Lemma emits_stop_watching E s :
  emits P (fun _ => True) (swallow (let* p := session_pipeline s in stop_watching_commits E p)).
Proof.
  apply emits_swallow.
  eapply emits_bind with (Q := fun _ => True).
  - unfold session_pipeline. destruct (s_pipeline s); [apply emits_ret; exact I | apply emits_raise].
  - intros p _. apply emits_call. apply P_other. reflexivity.
Qed.

Lemma emits_watch_for_output E s sub raw :
  emits P (fun _ => True) (watch_for_output E s sub raw).
Proof.
  unfold watch_for_output. destruct sub; try (apply emits_ret; exact I).
  destruct (watch_step (input_repos s) (from_raw raw)); try (apply emits_ret; exact I).
  eapply emits_bind; [apply emits_stop_watching |].
  intros _ _. apply emits_ret. exact I.
Qed.

Lemma emits_event_loop E s events : forall sub job_wait,
  task_emits P job_wait ->
  emits P (fun _ => True) (event_loop E s events sub job_wait).
Proof.
  induction events as [| ev rest IH]; intros sub job_wait Hjw; cbn [event_loop].
  - apply emits_blocked.
  - destruct ev as [raw | state].
    + eapply emits_bind; [apply emits_watch_for_output |].
      intros sub' _. destruct sub'; try (apply IH; exact Hjw).
      apply emits_ret. exact I.
    + eapply emits_bind; [apply emits_advance; exact Hjw |].
      intros job_wait' Hjw'. apply IH. exact Hjw'.
Qed.

Lemma emits_start_watch E s : emits P (fun _ => True) (start_watch E s).
Proof.
  assert (H : emits P (fun _ => True) (let* p := session_pipeline s in watch_commits E p)).
  { eapply emits_bind with (Q := fun _ => True).
    - unfold session_pipeline. destruct (s_pipeline s); [apply emits_ret; exact I | apply emits_raise].
    - intros p _. apply emits_call. apply P_other. reflexivity. }
  intros w. destruct (H w) as (l & Ht & Hl & _). exists l. unfold start_watch.
  destruct ((let* p := session_pipeline s in watch_commits E p) w) as [[[] | e |] w1];
    cbn [fst snd] in *; (split; [exact Ht | split; [exact Hl | intros; exact I]]).
Qed.

Lemma emits_monitor_output E s events job_wait :
  task_emits P job_wait ->
  emits P (fun _ => True) (monitor_output E s events job_wait).
Proof.
  intros Hjw. unfold monitor_output.
  eapply emits_bind; [apply emits_start_watch |]. intros sub _.
  eapply emits_bind; [apply emits_settle; exact Hjw |]. intros jw Hjw'.
  apply emits_event_loop. exact Hjw'.
Qed.

Lemma emits_cancel {A} (t : task A) : emits P (fun _ => True) (cancel t).
Proof.
  unfold cancel. eapply emits_bind; [apply emits_perform; apply P_other; reflexivity |].
  intros _ _. apply emits_ret. exact I.
Qed.

Lemma emits_get_output E s : emits P (fun _ => True) (get_output E s).
Proof.
  unfold get_output.
  eapply emits_bind with (Q := fun _ => True).
  { unfold session_pipeline. destruct (s_pipeline s); [apply emits_ret; exact I | apply emits_raise]. }
  intros p _. eapply emits_bind with (Q := fun _ => True).
  { unfold pull_output. eapply emits_bind; [apply emits_call; apply P_other; reflexivity |].
    intros _ _. destruct (artifact E _); [apply emits_ret; exact I | apply emits_raise]. }
  intros output _. eapply emits_bind; [apply emits_decode_lines |].
  intros lines _. apply emits_ret. exact I.
Qed.

Lemma task_emits_start_job_wait E s : task_emits P (start_job_wait E s).
Proof.
  unfold start_job_wait. destruct (s_pipeline s); [| exact I].
  apply task_emits_wait_for_pipeline. exact P_other.
Qed.

End Race.

Lemma run_unfold E self filename workflow_module bucket events :
  run E self filename workflow_module bucket events
  = make_session E self (run_block E filename workflow_module bucket events).
Proof. reflexivity. Qed.

Lemma emits_run_block E name filename workflow_module bucket events :
  emits (run_effect E name filename workflow_module bucket) (fun _ => True)
    (run_block E filename workflow_module bucket events (session_of name)).
Proof.
  pose proof (run_effect_other E name filename workflow_module bucket) as Hother.
  unfold run_block.
  eapply emits_bind; [apply emits_open_read; apply Hother; reflexivity |].
  intros source Hsrc. cbv beta in Hsrc.
  eapply emits_bind; [apply emits_encode_utf8 |]. intros encoded Henc. cbv beta in Henc.
  eapply emits_bind; [eapply emits_stage_processor; eassumption |]. intros _ _.
  eapply emits_bind with
    (Q := fun data =>
            if truthy_opt bucket then data = Text filename
            else exists text encoded,
                files E filename = Some text /\ encode text = Some encoded /\ data = Raw encoded).
  { destruct (truthy_opt bucket); [apply emits_ret; reflexivity |].
    eapply emits_bind; [apply emits_open_read; apply Hother; reflexivity |].
    intros text Htext. eapply emits_bind; [apply emits_encode_utf8 |].
    intros enc Henc'. cbv beta in *. apply emits_ret. eauto. }
  intros data Hdata. cbv beta in Hdata.
  eapply emits_bind; [apply emits_stage_data; exact Hdata |]. intros _ _.
  eapply emits_bind with (Q := task_emits (run_effect E name filename workflow_module bucket)).
  { unfold monitor_pipeline. apply emits_ret. apply task_emits_start_job_wait. exact Hother. }
  intros job_wait Hjw.
  eapply emits_bind; [apply emits_monitor_output; [exact Hother | exact Hjw] |].
  intros [commit job_wait'] _.
  eapply emits_bind; [apply emits_cancel; exact Hother |]. intros _ _.
  eapply emits_bind; [apply emits_get_output; exact Hother |]. intros results _.
  apply emits_ret. exact I.
Qed.

Lemma run_timeline E self filename workflow_module bucket events w :
  exists l,
    timeline (snd (run E self filename workflow_module bucket events w)) = timeline w ++ l /\
    Forall (run_effect E (lit "doorstep-" ++ uuid4 E (drawn w)) filename workflow_module bucket) l.
Proof.
  set (name := lit "doorstep-" ++ uuid4 E (drawn w)).
  set (P := run_effect E name filename workflow_module bucket).
  assert (Hother : forall e, is_staging e = false -> P e) by apply run_effect_other.
  rewrite run_unfold, make_session_unfold. cbv zeta. fold name.
  destruct (@emits_get_definition P E self (fun path => Hother (Open path) eq_refl) (drew w))
    as (l0 & Ht0 & Hl0 & _).
  cbn [drew timeline] in Ht0.
  destruct (get_definition E self (drew w)) as [[d | e |] w1]; cbn [fst snd] in *;
    [| exists l0; split; [exact Ht0 | exact Hl0] ..].
  assert (Hmore : forall l t, Forall P l -> t = timeline w1 ++ l ->
            exists l', t = timeline w ++ l' /\ Forall P l').
  { intros l t Hl ->. exists (l0 ++ l). split.
    - rewrite Ht0. symmetry. apply app_assoc.
    - apply Forall_app. split; assumption. }
  assert (Hprov : Forall P (provisioning d (session_of name)))
    by (repeat constructor; apply Hother; reflexivity).
  assert (Htear : Forall P (teardown (session_of name)))
    by (repeat constructor; apply Hother; reflexivity).
  repeat match goal with |- context [if ?b then _ else _] => destruct b end.
  - cbn [snd emit timeline].
    eapply Hmore; [| reflexivity]. repeat constructor; apply Hother; reflexivity.
  - cbn [snd emit timeline].
    eapply Hmore; [| reflexivity]. repeat constructor; apply Hother; reflexivity.
  - cbn [snd emit timeline].
    eapply Hmore; [| reflexivity]. apply Forall_app. split; [exact Hprov |].
    repeat constructor; apply Hother; reflexivity.
  - destruct (emits_run_block E name filename workflow_module bucket events
                (emit (provisioning d (session_of name)) w1)) as (l & Ht & Hl & _).
    fold P in Hl.
    destruct (run_block E filename workflow_module bucket events (session_of name)
                (emit (provisioning d (session_of name)) w1)) as [[v | e |] w2];
      cbn [after_scope fst snd emit timeline] in *; rewrite Ht.
    + eapply Hmore with (l := provisioning d (session_of name) ++ l ++ teardown (session_of name)).
      * repeat (apply Forall_app; split); assumption.
      * rewrite <- !app_assoc. reflexivity.
    + eapply Hmore with (l := provisioning d (session_of name) ++ l ++ teardown (session_of name)).
      * repeat (apply Forall_app; split); assumption.
      * rewrite <- !app_assoc. reflexivity.
    + eapply Hmore with (l := provisioning d (session_of name) ++ l).
      * apply Forall_app; split; assumption.
      * rewrite <- !app_assoc. reflexivity.
Qed.


(** ** What a run that returns has staged *)

Lemma task_emits_anything {A} (t : task A) : task_emits anything t.
Proof.
  induction t as [a | e | eff k IH | p k IH]; cbn [task_emits]; try exact I.
  - split; [exact I | exact IH].
  - split; [exact I | exact IH].
Qed.

Lemma grows {A} (P : effect -> Prop) (Q : A -> Prop) (m : M A) w r w' :
  emits P Q m -> m w = (r, w') -> exists l, timeline w' = timeline w ++ l.
Proof.
  intros Hm Hw. destruct (Hm w) as (l & Ht & _). rewrite Hw in Ht. eauto.
Qed.

Lemma call_Ret E c w w' : call E c w = (Ret tt, w') -> w' = emit [Rpc c] w.
Proof. rewrite call_spec. destruct (rpc_fails E c); [discriminate | now intros [= <-]]. Qed.

Lemma add_file_Ret E r category filename data s bucket w w' :
  session_repo s category = ret r ->
  _add_file E category filename data s bucket w = (Ret tt, w') ->
  exists id,
    timeline w' = timeline w ++
      [ Rpc (StartCommit (r_name r) (lit "master"));
        Rpc (the_put (r_name r) id filename data bucket);
        Rpc (FinishCommit (r_name r ++ lit "/" ++ id)) ].
Proof.
  intros Hr H. unfold _add_file in H. rewrite Hr in H.
  apply bind_Ret in H as (r' & w0 & [= <- <-] & H).
  apply with_Ret in H as (c & w1 & w2 & Henter & Hbody & Hleave).
  unfold make_commit_enter in Henter.
  apply bind_Ret in Henter as ([] & wa & Hstart & Henter).
  apply call_Ret in Hstart as ->.
  apply bind_Ret in Henter as (id & wb & Hdraw & [= <- <-]).
  unfold draw in Hdraw. injection Hdraw as <- <-.
  unfold make_commit_leave in Hleave. apply call_Ret in Hleave as ->.
  exists (commit_id E (drawn w)). unfold the_put.
  destruct (truthy_opt bucket); [unfold put_file_url in Hbody | unfold put_file_bytes in Hbody];
    apply call_Ret in Hbody as ->; cbn; rewrite <- !app_assoc; reflexivity.
Qed.

Lemma run_block_Ret E name filename workflow_module bucket events w v w' :
  run_block E filename workflow_module bucket events (session_of name) w = (Ret v, w') ->
  exists source encoded data idp idd l1 l2 l3,
    files E workflow_module = Some source /\ encode source = Some encoded /\
    (if truthy_opt bucket then data = Text filename
     else exists text bytes,
         files E filename = Some text /\ encode text = Some bytes /\ data = Raw bytes) /\
    timeline w' = timeline w ++ l1 ++
      [ Rpc (StartCommit (name ++ lit "-processors") (lit "master"));
        Rpc (PutFileBytes ((name ++ lit "-processors") ++ lit "/" ++ idp)
               (lit "/processor.py") (Raw encoded));
        Rpc (FinishCommit ((name ++ lit "-processors") ++ lit "/" ++ idp)) ] ++ l2 ++
      [ Rpc (StartCommit (name ++ lit "-data") (lit "master"));
        Rpc (the_put (name ++ lit "-data") idd (lit "/data.csv") data bucket);
        Rpc (FinishCommit ((name ++ lit "-data") ++ lit "/" ++ idd)) ] ++ l3.
Proof.
  unfold run_block. intros H.
  apply bind_Ret in H as (source & wa & Hopen & H).
  pose proof (grows _ _ _ _ _ _ (emits_open_read (P := anything) E workflow_module I) Hopen)
    as [l1 Hl1].
  destruct (emits_open_read (P := anything) E workflow_module I w) as (_ & _ & _ & Hsrc).
  rewrite Hopen in Hsrc. specialize (Hsrc source eq_refl). cbv beta in Hsrc.
  apply bind_Ret in H as (encoded & wb & Henc & H).
  unfold encode_utf8 in Henc. destruct (encode source) as [enc |] eqn:Hencode; [| discriminate].
  injection Henc as <- <-.
  apply bind_Ret in H as ([] & wc & Hproc & H).
  unfold add_processor in Hproc.
  eapply add_file_Ret in Hproc as [idp Hp]; [| apply session_repo_processors].
  apply bind_Ret in H as (data & wd & Hdata & H).
  assert (Hd : (if truthy_opt bucket then data = Text filename
                else exists text bytes,
                    files E filename = Some text /\ encode text = Some bytes /\ data = Raw bytes)
               /\ exists l2, timeline wd = timeline wc ++ l2).
  { destruct (truthy_opt bucket).
    - injection Hdata as <- <-. split; [reflexivity | exists []; now rewrite app_nil_r].
    - apply bind_Ret in Hdata as (text & wx & Hopen' & Hdata).
      pose proof (grows _ _ _ _ _ _ (emits_open_read (P := anything) E filename I) Hopen')
        as [l2 Hl2].
      destruct (emits_open_read (P := anything) E filename I wc) as (_ & _ & _ & Htext).
      rewrite Hopen' in Htext. specialize (Htext text eq_refl). cbv beta in Htext.
      apply bind_Ret in Hdata as (bytes & wy & Henc' & Hdata).
      unfold encode_utf8 in Henc'. destruct (encode text) as [enc' |] eqn:Hencode'; [| discriminate].
      injection Henc' as <- <-. injection Hdata as <- <-.
      split; [eauto | eauto]. }
  destruct Hd as [Hd [l2 Hl2]].
  apply bind_Ret in H as ([] & we & Hstage & H).
  unfold add_data in Hstage.
  eapply add_file_Ret in Hstage as [idd Hs]; [| apply session_repo_data].
  assert (Hrest : exists l3, timeline w' = timeline we ++ l3).
  { apply bind_Ret in H as (jw & wf & [= <- <-] & H).
    apply bind_Ret in H as ([commit jw'] & wg & Hmon & H).
    eapply grows in Hmon as [la Hla];
      [| apply (emits_monitor_output (P := anything)); [intros; exact I | apply task_emits_anything]].
    apply bind_Ret in H as (? & wh & Hcancel & H).
    eapply grows in Hcancel as [lb Hlb]; [| apply (emits_cancel (P := anything)); intros; exact I].
    apply bind_Ret in H as (results & wi & Hout & [= <- <-]).
    eapply grows in Hout as [lc Hlc]; [| apply (emits_get_output (P := anything)); intros; exact I].
    exists (la ++ lb ++ lc). rewrite Hlc, Hlb, Hla, <- !app_assoc. reflexivity. }
  destruct Hrest as [l3 Hl3].
  exists source, enc, data, idp, idd, l1, l2, l3.
  split; [exact Hsrc | split; [exact Hencode | split; [exact Hd |]]].
  rewrite Hl3, Hs, Hl2, Hp, Hl1. cbn [session_of s_processors s_data r_name].
  rewrite <- !(@List.app_assoc effect). reflexivity.
Qed.

Lemma run_Ret E self filename workflow_module bucket events w v w' :
  run E self filename workflow_module bucket events w = (Ret v, w') ->
  let name := lit "doorstep-" ++ uuid4 E (drawn w) in
  exists source encoded data idp idd before l2 l3,
    files E workflow_module = Some source /\ encode source = Some encoded /\
    (if truthy_opt bucket then data = Text filename
     else exists text bytes,
         files E filename = Some text /\ encode text = Some bytes /\ data = Raw bytes) /\
    timeline w' = timeline w ++ before ++
      [ Rpc (StartCommit (name ++ lit "-processors") (lit "master"));
        Rpc (PutFileBytes ((name ++ lit "-processors") ++ lit "/" ++ idp)
               (lit "/processor.py") (Raw encoded));
        Rpc (FinishCommit ((name ++ lit "-processors") ++ lit "/" ++ idp)) ] ++ l2 ++
      [ Rpc (StartCommit (name ++ lit "-data") (lit "master"));
        Rpc (the_put (name ++ lit "-data") idd (lit "/data.csv") data bucket);
        Rpc (FinishCommit ((name ++ lit "-data") ++ lit "/" ++ idd)) ] ++ l3.
Proof.
  intros H name. rewrite run_unfold in H.
  apply make_session_Ret in H as (d & w1 & w2 & Hdef & Hblock & ->).
  cbv zeta in Hdef, Hblock. fold name in Hblock.
  eapply grows in Hdef as [l0 Hl0]; [| apply (emits_get_definition (P := anything)); intros; exact I].
  apply run_block_Ret in Hblock
    as (source & encoded & data & idp & idd & l1 & l2 & l3 & Hsrc & Henc & Hdata & Ht).
  exists source, encoded, data, idp, idd, (l0 ++ provisioning d (session_of name) ++ l1), l2,
    (l3 ++ teardown (session_of name)).
  split; [exact Hsrc | split; [exact Henc | split; [exact Hdata |]]].
  cbn [emit timeline] in *. rewrite Ht, Hl0. cbn [drew timeline].
  rewrite <- !(@List.app_assoc effect). reflexivity.
Qed.

(** ** What a run that does not raise has staged *)

Lemma unblocked_encode_utf8 s : unblocked (encode_utf8 s).
Proof. unfold encode_utf8. destruct (encode s); [apply unblocked_ret | apply unblocked_raise]. Qed.

Lemma unblocked_draw {A} (supply : nat -> A) : unblocked (draw supply).
Proof. intros w w'. unfold draw. discriminate. Qed.

Lemma unblocked_with {R A} (enter : M R) leave (body : R -> M A) :
  unblocked enter -> (forall r, unblocked (leave r)) -> (forall r, unblocked (body r)) ->
  unblocked (with_ enter leave body).
Proof.
  intros He Hl Hb w w' H. unfold with_ in H.
  destruct (enter w) as [[r | e |] w1] eqn:Henter; [| discriminate | exact (He _ _ Henter)].
  destruct (body r w1) as [[a | e |] w2] eqn:Hbody; [| | exact (Hb _ _ _ Hbody)];
    (destruct (leave r w2) as [[[] | e' |] w3] eqn:Hleave;
     [discriminate | discriminate | exact (Hl _ _ _ Hleave)]).
Qed.

Lemma unblocked_add_file E category filename data s bucket :
  unblocked (_add_file E category filename data s bucket).
Proof.
  unfold _add_file. apply unblocked_bind.
  - unfold session_repo. repeat (destruct (decide _)); try (destruct (s_pipeline s));
      first [apply unblocked_ret | apply unblocked_raise].
  - intros repo. apply unblocked_with.
    + unfold make_commit_enter. apply unblocked_bind; [apply unblocked_call | intros _].
      apply unblocked_bind; [apply unblocked_draw | intros id; apply unblocked_ret].
    + intros c. apply unblocked_call.
    + intros c. destruct (truthy_opt bucket); apply unblocked_call.
Qed.

(** A piece of code that has not raised has gone through its first
    step, when that step cannot stay suspended. *)
Lemma bind_over {A B} (m : M A) (k : A -> M B) w o w' :
  bind m k w = (o, w') -> (forall e, o <> Raise e) -> unblocked m ->
  exists a w1, m w = (Ret a, w1) /\ k a w1 = (o, w').
Proof.
  unfold bind. intros H Ho Hm.
  destruct (m w) as [[a | e |] w1] eqn:Hmw.
  - eauto.
  - injection H as <- <-. now destruct (Ho e).
  - destruct (Hm _ _ Hmw).
Qed.

Lemma unit_Ret (o : outcome unit) :
  (forall e, o <> Raise e) -> o <> Blocked -> o = Ret tt.
Proof. destruct o as [[] | e |]; intros Hr Hb; [reflexivity | destruct (Hr e eq_refl) | now destruct Hb]. Qed.

Lemma run_block_over E name filename workflow_module bucket events w o w' :
  run_block E filename workflow_module bucket events (session_of name) w = (o, w') ->
  (forall e, o <> Raise e) ->
  exists source encoded data idp idd l1 l2 l3,
    files E workflow_module = Some source /\ encode source = Some encoded /\
    (if truthy_opt bucket then data = Text filename
     else exists text bytes,
         files E filename = Some text /\ encode text = Some bytes /\ data = Raw bytes) /\
    timeline w' = timeline w ++ l1 ++
      [ Rpc (StartCommit (name ++ lit "-processors") (lit "master"));
        Rpc (PutFileBytes ((name ++ lit "-processors") ++ lit "/" ++ idp)
               (lit "/processor.py") (Raw encoded));
        Rpc (FinishCommit ((name ++ lit "-processors") ++ lit "/" ++ idp)) ] ++ l2 ++
      [ Rpc (StartCommit (name ++ lit "-data") (lit "master"));
        Rpc (the_put (name ++ lit "-data") idd (lit "/data.csv") data bucket);
        Rpc (FinishCommit ((name ++ lit "-data") ++ lit "/" ++ idd)) ] ++ l3.
Proof.
  unfold run_block. intros H Ho.
  apply bind_over in H as (source & wa & Hopen & H); [| exact Ho | apply unblocked_open_read].
  pose proof (grows _ _ _ _ _ _ (emits_open_read (P := anything) E workflow_module I) Hopen)
    as [l1 Hl1].
  destruct (emits_open_read (P := anything) E workflow_module I w) as (_ & _ & _ & Hsrc).
  rewrite Hopen in Hsrc. specialize (Hsrc source eq_refl). cbv beta in Hsrc.
  apply bind_over in H as (encoded & wb & Henc & H); [| exact Ho | apply unblocked_encode_utf8].
  unfold encode_utf8 in Henc. destruct (encode source) as [enc |] eqn:Hencode; [| discriminate].
  injection Henc as <- <-.
  apply bind_over in H as ([] & wc & Hproc & H); [| exact Ho | apply unblocked_add_file].
  unfold add_processor in Hproc.
  eapply add_file_Ret in Hproc as [idp Hp]; [| apply session_repo_processors].
  assert (Hd : exists data wd,
             (if truthy_opt bucket then data = Text filename
              else exists text bytes,
                  files E filename = Some text /\ encode text = Some bytes /\ data = Raw bytes)
             /\ (exists l2, timeline wd = timeline wc ++ l2)
             /\ (add_data E (lit "data.csv") data (session_of name) bucket ;;;
                 let* job_wait := monitor_pipeline E (session_of name) in
                 let* '(commit, job_wait') :=
                   monitor_output E (session_of name) events job_wait in
                 cancel job_wait' ;;;
                 let* results := get_output E (session_of name) in
                 ret results) wd = (o, w')).
  { destruct (truthy_opt bucket).
    - apply bind_over in H as (data & wd & [= <- <-] & H); [| exact Ho | apply unblocked_ret].
      exists (Text filename), wc. split; [reflexivity | split; [| exact H]].
      exists []. now rewrite app_nil_r.
    - apply bind_over in H as (data & wd & Hdata & H);
        [| exact Ho
         | apply unblocked_bind; [apply unblocked_open_read | intros text];
           apply unblocked_bind; [apply unblocked_encode_utf8 | intros b; apply unblocked_ret]].
      apply bind_Ret in Hdata as (text & wx & Hopen' & Hdata).
      pose proof (grows _ _ _ _ _ _ (emits_open_read (P := anything) E filename I) Hopen')
        as [l2 Hl2].
      destruct (emits_open_read (P := anything) E filename I wc) as (_ & _ & _ & Htext).
      rewrite Hopen' in Htext. specialize (Htext text eq_refl). cbv beta in Htext.
      apply bind_Ret in Hdata as (bytes & wy & Henc' & Hdata).
      unfold encode_utf8 in Henc'. destruct (encode text) as [enc' |] eqn:Hencode'; [| discriminate].
      injection Henc' as <- <-. injection Hdata as <- <-.
      exists (Raw enc'), wx. split; [eauto | split; [eauto | exact H]]. }
  destruct Hd as (data & wd & Hd & [l2 Hl2] & Hrest).
  apply bind_over in Hrest as ([] & we & Hstage & Hrest); [| exact Ho | apply unblocked_add_file].
  unfold add_data in Hstage.
  eapply add_file_Ret in Hstage as [idd Hs]; [| apply session_repo_data].
  assert (Htail : exists l3, timeline w' = timeline we ++ l3).
  { eapply grows; [| exact Hrest].
    eapply (@emits_bind anything) with (Q := task_emits anything) (R := fun _ => True).
    { apply emits_ret. apply task_emits_anything. }
    intros jw Hjw.
    eapply emits_bind; [apply emits_monitor_output; [intros; exact I | exact Hjw] |].
    intros [commit jw'] _.
    eapply emits_bind; [apply emits_cancel; intros; exact I |]. intros _ _.
    eapply emits_bind; [apply emits_get_output; intros; exact I |]. intros results _.
    apply emits_ret. exact I. }
  destruct Htail as [l3 Hl3].
  exists source, enc, data, idp, idd, l1, l2, l3.
  split; [exact Hsrc | split; [exact Hencode | split; [exact Hd |]]].
  rewrite Hl3, Hs, Hl2, Hp, Hl1. cbn [session_of s_processors s_data r_name].
  rewrite <- !(@List.app_assoc effect). reflexivity.
Qed.

Lemma run_over E self filename workflow_module bucket events w o w' :
  run E self filename workflow_module bucket events w = (o, w') ->
  (forall e, o <> Raise e) ->
  let name := lit "doorstep-" ++ uuid4 E (drawn w) in
  exists source encoded data idp idd before l2 l3,
    files E workflow_module = Some source /\ encode source = Some encoded /\
    (if truthy_opt bucket then data = Text filename
     else exists text bytes,
         files E filename = Some text /\ encode text = Some bytes /\ data = Raw bytes) /\
    timeline w' = timeline w ++ before ++
      [ Rpc (StartCommit (name ++ lit "-processors") (lit "master"));
        Rpc (PutFileBytes ((name ++ lit "-processors") ++ lit "/" ++ idp)
               (lit "/processor.py") (Raw encoded));
        Rpc (FinishCommit ((name ++ lit "-processors") ++ lit "/" ++ idp)) ] ++ l2 ++
      [ Rpc (StartCommit (name ++ lit "-data") (lit "master"));
        Rpc (the_put (name ++ lit "-data") idd (lit "/data.csv") data bucket);
        Rpc (FinishCommit ((name ++ lit "-data") ++ lit "/" ++ idd)) ] ++ l3.
Proof.
  intros H Ho name. rewrite run_unfold, make_session_unfold in H. cbv zeta in H.
  fold name in H.
  destruct (get_definition E self (drew w)) as [[d | e |] w1] eqn:Hdef.
  2:{ injection H as <- <-. now destruct (Ho e). }
  2:{ destruct (unblocked_get_definition _ _ _ _ Hdef). }
  eapply grows in Hdef as [l0 Hl0]; [| apply (emits_get_definition (P := anything)); intros; exact I].
  repeat match type of H with
         | (if ?b then _ else _) = _ =>
             destruct b; [injection H as <- <-; exfalso; eapply Ho; reflexivity |]
         end.
  destruct (run_block E filename workflow_module bucket events (session_of name)
              (emit (provisioning d (session_of name)) w1)) as [ob w2] eqn:Hblock.
  assert (Hob : (forall e, ob <> Raise e) /\ exists l4, timeline w' = timeline w2 ++ l4).
  { destruct ob as [a | e |]; cbn [after_scope] in H; injection H as <- <-.
    - split; [discriminate | eexists; reflexivity].
    - now destruct (Ho e).
    - split; [discriminate | exists []; now rewrite app_nil_r]. }
  destruct Hob as [Hob [l4 Hl4]].
  apply run_block_over in Hblock
    as (source & encoded & data & idp & idd & l1 & l2 & l3 & Hsrc & Henc & Hdata & Ht);
    [| exact Hob].
  exists source, encoded, data, idp, idd, (l0 ++ provisioning d (session_of name) ++ l1), l2,
    (l3 ++ l4).
  split; [exact Hsrc | split; [exact Henc | split; [exact Hdata |]]].
  rewrite Hl4, Ht. cbn [emit timeline]. rewrite Hl0. cbn [drew timeline].
  rewrite <- !(@List.app_assoc effect). reflexivity.
Qed.

(** ** Staging in [run] *)

Lemma in_middle {A} (x : A) (l1 l2 l3 : list A) : In x l2 -> In x (l1 ++ l2 ++ l3).
Proof. intros H. apply in_or_app. right. apply in_or_app. left. exact H. Qed.

(** C10. In every run, whatever the file names given by the caller and
    however the run ends, a commit is only ever started on [master] of
    the processors or the data repository of the session; the only
    bytes ever put are the text of the module, at [/processor.py] in
    the processors repository, and (without a bucket) the text of the
    dataset, at [/data.csv] in the data repository; the only URL ever
    put is (with a bucket) that of the dataset, at [/data.csv] in the
    data repository. A run that does not end in an exception (it has
    returned, or it is still suspended) has staged both, each in a
    commit of its own that was started on [master] and finished. *)
Theorem run_stages_at_fixed_paths (E : env) (self : nat) (filename workflow_module : str)
    (bucket : option str) (events : list event) (w : world) :
  let name := lit "doorstep-" ++ uuid4 E (drawn w) in
  let processors := name ++ lit "-processors" in
  let data_repo := name ++ lit "-data" in
  let r := run E self filename workflow_module bucket events w in
  exists l,
    timeline (snd r) = timeline w ++ l /\
    Forall (run_effect E name filename workflow_module bucket) l /\
    ((forall e, fst r <> Raise e) ->
     exists source encoded data idp idd before between after,
       files E workflow_module = Some source /\ encode source = Some encoded /\
       (if truthy_opt bucket then data = Text filename
        else exists text bytes,
            files E filename = Some text /\ encode text = Some bytes /\ data = Raw bytes) /\
       l = before ++
           [ Rpc (StartCommit processors (lit "master"));
             Rpc (PutFileBytes (processors ++ lit "/" ++ idp) (lit "/processor.py")
                    (Raw encoded));
             Rpc (FinishCommit (processors ++ lit "/" ++ idp)) ] ++ between ++
           [ Rpc (StartCommit data_repo (lit "master"));
             Rpc (the_put data_repo idd (lit "/data.csv") data bucket);
             Rpc (FinishCommit (data_repo ++ lit "/" ++ idd)) ] ++ after).
Proof.
  intros name processors data_repo r.
  destruct (run_timeline E self filename workflow_module bucket events w) as (l & Ht & Hl).
  fold name in Hl. fold r in Ht.
  exists l. split; [exact Ht | split; [exact Hl |]].
  intros Hover.
  destruct r as [o w'] eqn:Hr. cbn [fst snd] in *.
  apply run_over in Hr; [| exact Hover]. cbv zeta in Hr. fold name in Hr.
  destruct Hr as (source & encoded & data & idp & idd & before & l2 & l3 &
                  Hsrc & Henc & Hdata & Ht').
  rewrite Ht in Ht'. apply app_inv_head in Ht'.
  exists source, encoded, data, idp, idd, before, l2, l3.
  split; [exact Hsrc | split; [exact Henc | split; [exact Hdata | exact Ht']]].
Qed.

Lemma run_stages_at_fixed_paths_witness :
  exists source encoded data idp idd before between after,
    files cluster (lit "proc.py") = Some source /\ encode source = Some encoded /\
    (exists text bytes,
        files cluster (lit "in.csv") = Some text /\ encode text = Some bytes /\
        data = Raw bytes) /\
    timeline (snd (go None three_commits)) = timeline started ++
      before ++
      [ Rpc (StartCommit (lit processors_name) (lit "master"));
        Rpc (PutFileBytes (lit processors_name ++ lit "/" ++ idp) (lit "/processor.py")
               (Raw encoded));
        Rpc (FinishCommit (lit processors_name ++ lit "/" ++ idp)) ] ++ between ++
      [ Rpc (StartCommit (lit data_name) (lit "master"));
        Rpc (PutFileBytes (lit data_name ++ lit "/" ++ idd) (lit "/data.csv") data);
        Rpc (FinishCommit (lit data_name ++ lit "/" ++ idd)) ] ++ after.
Proof.
  destruct (run_stages_at_fixed_paths cluster 0%nat (lit "in.csv") (lit "proc.py") None
              three_commits started) as (l & Ht & _ & Hstaged).
  destruct Hstaged
    as (source & encoded & data & idp & idd & before & between & after & Hs & He & Hd & Hl).
  { intros e H. vm_compute in H. discriminate H. }
  exists source, encoded, data, idp, idd, before, between, after.
  split; [exact Hs | split; [exact He | split; [exact Hd |]]].
  change (go None three_commits)
    with (run cluster 0%nat (lit "in.csv") (lit "proc.py") None three_commits started).
  rewrite Ht, Hl. reflexivity.
Defined.

(** C8, as amended. In a run that does not end in an exception (it has
    returned, or it is still suspended): with a bucket, the dataset is
    staged by a URL put at [/data.csv] whose URL is [s3://bucket/key],
    the key being the [filename] argument, and no bytes are put but the
    module's; without a bucket ([None], or the empty string), the
    dataset file is read as text (its bytes decoded in the encoding of
    the locale, its line ends translated), the text is encoded in
    UTF-8 and put as bytes at [/data.csv], and there is no URL put. *)
Theorem dataset_staging_follows_bucket (E : env) (self : nat) (filename workflow_module : str)
    (bucket : option str) (events : list event) (w : world) :
  let r := run E self filename workflow_module bucket events w in
  (forall e, fst r <> Raise e) ->
  let data_repo := (lit "doorstep-" ++ uuid4 E (drawn w)) ++ lit "-data" in
  exists l, timeline (snd r) = timeline w ++ l /\
    if truthy_opt bucket then
      (exists c, commit_of data_repo c /\
         In (Rpc (PutFileUrl c (lit "/data.csv")
                    (lit "s3://" ++ format_opt bucket ++ lit "/" ++ filename))) l) /\
      (forall c path data, In (Rpc (PutFileBytes c path data)) l -> path = lit "/processor.py")
    else
      (exists c raw decoded encoded, commit_of data_repo c /\
         disk E filename = Some raw /\ locale_decode E raw = Some decoded /\
         encode (universal_newlines decoded) = Some encoded /\
         In (Rpc (PutFileBytes c (lit "/data.csv") (Raw encoded))) l) /\
      (forall c path url, ~ In (Rpc (PutFileUrl c path url)) l).
Proof.
  intros r Hover data_repo.
  destruct (run_timeline E self filename workflow_module bucket events w) as (l & Ht & Hl).
  fold r in Ht.
  exists l. split; [exact Ht |].
  destruct r as [o w'] eqn:Hrun. cbn [fst snd] in *.
  apply run_over in Hrun; [| exact Hover]. cbv zeta in Hrun.
  destruct Hrun as (source & encoded & data & idp & idd & before & l2 & l3 & _ & _ & Hdata & Ht').
  rewrite Ht in Ht'. apply app_inv_head in Ht'.
  assert (Hput : In (Rpc (the_put data_repo idd (lit "/data.csv") data bucket)) l).
  { rewrite Ht'. apply in_or_app. right. apply in_or_app. right. apply in_middle.
    right. left. reflexivity. }
  rewrite List.Forall_forall in Hl.
  unfold the_put in Hput. destruct (truthy_opt bucket) eqn:Hb.
  - subst data. split.
    + exists (data_repo ++ lit "/" ++ idd). split; [exists idd; reflexivity | exact Hput].
    + intros c path content Hin. apply Hl in Hin. cbn in Hin.
      destruct Hin as [(_ & Hp & _) | (_ & _ & Hfalse & _)]; [exact Hp | congruence].
  - destruct Hdata as (text & bytes & Htext & Henc & ->). split.
    + apply files_Some in Htext as (raw & decoded & Hraw & Hdec & ->).
      exists (data_repo ++ lit "/" ++ idd), raw, decoded, bytes.
      split; [exists idd; reflexivity |].
      split; [exact Hraw | split; [exact Hdec | split; [exact Henc | exact Hput]]].
    + intros c path url Hin. apply Hl in Hin. cbn in Hin.
      destruct Hin as (_ & _ & Htrue & _). congruence.
Qed.

Lemma go_returns bucket :
  fst (go bucket three_commits) = Ret (List [Str (lit "a" ++ [10] ++ lit "b")]) ->
  run cluster 0%nat (lit "in.csv") (lit "proc.py") bucket three_commits started
  = (Ret (List [Str (lit "a" ++ [10] ++ lit "b")]), snd (go bucket three_commits)).
Proof.
  intros H. change (run cluster 0%nat (lit "in.csv") (lit "proc.py") bucket three_commits started)
    with (go bucket three_commits).
  rewrite (surjective_pairing (go bucket three_commits)) at 1. rewrite H. reflexivity.
Qed.

Lemma go_not_raised bucket :
  fst (go bucket three_commits) = Ret (List [Str (lit "a" ++ [10] ++ lit "b")]) ->
  forall e,
    fst (run cluster 0%nat (lit "in.csv") (lit "proc.py") bucket three_commits started)
    <> Raise e.
Proof. intros H e. rewrite (go_returns bucket H). discriminate. Qed.

Lemma dataset_staging_follows_bucket_witness :
  (exists l, timeline (snd (go (Some (lit "bk")) three_commits)) = timeline started ++ l /\
     (exists c, commit_of (lit data_name) c /\
        In (Rpc (PutFileUrl c (lit "/data.csv") (lit "s3://bk/in.csv"))) l) /\
     (forall c path data, In (Rpc (PutFileBytes c path data)) l -> path = lit "/processor.py"))
  /\
  (exists l, timeline (snd (go None three_commits)) = timeline started ++ l /\
     (exists c raw decoded encoded, commit_of (lit data_name) c /\
        disk cluster (lit "in.csv") = Some raw /\ locale_decode cluster raw = Some decoded /\
        encode (universal_newlines decoded) = Some encoded /\
        In (Rpc (PutFileBytes c (lit "/data.csv") (Raw encoded))) l) /\
     (forall c path url, ~ In (Rpc (PutFileUrl c path url)) l)).
Proof.
  split.
  - apply (dataset_staging_follows_bucket cluster 0%nat (lit "in.csv") (lit "proc.py")
             (Some (lit "bk")) three_commits started).
    apply go_not_raised. vm_compute. reflexivity.
  - apply (dataset_staging_follows_bucket cluster 0%nat (lit "in.csv") (lit "proc.py")
             None three_commits started).
    apply go_not_raised. vm_compute. reflexivity.
Defined.

Lemma calls_In c l : In (Rpc c) l -> In c (calls l).
Proof.
  unfold calls. induction l as [| e rest IH]; intros H; [destruct H |].
  destruct H as [-> | H]; [left; reflexivity |].
  cbn [omap list_omap]. destruct e; try (right; apply IH, H); apply IH, H.
Qed.

(** C8, counterexample. A dataset written with CR LF line ends is not
    staged byte for byte: the bytes put at [/data.csv] hold LF alone,
    and the bytes of the file are put nowhere. *)
Lemma dataset_bytes_are_not_the_file_bytes :
  let r := run crlf_cluster 0%nat (lit "in.csv") (lit "proc.py") None three_commits started in
  disk crlf_cluster (lit "in.csv") = Some [x61; x0d; x0a; x62] /\
  fst r = Ret (List [Str (lit "a" ++ [10] ++ lit "b")]) /\
  calls (timeline (snd r))
  = [ CreateRepo (lit "doorstep-u0-data");
      CreateRepo (lit "doorstep-u0-processors");
      CreatePipeline (lit "doorstep-u0") template_json
        (lit "doorstep-u0-data") (lit "doorstep-u0-processors");
      StartCommit (lit "doorstep-u0-processors") (lit "master");
      PutFileBytes (lit "doorstep-u0-processors/c1") (lit "/processor.py")
        (Raw [x70; x72; x69; x6e; x74; x28; x31; x29]);
      FinishCommit (lit "doorstep-u0-processors/c1");
      StartCommit (lit "doorstep-u0-data") (lit "master");
      PutFileBytes (lit "doorstep-u0-data/c2") (lit "/data.csv") (Raw [x61; x0a; x62]);
      FinishCommit (lit "doorstep-u0-data/c2");
      SubscribeCommit (lit "doorstep-u0");
      InspectJob (lit "doorstep-u0");
      InspectJob (lit "doorstep-u0");
      Unsubscribe (lit "doorstep-u0");
      GetFile (lit "doorstep-u0") (lit "/doorstep.out");
      DeletePipeline (lit "doorstep-u0");
      DeleteRepo (lit "doorstep-u0-processors");
      DeleteRepo (lit "doorstep-u0-data") ] /\
  (forall c path, ~ In (Rpc (PutFileBytes c path (Raw [x61; x0d; x0a; x62])))
                    (timeline (snd r))).
Proof.
  intros r.
  assert (Hcalls : calls (timeline (snd r))
    = [ CreateRepo (lit "doorstep-u0-data");
        CreateRepo (lit "doorstep-u0-processors");
        CreatePipeline (lit "doorstep-u0") template_json
          (lit "doorstep-u0-data") (lit "doorstep-u0-processors");
        StartCommit (lit "doorstep-u0-processors") (lit "master");
        PutFileBytes (lit "doorstep-u0-processors/c1") (lit "/processor.py")
          (Raw [x70; x72; x69; x6e; x74; x28; x31; x29]);
        FinishCommit (lit "doorstep-u0-processors/c1");
        StartCommit (lit "doorstep-u0-data") (lit "master");
        PutFileBytes (lit "doorstep-u0-data/c2") (lit "/data.csv") (Raw [x61; x0a; x62]);
        FinishCommit (lit "doorstep-u0-data/c2");
        SubscribeCommit (lit "doorstep-u0");
        InspectJob (lit "doorstep-u0");
        InspectJob (lit "doorstep-u0");
        Unsubscribe (lit "doorstep-u0");
        GetFile (lit "doorstep-u0") (lit "/doorstep.out");
        DeletePipeline (lit "doorstep-u0");
        DeleteRepo (lit "doorstep-u0-processors");
        DeleteRepo (lit "doorstep-u0-data") ]) by (vm_compute; reflexivity).
  split; [vm_compute; reflexivity | split; [vm_compute; reflexivity | split; [exact Hcalls |]]].
  intros c path H. apply calls_In in H. rewrite Hcalls in H. cbn [In] in H.
  repeat (destruct H as [H | H]; [discriminate H |]). exact H.
Qed.


(** ** The job-wait path *)

Lemma emit_nil w : emit [] w = w.
Proof. destruct w. unfold emit. cbn. now rewrite app_nil_r. Qed.

Lemma feed_Done {A} (a : A) answers w : feed (Done a) answers w = (Ret (Done a), w).
Proof. revert w. induction answers as [| s rest IH]; intros w; [reflexivity | apply IH]. Qed.

Lemma feed_Fail {A} e answers w : feed (@Fail A e) answers w = (Ret (Fail e), w).
Proof. revert w. induction answers as [| s rest IH]; intros w; [reflexivity | apply IH]. Qed.

Lemma feed_cons {A} (t : task A) s rest w :
  feed t (s :: rest) w = (let* t' := advance t s in feed t' rest) w.
Proof. reflexivity. Qed.

Lemma all_in_cons states s l :
  all_in states (s :: l) <-> in_states s states = true /\ all_in states l.
Proof. unfold all_in. cbn [forallb]. apply andb_true_iff. Qed.

Lemma attempts_S p n : attempts p (S n) = attempt p ++ attempts p n.
Proof. reflexivity. Qed.

Section WaitForRun.
Variable E : env.
Variable p : PachydermPipeline.
Variable states : list job_state.
Variable suffix : str.
Context {B : Type} (C : task job_state -> task B).
Hypothesis C_frame : frame C.

Let W (n : nat) : task job_state := wait_for_run E p n states tick suffix.

Lemma settle_polling n w : settle (C (W (S n))) w = (Ret (C (W (S n))), w).
Proof.
  unfold W. cbn [wait_for_run]. rewrite (proj2 C_frame). reflexivity.
Qed.

Lemma advance_waiting n s w :
  in_states s states = true ->
  advance (C (W (S n))) s w = settle (C (W n)) (emit (attempt p) w).
Proof.
  intros Hs. unfold W at 1. cbn [wait_for_run]. rewrite (proj2 C_frame).
  cbn [advance]. unfold bind. rewrite perform_emit. rewrite Hs.
  unfold tick. cbn [tbind]. rewrite !(proj1 C_frame). cbn [settle].
  unfold bind. rewrite !perform_emit, !emit_emit. reflexivity.
Qed.

Lemma advance_leaving n s w :
  in_states s states = false -> job_state_eqb s FAILED = false ->
  advance (C (W (S n))) s w = settle (C (Done s)) (emit (last_attempt p) w).
Proof.
  intros Hs Hf. unfold W. cbn [wait_for_run]. rewrite (proj2 C_frame).
  cbn [advance]. unfold bind. rewrite perform_emit, Hs, Hf. reflexivity.
Qed.

Lemma advance_failed n w :
  in_states FAILED states = false ->
  advance (C (W (S n))) FAILED w =
  settle (C (Fail (JobFailedException (job_logs E))))
    (emit (last_attempt p ++ [Rpc (GetLogs (p_name p))]) w).
Proof.
  intros Hs. unfold W. cbn [wait_for_run]. rewrite (proj2 C_frame).
  cbn [advance]. unfold bind. rewrite perform_emit, Hs. cbn [job_state_eqb].
  rewrite (proj1 C_frame). cbn [settle]. unfold bind. rewrite perform_emit, emit_emit.
  reflexivity.
Qed.

(** Fewer waiting answers than attempts left: the phase goes on. *)
Lemma feed_waiting : forall answers n rest w,
  all_in states answers -> (length answers < n)%nat ->
  feed (C (W n)) (answers ++ rest) w =
  feed (C (W (n - length answers))) rest (emit (attempts p (length answers)) w).
Proof.
  induction answers as [| s l IH]; intros n rest w Hall Hlen.
  - cbn [length app]. rewrite Nat.sub_0_r. unfold attempts. cbn [repeat concat].
    now rewrite emit_nil.
  - apply all_in_cons in Hall as [Hs Hl]. cbn [length] in *.
    destruct n as [| n]; [lia |].
    cbn [app]. rewrite feed_cons. unfold bind. rewrite advance_waiting by exact Hs.
    destruct n as [| n]; [lia |]. rewrite settle_polling.
    rewrite IH by (exact Hl || lia).
    rewrite attempts_S, emit_emit. reflexivity.
Qed.

(** As many waiting answers as attempts: the budget is spent. *)
Lemma feed_exhausted : forall answers rest w,
  all_in states answers -> (0 < length answers)%nat ->
  feed (C (W (length answers))) (answers ++ rest) w =
  (let* t := settle (C (Fail (RetryExhausted suffix))) in feed t rest)
    (emit (attempts p (length answers)) w).
Proof.
  induction answers as [| s l IH]; intros rest w Hall Hlen; [cbn in Hlen; lia |].
  apply all_in_cons in Hall as [Hs Hl]. cbn [length app].
  rewrite feed_cons. unfold bind at 1. rewrite advance_waiting by exact Hs.
  destruct l as [| s' l'].
  - cbn [length app]. unfold W. cbn [wait_for_run].
    unfold attempts. cbn [repeat concat]. rewrite app_nil_r. reflexivity.
  - cbn [length]. rewrite settle_polling.
    change (S (length l')) with (length (s' :: l')).
    rewrite IH by (exact Hl || (cbn; lia)).
    rewrite (attempts_S p (length (s' :: l'))), emit_emit. reflexivity.
Qed.

End WaitForRun.

Lemma frame_id {A} : frame (fun t : task A => t).
Proof. split; reflexivity. Qed.

Lemma frame_tbind {A B} (f : A -> task B) : frame (fun t => tbind t f).
Proof. split; reflexivity. Qed.

Lemma frame_tcatch {A} (h : exn -> option (task A)) : frame (fun t => tcatch t h).
Proof. split; reflexivity. Qed.

Lemma frame_compose {A B D} (C1 : task A -> task B) (C2 : task B -> task D) :
  frame C1 -> frame C2 -> frame (fun t => C2 (C1 t)).
Proof.
  intros [Hd1 Hi1] [Hd2 Hi2]. split.
  - intros eff k. now rewrite Hd1, Hd2.
  - intros q k. now rewrite Hi1, Hi2.
Qed.

Lemma in_states_two s a b :
  in_states s [a; b] = false -> in_states s [a] = false /\ job_state_eqb s b = false.
Proof.
  unfold in_states. cbn [existsb]. rewrite !orb_false_r.
  intros H. apply orb_false_iff in H. exact H.
Qed.

Lemma in_states_three s a b c :
  in_states s [a; b; c] = false -> in_states s [a; b] = false /\ job_state_eqb s c = false.
Proof.
  unfold in_states. cbn [existsb]. rewrite !orb_false_r.
  intros H. apply orb_false_iff in H as [Ha H]. apply orb_false_iff in H as [Hb Hc].
  split; [| exact Hc]. now rewrite Ha, Hb.
Qed.

Section TwoPhases.
Variable E : env.
Variable p : PachydermPipeline.

Let W1 (n : nat) := wait_for_run E p n default_wait_states tick (lit " to start").
Let W2 (n : nat) := wait_for_run E p n [STARTING; RUNNING] tick (lit " to finish").
Context {B : Type} (C : task job_state -> task B).
Hypothesis C_frame : frame C.
Let C1 (t : task job_state) : task B := C (tbind t (fun _ => W2 _retry_processing_count)).

Lemma C1_frame : frame C1.
Proof. apply (frame_compose (fun t => tbind t _) C); [apply frame_tbind | exact C_frame]. Qed.

Lemma job_wait_frames : C (job_wait E p) = C1 (W1 _retry_count).
Proof. reflexivity. Qed.

(** The start phase spends its budget. *)
Lemma start_exhausted pending rest w :
  all_in [PENDING] pending -> length pending = _retry_count ->
  feed (C (job_wait E p)) (pending ++ rest) w =
  (let* t := settle (C (Fail (RetryExhausted (lit " to start")))) in feed t rest)
    (emit (attempts p _retry_count) w).
Proof.
  intros Hall Hlen. rewrite job_wait_frames, <- Hlen. unfold W1.
  rewrite (feed_exhausted E p default_wait_states (lit " to start") C1 C1_frame)
    by (exact Hall || (rewrite Hlen; unfold _retry_count; lia)).
  reflexivity.
Qed.

(** The start phase ends on [s]; the finish phase starts with its whole
    budget. *)
Lemma start_done pending s rest w :
  all_in [PENDING] pending -> (length pending < _retry_count)%nat ->
  in_states s [PENDING; FAILED] = false ->
  feed (C (job_wait E p)) (pending ++ s :: rest) w =
  feed (C (W2 _retry_processing_count)) rest
    (emit (attempts p (length pending) ++ last_attempt p) w).
Proof.
  intros Hall Hlen Hs. apply in_states_two in Hs as [Hs Hf].
  rewrite job_wait_frames. unfold W1.
  rewrite (feed_waiting E p default_wait_states (lit " to start") C1 C1_frame)
    by (exact Hall || exact Hlen).
  destruct (_retry_count - length pending)%nat as [| n] eqn:Hn; [lia |].
  rewrite feed_cons. unfold bind.
  rewrite (advance_leaving E p default_wait_states (lit " to start") C1 C1_frame)
    by (exact Hs || exact Hf).
  unfold C1. cbn [tbind].
  pose proof (settle_polling E p [STARTING; RUNNING] (lit " to finish") C C_frame
                (Nat.pred _retry_processing_count)) as Hsettle.
  change (S (Nat.pred _retry_processing_count)) with _retry_processing_count in Hsettle.
  unfold W2. rewrite Hsettle, emit_emit. reflexivity.
Qed.

(** The start phase finds the job failed. *)
Lemma start_failed pending rest w :
  all_in [PENDING] pending -> (length pending < _retry_count)%nat ->
  feed (C (job_wait E p)) (pending ++ FAILED :: rest) w =
  (let* t := settle (C (Fail (JobFailedException (job_logs E)))) in feed t rest)
    (emit (attempts p (length pending) ++ last_attempt p ++ [Rpc (GetLogs (p_name p))]) w).
Proof.
  intros Hall Hlen. rewrite job_wait_frames. unfold W1.
  rewrite (feed_waiting E p default_wait_states (lit " to start") C1 C1_frame)
    by (exact Hall || exact Hlen).
  destruct (_retry_count - length pending)%nat as [| n] eqn:Hn; [lia |].
  rewrite feed_cons. unfold bind at 1.
  rewrite (advance_failed E p default_wait_states (lit " to start") C1 C1_frame)
    by reflexivity.
  unfold C1. cbn [tbind]. rewrite emit_emit. reflexivity.
Qed.

(** The finish phase spends its budget. *)
Lemma finish_exhausted busy rest w :
  all_in [STARTING; RUNNING] busy -> length busy = _retry_processing_count ->
  feed (C (W2 _retry_processing_count)) (busy ++ rest) w =
  (let* t := settle (C (Fail (RetryExhausted (lit " to finish")))) in feed t rest)
    (emit (attempts p _retry_processing_count) w).
Proof.
  intros Hall Hlen. rewrite <- Hlen. unfold W2.
  rewrite (feed_exhausted E p [STARTING; RUNNING] (lit " to finish") C C_frame)
    by (exact Hall || (rewrite Hlen; unfold _retry_processing_count; lia)).
  reflexivity.
Qed.

(** The finish phase ends on [final]. *)
Lemma finish_done busy final rest w :
  all_in [STARTING; RUNNING] busy -> (length busy < _retry_processing_count)%nat ->
  in_states final [STARTING; RUNNING; FAILED] = false ->
  feed (C (W2 _retry_processing_count)) (busy ++ final :: rest) w =
  (let* t := settle (C (Done final)) in feed t rest)
    (emit (attempts p (length busy) ++ last_attempt p) w).
Proof.
  intros Hall Hlen Hs. apply in_states_three in Hs as [Hs Hf]. unfold W2.
  rewrite (feed_waiting E p [STARTING; RUNNING] (lit " to finish") C C_frame)
    by (exact Hall || exact Hlen).
  destruct (_retry_processing_count - length busy)%nat as [| n] eqn:Hn; [lia |].
  rewrite feed_cons. unfold bind at 1.
  rewrite (advance_leaving E p [STARTING; RUNNING] (lit " to finish") C C_frame)
    by (exact Hs || exact Hf).
  rewrite emit_emit. reflexivity.
Qed.

(** The finish phase finds the job failed. *)
Lemma finish_failed busy rest w :
  all_in [STARTING; RUNNING] busy -> (length busy < _retry_processing_count)%nat ->
  feed (C (W2 _retry_processing_count)) (busy ++ FAILED :: rest) w =
  (let* t := settle (C (Fail (JobFailedException (job_logs E)))) in feed t rest)
    (emit (attempts p (length busy) ++ last_attempt p ++ [Rpc (GetLogs (p_name p))]) w).
Proof.
  intros Hall Hlen. unfold W2.
  rewrite (feed_waiting E p [STARTING; RUNNING] (lit " to finish") C C_frame)
    by (exact Hall || exact Hlen).
  destruct (_retry_processing_count - length busy)%nat as [| n] eqn:Hn; [lia |].
  rewrite feed_cons. unfold bind at 1.
  rewrite (advance_failed E p [STARTING; RUNNING] (lit " to finish") C C_frame)
    by reflexivity.
  rewrite emit_emit. reflexivity.
Qed.

End TwoPhases.


(** C5. The job wait has two phases with budgets of 120 and 50 attempts
    and the same delay after each attempt that finds the job still
    waiting. If the job is [PENDING] at 120 attempts, the wait fails
    with the retry error of the start phase and asks nothing more. If it
    leaves [PENDING] in time, the finish phase starts with its whole
    budget of 50, whatever the start phase used: 50 attempts in
    [STARTING] or [RUNNING] fail with the retry error of the finish
    phase; fewer, followed by a final state, return that state. *)
Theorem job_wait_two_phases (E : env) (p : PachydermPipeline) (w : world) :
  _retry_count = 120%nat /\ _retry_processing_count = 50%nat /\
  (forall pending rest,
      all_in [PENDING] pending -> length pending = _retry_count ->
      feed (job_wait E p) (pending ++ rest) w
      = (Ret (Fail (RetryExhausted (lit " to start"))),
         emit (attempts p _retry_count) w)) /\
  (forall pending s busy rest,
      all_in [PENDING] pending -> (length pending < _retry_count)%nat ->
      in_states s [PENDING; FAILED] = false ->
      all_in [STARTING; RUNNING] busy -> length busy = _retry_processing_count ->
      feed (job_wait E p) (pending ++ s :: busy ++ rest) w
      = (Ret (Fail (RetryExhausted (lit " to finish"))),
         emit (attempts p (length pending) ++ last_attempt p ++
               attempts p _retry_processing_count) w)) /\
  (forall pending s busy final rest,
      all_in [PENDING] pending -> (length pending < _retry_count)%nat ->
      in_states s [PENDING; FAILED] = false ->
      all_in [STARTING; RUNNING] busy -> (length busy < _retry_processing_count)%nat ->
      in_states final [STARTING; RUNNING; FAILED] = false ->
      feed (job_wait E p) (pending ++ s :: busy ++ final :: rest) w
      = (Ret (Done final),
         emit (attempts p (length pending) ++ last_attempt p ++
               attempts p (length busy) ++ last_attempt p) w)).
Proof.
  split; [reflexivity | split; [reflexivity | split; [| split]]].
  - intros pending rest Hall Hlen.
    pose proof (start_exhausted E p (fun t => t) frame_id pending rest w Hall Hlen) as H.
    cbv beta in H. rewrite H. unfold bind. cbn [settle]. unfold ret.
    apply feed_Fail.
  - intros pending s busy rest Hall Hlen Hs Hbusy Hblen.
    pose proof (start_done E p (fun t => t) frame_id pending s (busy ++ rest) w Hall Hlen Hs) as H.
    cbv beta in H. rewrite H.
    pose proof (finish_exhausted E p (fun t => t) frame_id busy rest
                  (emit (attempts p (length pending) ++ last_attempt p) w) Hbusy Hblen) as H2.
    cbv beta in H2. rewrite H2. unfold bind. cbn [settle]. unfold ret.
    rewrite feed_Fail, emit_emit, <- !(@List.app_assoc effect). reflexivity.
  - intros pending s busy final rest Hall Hlen Hs Hbusy Hblen Hfinal.
    pose proof (start_done E p (fun t => t) frame_id pending s (busy ++ final :: rest) w
                  Hall Hlen Hs) as H.
    cbv beta in H. rewrite H.
    pose proof (finish_done E p (fun t => t) frame_id busy final rest
                  (emit (attempts p (length pending) ++ last_attempt p) w)
                  Hbusy Hblen Hfinal) as H2.
    cbv beta in H2. rewrite H2. unfold bind. cbn [settle]. unfold ret.
    rewrite feed_Done, emit_emit, <- !(@List.app_assoc effect). reflexivity.
Qed.

Lemma job_wait_two_phases_witness :
  feed (job_wait cluster the_pipeline) ([PENDING; PENDING] ++ RUNNING :: [RUNNING] ++ SUCCEEDED :: [])
    world0
  = (Ret (Done SUCCEEDED),
     emit (attempts the_pipeline 2 ++ last_attempt the_pipeline ++
           attempts the_pipeline 1 ++ last_attempt the_pipeline) world0).
Proof.
  apply (proj2 (proj2 (proj2 (proj2 (job_wait_two_phases cluster the_pipeline world0))))
           [PENDING; PENDING] RUNNING [RUNNING] SUCCEEDED []);
    first [reflexivity | unfold _retry_count, _retry_processing_count; cbn [length]; lia].
Defined.

(** ** Failure of the job *)

Lemma reraise_frame E : frame (reraise E).
Proof.
  apply (frame_compose (fun t => tbind t _) (fun t => tcatch t _));
    [apply frame_tbind | apply frame_tcatch].
Qed.

Lemma wait_for_pipeline_reraise E p : wait_for_pipeline E p = reraise E (job_wait E p).
Proof. reflexivity. Qed.

Lemma settle_reraise_failed E logs w :
  settle (reraise E (Fail (JobFailedException logs))) w
  = (Ret (Fail (JobFailedException logs)), emit (display logs) w).
Proof.
  unfold reraise. cbn [tbind tcatch]. destruct logs as [| first rest].
  - cbn [tbind settle display]. now rewrite emit_nil.
  - unfold tprint. cbn [tbind settle display]. unfold bind.
    rewrite !perform_emit, emit_emit. reflexivity.
Qed.

(** Inside its task, [wait_for_pipeline] ends a failed job wait with the
    exception of the job, after the display of its log. *)
Lemma wait_for_pipeline_fails_with_logs (E : env) (p : PachydermPipeline) (w : world) :
  (forall pending s busy rest,
      all_in [PENDING] pending -> (length pending < _retry_count)%nat ->
      in_states s [PENDING; FAILED] = false ->
      all_in [STARTING; RUNNING] busy -> (length busy < _retry_processing_count)%nat ->
      feed (wait_for_pipeline E p) (pending ++ s :: busy ++ FAILED :: rest) w
      = (Ret (Fail (JobFailedException (job_logs E))),
         emit (attempts p (length pending) ++ last_attempt p ++
               attempts p (length busy) ++ last_attempt p ++
               [Rpc (GetLogs (p_name p))] ++ display (job_logs E)) w)) /\
  (forall pending rest,
      all_in [PENDING] pending -> (length pending < _retry_count)%nat ->
      feed (wait_for_pipeline E p) (pending ++ FAILED :: rest) w
      = (Ret (Fail (JobFailedException (job_logs E))),
         emit (attempts p (length pending) ++ last_attempt p ++
               [Rpc (GetLogs (p_name p))] ++ display (job_logs E)) w)).
Proof.
  split.
  - intros pending s busy rest Hall Hlen Hs Hbusy Hblen.
    rewrite wait_for_pipeline_reraise.
    rewrite (start_done E p (reraise E) (reraise_frame E)) by assumption.
    rewrite (finish_failed E p (reraise E) (reraise_frame E)) by assumption.
    unfold bind. rewrite settle_reraise_failed, feed_Fail, !emit_emit.
    rewrite <- !(@List.app_assoc effect). reflexivity.
  - intros pending rest Hall Hlen.
    rewrite wait_for_pipeline_reraise.
    rewrite (start_failed E p (reraise E) (reraise_frame E)) by assumption.
    unfold bind. rewrite settle_reraise_failed, feed_Fail, !emit_emit.
    rewrite <- !(@List.app_assoc effect). reflexivity.
Qed.


(** ** The subscription path *)

Lemma from_raw_no_provenance raw :
  raw_provenance_list raw = [] -> get_provenance (from_raw raw) = None.
Proof. intros H. unfold from_raw, get_provenance. cbn. now rewrite H. Qed.

Lemma from_raw_provenance raw :
  raw_provenance_list raw <> [] ->
  get_provenance (from_raw raw)
  = Some (map (fun prov => {| id := prov_id prov; repo_name := prov_repo_name prov |})
            (raw_provenance_list raw)).
Proof.
  intros H. unfold from_raw, get_provenance. cbn.
  destruct (raw_provenance_list raw); [contradiction | reflexivity].
Qed.

Lemma watch_step_accepts target commit entries :
  get_provenance commit = Some entries ->
  list_to_set (map repo_name entries) = target ->
  watch_step target commit = Delivered commit.
Proof.
  intros Hp Hset. unfold watch_step, provenance_names. rewrite Hp.
  destruct (decide (target = list_to_set (map repo_name entries))); congruence.
Qed.

Lemma watch_step_discards target commit entries :
  get_provenance commit = Some entries ->
  list_to_set (map repo_name entries) <> target ->
  watch_step target commit = Watching.
Proof.
  intros Hp Hset. unfold watch_step, provenance_names. rewrite Hp.
  destruct (decide (target = list_to_set (map repo_name entries))); congruence.
Qed.

Lemma watch_step_dies target commit :
  get_provenance commit = None -> watch_step target commit = Died TypeError.
Proof. intros Hp. unfold watch_step, provenance_names. now rewrite Hp. Qed.

(** The order in which the provenance is listed does not matter. *)
Lemma provenance_names_permutation commit commit' entries entries' :
  get_provenance commit = Some entries ->
  get_provenance commit' = Some entries' ->
  entries ≡ₚ entries' ->
  provenance_names commit = provenance_names commit'.
Proof.
  intros H H' Hperm. unfold provenance_names. rewrite H, H'. f_equal.
  apply set_eq. intros x. rewrite !elem_of_list_to_set.
  now rewrite Hperm.
Qed.

Lemma watch_loop_first_match target before commit after :
  Forall (discarded target) before -> matching target commit ->
  watch_loop target (before ++ commit :: after) = Delivered commit.
Proof.
  intros Hbefore (entries & Hp & Hset).
  induction Hbefore as [| c l (entries' & Hp' & Hne) _ IH]; cbn [app watch_loop].
  - now rewrite (watch_step_accepts _ _ _ Hp Hset).
  - now rewrite (watch_step_discards _ _ _ Hp' Hne).
Qed.

Lemma watch_loop_waits target stream :
  Forall (discarded target) stream -> watch_loop target stream = Watching.
Proof.
  intros H. induction H as [| c l (entries & Hp & Hne) _ IH]; cbn [watch_loop]; [reflexivity |].
  now rewrite (watch_step_discards _ _ _ Hp Hne).
Qed.

Lemma names_differ : lit data_name <> lit processors_name.
Proof. vm_compute. discriminate. Qed.

Lemma output_matches : matching (input_repos the_session) (from_raw output).
Proof.
  eexists. split; [reflexivity |].
  pose proof names_differ.
  unfold input_repos, the_session, get_repo_name. cbn [map repo_name s_data s_processors r_name list_to_set].
  set (d := lit data_name) in *. set (q := lit processors_name) in *.
  change (prov_repo_name {| prov_id := lit "i"; prov_repo_name := lit processors_name |}) with q.
  change (prov_repo_name {| prov_id := lit "i"; prov_repo_name := lit data_name |}) with d.
  clearbody d q. set_solver.
Qed.

Lemma only_data_discarded : discarded (input_repos the_session) (from_raw only_data).
Proof.
  eexists. split; [reflexivity |].
  pose proof names_differ.
  unfold input_repos, the_session, get_repo_name. cbn [map repo_name s_data s_processors r_name list_to_set].
  set (d := lit data_name) in *. set (q := lit processors_name) in *.
  change (prov_repo_name {| prov_id := lit "i"; prov_repo_name := lit data_name |}) with d.
  clearbody d q. intros Heq.
  assert (Hq : q ∈ ({[d; q]} : gset str)) by set_solver.
  rewrite <- Heq in Hq. set_solver.
Qed.

Lemma only_processors_discarded :
  discarded (input_repos the_session) (from_raw only_processors).
Proof.
  eexists. split; [reflexivity |].
  pose proof names_differ.
  unfold input_repos, the_session, get_repo_name. cbn [map repo_name s_data s_processors r_name list_to_set].
  set (d := lit data_name) in *. set (q := lit processors_name) in *.
  change (prov_repo_name {| prov_id := lit "i"; prov_repo_name := lit processors_name |}) with q.
  clearbody d q. intros Heq.
  assert (Hd : d ∈ ({[d; q]} : gset str)) by set_solver.
  rewrite <- Heq in Hd. set_solver.
Qed.

Lemma three_commits_third_accepted :
  watch_loop (input_repos the_session) (map from_raw [only_data; only_processors; output])
  = Delivered (from_raw output).
Proof.
  apply (watch_loop_first_match _ [from_raw only_data; from_raw only_processors]).
  - repeat constructor; [apply only_data_discarded | apply only_processors_discarded].
  - apply output_matches.
Qed.

(** C3, at the failing input. A commit built from raw metadata without
    provenance has [None] as provenance, and the turn of the loop that
    gets it raises [TypeError] where the claim has it discarded; the
    subscription path is dead, and a run stays suspended although the
    output commit follows. *)
Theorem commit_without_provenance_kills_subscription :
  (forall target raw,
      raw_provenance_list raw = [] -> watch_step target (from_raw raw) = Died TypeError) /\
  watch_step (input_repos the_session) (from_raw no_provenance) = Died TypeError /\
  fst (go None [CommitArrived no_provenance; CommitArrived output]) = Blocked.
Proof.
  split; [| split].
  - intros target raw H. apply watch_step_dies, from_raw_no_provenance, H.
  - reflexivity.
  - vm_compute. reflexivity.
Qed.

(** C2, at the failing input. The output commit is the first commit of
    the sequence whose provenance is the target set, and it is not
    accepted: the commit without provenance before it has ended the
    loop with [TypeError]. *)
Theorem first_match_lost_after_commit_without_provenance :
  matching (input_repos the_session) (from_raw output) /\
  ~ matching (input_repos the_session) (from_raw no_provenance) /\
  watch_loop (input_repos the_session) (map from_raw [no_provenance; output])
  = Died TypeError /\
  watch_loop (input_repos the_session) (map from_raw [no_provenance; output])
  <> Delivered (from_raw output).
Proof.
  split; [| split; [| split]].
  - apply output_matches.
  - intros (entries & H & _). discriminate H.
  - reflexivity.
  - discriminate.
Qed.


(** ** The race *)

Lemma settle_returns {A} (t : task A) : forall w, exists t' w', settle t w = (Ret t', w').
Proof.
  induction t as [a | e | eff k IH | q k IH]; intros w; cbn [settle];
    try (eexists _, _; reflexivity).
  unfold bind. rewrite perform_emit. apply IH.
Qed.

Lemma advance_returns {A} (t : task A) s w : exists t' w', advance t s w = (Ret t', w').
Proof.
  destruct t as [a | e | eff k | q k]; cbn [advance]; try (eexists _, _; reflexivity).
  unfold bind. rewrite perform_emit. apply settle_returns.
Qed.

(** Without a commit the awaiting [run] is never resumed, whatever
    becomes of the job-wait task. *)
Lemma await_without_commit E s events : forall sub job_wait w,
  Forall job_event events ->
  fst (event_loop E s events sub job_wait w) = Blocked.
Proof.
  induction events as [| ev rest IH]; intros sub job_wait w Hev; [reflexivity |].
  inversion Hev as [| ? ? Hjob Hrest]; subst.
  destruct ev as [raw | state]; [destruct Hjob |].
  cbn [event_loop]. unfold bind.
  destruct (advance_returns job_wait state w) as (t' & w' & ->).
  apply IH, Hrest.
Qed.

(** A cancelled task asks the cluster nothing more. *)
Lemma cancel_stops {A} (t : task A) w :
  exists t', cancel t w = (Ret t', emit [CancelTask] w) /\
             forall s w', advance t' s w' = (Ret t', w').
Proof.
  unfold cancel, bind. rewrite perform_emit. unfold ret.
  destruct t; eexists; (split; [reflexivity | reflexivity]).
Qed.

Lemma swallow_returns (m : M unit) w :
  unblocked m -> exists w', swallow m w = (Ret tt, w').
Proof.
  intros Hm. unfold swallow. destruct (m w) as [[[] | e |] w1] eqn:Hmw.
  - eexists; reflexivity.
  - eexists; reflexivity.
  - exfalso. eapply Hm, Hmw.
Qed.

Lemma stop_watching_returns E s w :
  exists w', swallow (let* p := session_pipeline s in stop_watching_commits E p) w = (Ret tt, w').
Proof.
  apply swallow_returns. apply unblocked_bind.
  - unfold session_pipeline. destruct (s_pipeline s); [apply unblocked_ret | apply unblocked_raise].
  - intros p. apply unblocked_call.
Qed.

Lemma await_dead_subscription E s events : forall e job_wait w,
  fst (event_loop E s events (Died e) job_wait w) = Blocked.
Proof.
  induction events as [| ev rest IH]; intros e job_wait w; [reflexivity |].
  destruct ev as [raw | state]; cbn [event_loop].
  - apply IH.
  - unfold bind. destruct (advance_returns job_wait state w) as (t' & w' & ->). apply IH.
Qed.

(** What [run] gets from its await is decided by the loop of
    [watch_for_output] on the commits among the events: the commit it
    delivers if it delivers one, and nothing otherwise. *)
Lemma await_follows_subscription E s events : forall job_wait w,
  match watch_loop (input_repos s) (commits_of events) with
  | Delivered commit =>
      exists job_wait' w',
        event_loop E s events Watching job_wait w = (Ret (commit, job_wait'), w')
  | _ => fst (event_loop E s events Watching job_wait w) = Blocked
  end.
Proof.
  induction events as [| ev rest IH]; intros job_wait w; [reflexivity |].
  destruct ev as [raw | state].
  - change (commits_of (CommitArrived raw :: rest)) with (from_raw raw :: commits_of rest).
    cbn [watch_loop event_loop watch_for_output].
    destruct (watch_step (input_repos s) (from_raw raw)) as [| commit | e].
    + apply IH.
    + unfold bind at 1. unfold bind at 1.
      destruct (stop_watching_returns E s w) as [w' ->]. eexists _, _. reflexivity.
    + apply await_dead_subscription.
  - change (commits_of (JobObserved state :: rest)) with (commits_of rest).
    cbn [event_loop].
    unfold bind. destruct (advance_returns job_wait state w) as (t' & w' & ->).
    apply IH.
Qed.

(** ** What [run] can raise *)

Section Raises.
Context {X : exn -> Prop}.

Lemma raises_ret {A} (a : A) : raises X (ret a).
Proof. intros w e w' H. discriminate H. Qed.

Lemma raises_blocked {A} : raises X (@blocked A).
Proof. intros w e w' H. discriminate H. Qed.

Lemma raises_raise {A} e : X e -> raises X (@raise A e).
Proof. intros He w e' w' [= <- _]. exact He. Qed.

Lemma raises_perform eff : raises X (perform eff).
Proof. intros w e w' H. discriminate H. Qed.

Lemma raises_bind {A B} (m : M A) (k : A -> M B) :
  raises X m -> (forall a, raises X (k a)) -> raises X (bind m k).
Proof.
  intros Hm Hk w e w'. unfold bind.
  destruct (m w) as [[a | e0 |] w1] eqn:Hmw.
  - apply Hk.
  - intros [= <- _]. eapply Hm, Hmw.
  - discriminate.
Qed.

Lemma raises_swallow (m : M unit) : raises X (swallow m).
Proof.
  intros w e w'. unfold swallow. destruct (m w) as [[[] | e0 |] w1]; discriminate.
Qed.

Lemma raises_with {R A} (enter : M R) leave (body : R -> M A) :
  raises X enter -> (forall r, raises X (leave r)) -> (forall r, raises X (body r)) ->
  raises X (with_ enter leave body).
Proof.
  intros He Hl Hb w e w'. unfold with_.
  destruct (enter w) as [[r | e0 |] w1] eqn:Hew.
  - destruct (body r w1) as [[a | e1 |] w2] eqn:Hbw.
    + destruct (leave r w2) as [[[] | e2 |] w3] eqn:Hlw; try discriminate.
      intros [= <- _]. eapply Hl, Hlw.
    + destruct (leave r w2) as [[[] | e2 |] w3] eqn:Hlw; try discriminate.
      * intros [= <- _]. eapply Hb, Hbw.
      * intros [= <- _]. eapply Hl, Hlw.
    + discriminate.
  - intros [= <- _]. eapply He, Hew.
  - discriminate.
Qed.

Lemma raises_call E c : X (RpcError c) -> raises X (call E c).
Proof.
  intros Hc. unfold call. apply raises_bind; [apply raises_perform | intros _].
  destruct (rpc_fails E c); [apply raises_raise; exact Hc | apply raises_ret].
Qed.

Lemma raises_returning {A} (m : M A) :
  (forall w, exists a w', m w = (Ret a, w')) -> raises X m.
Proof. intros Hm w e w' H. destruct (Hm w) as (a & w1 & Hr). congruence. Qed.

Lemma raises_settle {A} (t : task A) : raises X (settle t).
Proof. apply raises_returning, settle_returns. Qed.

Lemma raises_advance {A} (t : task A) s : raises X (advance t s).
Proof. apply raises_returning. intros w. apply advance_returns. Qed.

Lemma raises_watch_for_output E s sub raw : raises X (watch_for_output E s sub raw).
Proof.
  unfold watch_for_output. destruct sub; try apply raises_ret.
  destruct (watch_step (input_repos s) (from_raw raw)); try apply raises_ret.
  apply raises_bind; [apply raises_swallow | intros _; apply raises_ret].
Qed.

Lemma raises_event_loop E s events : forall sub job_wait,
  raises X (event_loop E s events sub job_wait).
Proof.
  induction events as [| ev rest IH]; intros sub job_wait; cbn [event_loop].
  - apply raises_blocked.
  - destruct ev as [raw | state].
    + apply raises_bind; [apply raises_watch_for_output |].
      intros sub'. destruct sub'; first [apply IH | apply raises_ret].
    + apply raises_bind; [apply raises_advance | intros t'; apply IH].
Qed.

Lemma raises_start_watch E s : raises X (start_watch E s).
Proof.
  intros w e w'. unfold start_watch.
  destruct ((let* p := session_pipeline s in watch_commits E p) w) as [[[] | e0 |] w1];
    discriminate.
Qed.

Lemma raises_monitor_output E s events job_wait :
  raises X (monitor_output E s events job_wait).
Proof.
  unfold monitor_output.
  apply raises_bind; [apply raises_start_watch | intros sub].
  apply raises_bind; [apply raises_settle | intros jw]. apply raises_event_loop.
Qed.

Hypothesis X_other : forall e, job_wait_error e = false -> X e.

Lemma raises_getattr self name : raises X (getattr self name).
Proof.
  intros w e w'. unfold getattr.
  repeat match goal with |- context [match ?x with _ => _ end] => destruct x end;
    intros [= <- _] || discriminate; apply X_other; reflexivity.
Qed.

Lemma raises_setattr self name v : raises X (setattr self name v).
Proof.
  intros w e w'. unfold setattr. destruct (heap w !! self);
    intros [= <- _] || discriminate; apply X_other; reflexivity.
Qed.

Lemma raises_open_read E path : raises X (open_read E path).
Proof.
  rewrite open_read_files. apply raises_bind; [apply raises_perform | intros _].
  destruct (files E path);
    [apply raises_ret | apply raises_raise, X_other; destruct (disk E path); reflexivity].
Qed.

Lemma raises_encode_utf8 s : raises X (encode_utf8 s).
Proof.
  unfold encode_utf8.
  destruct (encode s); [apply raises_ret | apply raises_raise, X_other; reflexivity].
Qed.

Lemma raises_decode_lines output : raises X (decode_lines output).
Proof.
  induction output as [| line rest IH]; cbn [decode_lines]; [apply raises_ret |].
  apply raises_bind.
  - unfold decode_utf8.
    destruct (decode line); [apply raises_ret | apply raises_raise, X_other; reflexivity].
  - intros text. apply raises_bind; [exact IH | intros more; apply raises_ret].
Qed.

Lemma raises_session_pipeline s : raises X (session_pipeline s).
Proof.
  unfold session_pipeline.
  destruct (s_pipeline s); [apply raises_ret | apply raises_raise, X_other; reflexivity].
Qed.

Lemma raises_session_repo s category : raises X (session_repo s category).
Proof.
  unfold session_repo.
  repeat match goal with
         | |- context [decide ?p] => destruct (decide p)
         | |- context [match s_pipeline s with _ => _ end] => destruct (s_pipeline s)
         end;
    first [apply raises_ret | apply raises_raise, X_other; reflexivity].
Qed.

Lemma raises_get_definition E self : raises X (get_definition E self).
Proof.
  unfold get_definition.
  apply raises_bind; [apply raises_getattr | intros current].
  apply raises_bind; [| intros _; apply raises_getattr].
  destruct (negb (truthy current)); [| apply raises_ret].
  apply raises_bind; [apply raises_getattr | intros path].
  apply raises_bind.
  { unfold as_str. destruct path;
      first [apply raises_ret | apply raises_raise, X_other; reflexivity]. }
  intros path'. apply raises_bind; [apply raises_open_read | intros text].
  apply raises_bind; [| intros loaded; apply raises_setattr].
  unfold json_load.
  destruct (parse_json E text); [apply raises_ret | apply raises_raise, X_other; reflexivity].
Qed.

Lemma raises_add_file E category filename data s bucket :
  raises X (_add_file E category filename data s bucket).
Proof.
  unfold _add_file. apply raises_bind; [apply raises_session_repo | intros repo].
  apply raises_with.
  - unfold make_commit_enter.
    apply raises_bind; [apply raises_call, X_other; reflexivity | intros _].
    apply raises_bind; [| intros id; apply raises_ret].
    intros w e w' H. discriminate H.
  - intros c. unfold make_commit_leave. apply raises_call, X_other. reflexivity.
  - intros c. destruct (truthy_opt bucket); [unfold put_file_url | unfold put_file_bytes];
      apply raises_call, X_other; reflexivity.
Qed.

Lemma raises_get_output E s : raises X (get_output E s).
Proof.
  unfold get_output. apply raises_bind; [apply raises_session_pipeline | intros p].
  apply raises_bind.
  { unfold pull_output. apply raises_bind; [apply raises_call, X_other; reflexivity | intros _].
    destruct (artifact E _); [apply raises_ret | apply raises_raise, X_other; reflexivity]. }
  intros output. apply raises_bind; [apply raises_decode_lines | intros lines; apply raises_ret].
Qed.

Lemma raises_make_session E self {A} (body : session -> M A) :
  (forall s, raises X (body s)) -> raises X (make_session E self body).
Proof.
  intros Hb. unfold make_session.
  apply raises_bind; [intros w e w' H; discriminate H | intros random].
  apply raises_bind; [apply raises_get_definition | intros definition].
  apply raises_with.
  { unfold make_repo_enter.
    apply raises_bind; [apply raises_call, X_other; reflexivity | intros _; apply raises_ret]. }
  { intros r. apply raises_swallow. }
  intros data_repo. apply raises_with.
  { unfold make_repo_enter.
    apply raises_bind; [apply raises_call, X_other; reflexivity | intros _; apply raises_ret]. }
  { intros r. apply raises_swallow. }
  intros processors_repo. apply raises_with.
  { unfold make_pipeline_enter.
    apply raises_bind; [apply raises_call, X_other; reflexivity | intros _; apply raises_ret]. }
  { intros r. apply raises_swallow. }
  intros pipeline. apply Hb.
Qed.

Lemma raises_run E self filename workflow_module bucket events :
  raises X (run E self filename workflow_module bucket events).
Proof.
  unfold run. apply raises_make_session. intros s.
  apply raises_bind; [apply raises_open_read | intros source].
  apply raises_bind; [apply raises_encode_utf8 | intros encoded].
  apply raises_bind; [apply raises_add_file | intros _].
  apply raises_bind.
  { destruct (truthy_opt bucket); [apply raises_ret |].
    apply raises_bind; [apply raises_open_read | intros text].
    apply raises_bind; [apply raises_encode_utf8 | intros enc; apply raises_ret]. }
  intros data. apply raises_bind; [apply raises_add_file | intros _].
  apply raises_bind; [apply raises_ret | intros job_wait].
  apply raises_bind; [apply raises_monitor_output | intros [commit job_wait']].
  apply raises_bind.
  { unfold cancel. apply raises_bind; [apply raises_perform | intros _; apply raises_ret]. }
  intros _. apply raises_bind; [apply raises_get_output | intros results; apply raises_ret].
Qed.

End Raises.

(** No run ends with an exception of the job-wait path. *)
Lemma run_never_raises_job_wait_error E self filename workflow_module bucket events w e w' :
  run E self filename workflow_module bucket events w = (Raise e, w') ->
  job_wait_error e = false.
Proof.
  apply (raises_run (X := fun e => job_wait_error e = false)). intros e0 H. exact H.
Qed.

(** C1, at the failing input. No run ever raises an exception of the
    job-wait path, and without a commit on the queue the awaiting [run]
    is never resumed, whatever the job-wait task does. When the job
    fails, [wait_for_pipeline] raises the job-failed exception inside
    its task; [run] does not raise it: it stays suspended, the
    subscription is not closed and the session is not torn down. *)
Theorem job_failure_leaves_run_suspended :
  (forall E self filename workflow_module bucket events w e w',
      run E self filename workflow_module bucket events w = (Raise e, w') ->
      job_wait_error e = false) /\
  (forall E s events sub job_wait w,
      Forall job_event events ->
      fst (event_loop E s events sub job_wait w) = Blocked) /\
  fst (feed (wait_for_pipeline cluster the_pipeline) [RUNNING; FAILED] world0)
  = Ret (Fail (JobFailedException [boom; line2])) /\
  fst (go None job_fails) = Blocked /\
  calls (timeline (snd (go None job_fails)))
  = setup_calls ++
    [ SubscribeCommit (lit "doorstep-u0");
      InspectJob (lit "doorstep-u0");
      InspectJob (lit "doorstep-u0");
      GetLogs (lit "doorstep-u0") ].
Proof.
  split; [| split; [| split; [| split]]].
  - intros E self filename workflow_module bucket events w e w'.
    apply run_never_raises_job_wait_error.
  - intros. now apply await_without_commit.
  - vm_compute. reflexivity.
  - vm_compute. reflexivity.
  - vm_compute. reflexivity.
Qed.

Lemma commit_first_cancels_job_wait :
  fst (go None three_commits) = Ret (List [Str (lit "a" ++ [10] ++ lit "b")]) /\
  calls (timeline (snd (go None three_commits)))
  = setup_calls ++
    [ SubscribeCommit (lit "doorstep-u0");
      InspectJob (lit "doorstep-u0");
      InspectJob (lit "doorstep-u0");
      Unsubscribe (lit "doorstep-u0");
      GetFile (lit "doorstep-u0") (lit "/doorstep.out");
      DeletePipeline (lit "doorstep-u0");
      DeleteRepo (lit processors_name);
      DeleteRepo (lit data_name) ] /\
  In CancelTask (timeline (snd (go None three_commits))).
Proof.
  split; [| split]; vm_compute; [reflexivity | reflexivity |].
  repeat (first [left; reflexivity | right]).
Qed.

(** C6, at the failing input. Inside its task, [wait_for_pipeline] ends
    a failed job wait with the job-failed exception, carrying the log
    lines of the job as they came, after printing the first entry and
    then all the messages in order; but the exception reaches no
    caller. No run ever raises an exception of the job-wait path: on a
    job that fails before the output commit comes, the log is printed
    and [run] returns a report as if the job had succeeded. *)
Theorem job_failure_does_not_reach_the_caller :
  (forall E p w,
      (forall pending s busy rest,
          all_in [PENDING] pending -> (length pending < _retry_count)%nat ->
          in_states s [PENDING; FAILED] = false ->
          all_in [STARTING; RUNNING] busy -> (length busy < _retry_processing_count)%nat ->
          feed (wait_for_pipeline E p) (pending ++ s :: busy ++ FAILED :: rest) w
          = (Ret (Fail (JobFailedException (job_logs E))),
             emit (attempts p (length pending) ++ last_attempt p ++
                   attempts p (length busy) ++ last_attempt p ++
                   [Rpc (GetLogs (p_name p))] ++ display (job_logs E)) w)) /\
      (forall pending rest,
          all_in [PENDING] pending -> (length pending < _retry_count)%nat ->
          feed (wait_for_pipeline E p) (pending ++ FAILED :: rest) w
          = (Ret (Fail (JobFailedException (job_logs E))),
             emit (attempts p (length pending) ++ last_attempt p ++
                   [Rpc (GetLogs (p_name p))] ++ display (job_logs E)) w))) /\
  (forall E self filename workflow_module bucket events w e w',
      run E self filename workflow_module bucket events w = (Raise e, w') ->
      job_wait_error e = false) /\
  feed (wait_for_pipeline cluster the_pipeline) [RUNNING; FAILED] world0
  = (Ret (Fail (JobFailedException [boom; line2])),
     emit [ Rpc (InspectJob (lit "doorstep-u0")); Rpc (InspectJob (lit "doorstep-u0"));
            Rpc (GetLogs (lit "doorstep-u0"));
            Write (lit "boom" ++ [10]); Write (lit "boom" ++ [10] ++ lit "line2" ++ [10]) ]
       world0) /\
  fst (go None job_fails_then_output) = Ret (List [Str (lit "a" ++ [10] ++ lit "b")]) /\
  In (Write (lit "boom" ++ [10])) (timeline (snd (go None job_fails_then_output))).
Proof.
  split; [| split; [| split; [| split]]].
  - intros E p w. apply wait_for_pipeline_fails_with_logs.
  - intros E self filename workflow_module bucket events w e w'.
    apply run_never_raises_job_wait_error.
  - vm_compute. reflexivity.
  - vm_compute. reflexivity.
  - vm_compute. repeat (first [left; reflexivity | right]).
Qed.

(** ** The fragment of Python, on examples *)

Example utf8_ascii : Py.decode [x68; x69] = Some (Py.lit "hi").
Proof. reflexivity. Qed.

Example utf8_euro : Py.decode [xe2; x82; xac] = Some [0x20AC].
Proof. reflexivity. Qed.

Example utf8_overlong : Py.decode [xc0; x80] = None.
Proof. reflexivity. Qed.

Example utf8_surrogate : Py.decode [xed; xa0; x80] = None.
Proof. reflexivity. Qed.

Example utf8_roundtrip : Py.encode [0x41; 0xE9; 0x20AC; 0x1F600] = Some [x41; xc3; xa9; xe2; x82; xac; xf0; x9f; x98; x80]
  /\ Py.decode [x41; xc3; xa9; xe2; x82; xac; xf0; x9f; x98; x80] = Some [0x41; 0xE9; 0x20AC; 0x1F600].
Proof. split; reflexivity. Qed.

Example rstrip_ex : Py.rstrip (Py.lit "boom  ") = Py.lit "boom" /\ Py.rstrip (Py.lit " a b ") = Py.lit " a b".
Proof. split; reflexivity. Qed.

Example repr_ex : Py.repr_bytes [x61; x0a; x5c] = Py.lit "b'a\n\\'".
Proof. reflexivity. Qed.

(* ===================================================================== *)
(** * Further properties of the engines *)
(* ===================================================================== *)

Import PyPath Traces.

(** ** Loading the definition *)

Lemma getattr_same self name w r w' : getattr self name w = (r, w') -> w' = w /\ r <> Blocked.
Proof.
  unfold getattr. intros H.
  repeat match type of H with context [match ?x with _ => _ end] => destruct x end;
    injection H as <- <-; split; congruence.
Qed.

Lemma getattr_instance self name w v :
  class_attrs !! name = None ->
  getattr self name w = (Ret v, w) -> instance_attr w self name = Some v.
Proof.
  unfold getattr, instance_attr. intros Hc H.
  destruct (heap w !! self) as [dict |]; [| discriminate]. cbn.
  destruct (dict !! name) as [v' |]; [congruence |].
  rewrite Hc in H. discriminate.
Qed.

Lemma getattr_of_instance self name w v :
  instance_attr w self name = Some v -> getattr self name w = (Ret v, w).
Proof.
  unfold getattr, instance_attr. intros H.
  destruct (heap w !! self) as [dict |]; [| discriminate]. cbn in H.
  now rewrite H.
Qed.

Lemma template_not_in_class : class_attrs !! "_pipeline_template"%string = None.
Proof. reflexivity. Qed.

(** How a call of [get_definition] that finds no truthy definition goes
    on: the template named by the object is opened, parsed and stored. *)
Lemma get_definition_load E self w cur :
  getattr self "pipeline_definition" w = (Ret cur, w) -> truthy cur = false ->
  get_definition E self w =
  match getattr self "_pipeline_template" w with
  | (Ret (JStr path), _) =>
      match files E path with
      | Some text =>
          match parse_json E text with
          | Some loaded =>
              (let* _ := setattr self "pipeline_definition" loaded in
               getattr self "pipeline_definition") (emit [Open path] w)
          | None => (Raise JSONDecodeError, emit [Open path] w)
          end
      | None =>
          (Raise (match disk E path with
                  | Some _ => UnicodeDecodeError
                  | None => OSError path
                  end), emit [Open path] w)
      end
  | (Ret _, _) => (Raise TypeError, w)
  | (Raise e, _) => (Raise e, w)
  | (Blocked, _) => (Blocked, w)
  end.
Proof.
  intros Hcur Hfalsy. unfold get_definition. unfold bind at 1. rewrite Hcur, Hfalsy.
  cbn [negb]. unfold bind at 1 2.
  destruct (getattr self "_pipeline_template" w) as [[p | e |] w0] eqn:Hp;
    apply getattr_same in Hp as Hw; destruct Hw as [-> Hnb]; try reflexivity.
  destruct p; try reflexivity.
  cbn [as_str]. unfold bind at 1. unfold ret at 1. unfold bind at 1.
  rewrite open_read_files. unfold bind at 1. rewrite perform_emit.
  destruct (files E s) as [text |]; [| reflexivity].
  unfold ret at 1. unfold bind at 1. unfold json_load.
  destruct (parse_json E text) as [loaded |]; reflexivity.
Qed.

Lemma setattr_Ret self name v w :
  is_Some (heap w !! self) ->
  exists w', setattr self name v w = (Ret tt, w') /\ timeline w' = timeline w /\
             drawn w' = drawn w /\ instance_attr w' self name = Some v.
Proof.
  intros [dict Hd]. unfold setattr. rewrite Hd. eexists. split; [reflexivity |].
  cbn. repeat split. unfold instance_attr. cbn.
  rewrite list_lookup_insert_eq by (eapply lookup_lt_Some; eauto).
  cbn. now rewrite lookup_insert_eq.
Qed.

Lemma getattr_Ret_heap self name w v : getattr self name w = (Ret v, w) -> is_Some (heap w !! self).
Proof.
  unfold getattr. destruct (heap w !! self); [eauto | discriminate].
Qed.

Lemma emit_heap l w : heap (emit l w) = heap w.
Proof. reflexivity. Qed.

(** X1. A call of [get_definition] that raises has stored nothing: the
    attributes of the engine are as before, so the next call tries the
    load again. It raises [OSError] when the template cannot be opened,
    [UnicodeDecodeError] when its bytes are no text in the encoding of
    the locale, and the decoding error of [json.load] when its text is
    no JSON document, each after the one attempt to open the
    template. *)
Theorem failed_load_caches_nothing (E : env) (self : nat) (w w' : world) (e : exn) :
  get_definition E self w = (Raise e, w') ->
  heap w' = heap w /\
  match e with
  | OSError path =>
      instance_attr w self "_pipeline_template" = Some (JStr path) /\
      disk E path = None /\ timeline w' = timeline w ++ [Open path]
  | UnicodeDecodeError =>
      exists path raw,
        instance_attr w self "_pipeline_template" = Some (JStr path) /\
        disk E path = Some raw /\ locale_decode E raw = None /\
        timeline w' = timeline w ++ [Open path]
  | JSONDecodeError =>
      exists path text,
        instance_attr w self "_pipeline_template" = Some (JStr path) /\
        files E path = Some text /\ parse_json E text = None /\
        timeline w' = timeline w ++ [Open path]
  | AttributeError _ | TypeError => w' = w
  | _ => False
  end.
Proof.
  intros H.
  destruct (getattr self "pipeline_definition" w) as [[cur | e0 |] w0] eqn:Hcur;
    apply getattr_same in Hcur as Hw; destruct Hw as [-> Hnb]; [| | congruence].
  2:{ unfold get_definition, bind in H. rewrite Hcur in H. injection H as <- <-.
      split; [reflexivity |].
      unfold getattr in Hcur.
      repeat match type of Hcur with context [match ?x with _ => _ end] => destruct x end;
        try discriminate; injection Hcur as <-; reflexivity. }
  destruct (truthy cur) eqn:Ht.
  { unfold get_definition, bind in H. rewrite Hcur, Ht in H. cbn in H.
    rewrite Hcur in H. discriminate. }
  rewrite (get_definition_load E self w cur Hcur Ht) in H.
  destruct (getattr self "_pipeline_template" w) as [[p | e1 |] w1] eqn:Hp;
    apply getattr_same in Hp as Hw; destruct Hw as [-> _]; [| | discriminate].
  2:{ injection H as <- <-. split; [reflexivity |].
      unfold getattr in Hp.
      repeat match type of Hp with context [match ?x with _ => _ end] => destruct x end;
        try discriminate; injection Hp as <-; reflexivity. }
  destruct p as [| | | path | |]; try (injection H as <- <-; split; reflexivity).
  apply getattr_instance in Hp; [| exact template_not_in_class].
  destruct (files E path) as [text |] eqn:Hf.
  2:{ unfold files in Hf. destruct (disk E path) as [raw |] eqn:Hraw.
      - destruct (locale_decode E raw) eqn:Hdec; [discriminate |].
        injection H as <- <-. split; [reflexivity |]. eauto 10.
      - injection H as <- <-. split; [reflexivity |]. auto. }
  destruct (parse_json E text) as [loaded |] eqn:Hj.
  2:{ injection H as <- <-. split; [reflexivity |]. eauto 10. }
  exfalso.
  destruct (setattr_Ret self "pipeline_definition" loaded (emit [Open path] w))
    as (w2 & Hs & _ & _ & Hi).
  { rewrite emit_heap. eapply getattr_Ret_heap; eauto. }
  unfold bind in H. rewrite Hs in H.
  rewrite (getattr_of_instance _ _ _ _ Hi) in H. discriminate.
Qed.

Lemma setattr_other self name v w w' name' :
  setattr self name v w = (Ret tt, w') -> name' <> name ->
  instance_attr w' self name' = instance_attr w self name'.
Proof.
  unfold setattr, instance_attr.
  destruct (heap w !! self) as [dict |] eqn:Hd; [| discriminate].
  intros [= <-] Hne. cbn.
  rewrite list_lookup_insert_eq by (eapply lookup_lt_Some; eauto).
  cbn. now rewrite lookup_insert_ne by congruence.
Qed.

Lemma instance_attr_same w w' self name :
  heap w' !! self = heap w !! self -> instance_attr w' self name = instance_attr w self name.
Proof. unfold instance_attr. now intros ->. Qed.

Lemma getattr_heap self name w w2 v :
  getattr self name w = (Ret v, w) -> heap w2 !! self = heap w !! self ->
  getattr self name w2 = (Ret v, w2).
Proof. intros H Hs. apply getattr_Ret in H as [_ H]. apply H, Hs. Qed.

(** What a call that returns a falsy definition has done: it has loaded
    it, from the template the object names. *)
Lemma falsy_definition_was_loaded E self w d w1 :
  get_definition E self w = (Ret d, w1) -> truthy d = false ->
  exists path, instance_attr w1 self "_pipeline_template" = Some (JStr path).
Proof.
  intros H Hd.
  destruct (getattr self "pipeline_definition" w) as [[cur | e0 |] w0] eqn:Hcur;
    apply getattr_same in Hcur as Hw; destruct Hw as [-> Hnb];
    [| unfold get_definition, bind in H; rewrite Hcur in H; discriminate | congruence].
  destruct (truthy cur) eqn:Ht.
  { unfold get_definition, bind in H. rewrite Hcur, Ht in H. cbn in H.
    rewrite Hcur in H. injection H as <- <-. congruence. }
  rewrite (get_definition_load E self w cur Hcur Ht) in H.
  destruct (getattr self "_pipeline_template" w) as [[p | e1 |] w1'] eqn:Hp;
    apply getattr_same in Hp as Hw; destruct Hw as [-> _]; try discriminate.
  destruct p as [| | | path | |]; try discriminate.
  apply getattr_instance in Hp; [| exact template_not_in_class].
  destruct (files E path) as [text |]; [| discriminate].
  destruct (parse_json E text) as [loaded |]; [| discriminate].
  unfold bind in H.
  destruct (setattr self "pipeline_definition" loaded (emit [Open path] w))
    as [[[] | e2 |] w2] eqn:Hs; try discriminate.
  apply getattr_same in H as Hw. destruct Hw as [-> _].
  exists path. erewrite setattr_other; [| exact Hs | discriminate]. exact Hp.
Qed.

(** X2. A definition that is falsy (an empty JSON object, say) is never
    served from the cache: every later call on the same object opens
    the template again, and returns what the file holds by then. *)
Theorem falsy_definition_is_loaded_again (E E' : env) (self : nat) (w w1 w2 : world)
    (d : json) :
  get_definition E self w = (Ret d, w1) ->
  truthy d = false ->
  heap w2 !! self = heap w1 !! self ->
  exists path,
    instance_attr w1 self "_pipeline_template" = Some (JStr path) /\
    timeline (snd (get_definition E' self w2)) = timeline w2 ++ [Open path] /\
    forall text d',
      files E' path = Some text -> parse_json E' text = Some d' ->
      fst (get_definition E' self w2) = Ret d'.
Proof.
  intros Hfirst Hfalsy Hsame.
  destruct (falsy_definition_was_loaded E self w d w1 Hfirst Hfalsy) as [path Hpath].
  exists path. split; [exact Hpath |].
  apply get_definition_stored in Hfirst.
  pose proof (getattr_heap _ _ _ w2 _ Hfirst Hsame) as Hcur.
  rewrite (get_definition_load E' self w2 d Hcur Hfalsy).
  rewrite (getattr_of_instance self "_pipeline_template" w2 (JStr path))
    by (rewrite (instance_attr_same w1 w2 self _ Hsame); exact Hpath).
  destruct (files E' path) as [text |] eqn:Hf; [| split; [reflexivity | discriminate]].
  destruct (parse_json E' text) as [loaded |] eqn:Hj;
    [| split; [reflexivity | intros text' d' [= <-] Hd'; rewrite Hj in Hd'; discriminate]].
  destruct (setattr_Ret self "pipeline_definition" loaded (emit [Open path] w2))
    as (w3 & Hs & Ht & _ & Hi).
  { rewrite emit_heap. eapply getattr_Ret_heap; eauto. }
  unfold bind. rewrite Hs, (getattr_of_instance _ _ _ _ Hi). cbn [fst snd].
  split; [exact Ht |]. intros text' d' [= <-] Hd'. rewrite Hj in Hd'. now injection Hd' as <-.
Qed.

(** ** A new engine *)

Lemma match_slash {X} (n : N) (x y : X) :
  match n with 47 => x | _ => y end = if n =? 47 then x else y.
Proof.
  destruct n as [| p]; [reflexivity |].
  do 6 (try (destruct p as [p | p |]; try reflexivity)).
Qed.

Lemma path_join_relative a b c :
  c <> 47 ->
  path_join a (c :: b) =
  a ++ match last a with
       | None => []
       | Some x => if x =? 47 then [] else lit "/"
       end ++ c :: b.
Proof.
  intros Hc. unfold path_join. rewrite match_slash.
  destruct (N.eqb_spec c 47) as [| _]; [contradiction |].
  destruct (last a) as [x |] eqn:Hl.
  - rewrite match_slash. destruct (x =? 47); reflexivity.
  - apply last_None in Hl. now subst.
Qed.

(** The last character of the directory decides whether a separator is
    put after it. *)
Lemma template_path_spelled E :
  template_path E =
  module_dir E ++ match last (module_dir E) with
                  | None => []
                  | Some x => if x =? 47 then [] else lit "/"
                  end ++ lit "pachyderm_proxy/doorstep.json".
Proof.
  unfold template_path.
  change (lit "pachyderm_proxy") with (112 :: lit "achyderm_proxy").
  change (lit "doorstep.json") with (100 :: lit "oorstep.json").
  rewrite !path_join_relative by discriminate.
  set (sep := match last (module_dir E) with
              | None => []
              | Some x => if x =? 47 then [] else lit "/"
              end).
  replace (last (module_dir E ++ sep ++ 112 :: lit "achyderm_proxy")) with (Some 121).
  - cbn [N.eqb Pos.eqb]. rewrite <- !app_assoc. reflexivity.
  - change (112 :: lit "achyderm_proxy") with (lit "pachyderm_prox" ++ [121]).
    rewrite !app_assoc. now rewrite last_snoc.
Qed.

(** X3. A new engine is a new object that leaves the others as they are,
    and the template it will load is the file
    [pachyderm_proxy/doorstep.json] of the directory of the module,
    whatever the working directory: its first call of [get_definition]
    opens that file and nothing else. *)
Theorem new_engine_loads_package_template (E : env) (w : world) :
  exists self w0,
    PachydermEngine E w = (Ret self, w0) /\
    heap w !! self = None /\
    (forall other, is_Some (heap w !! other) -> heap w0 !! other = heap w !! other) /\
    exists sep,
      (sep = [] \/ sep = lit "/") /\
      let path := module_dir E ++ sep ++ lit "pachyderm_proxy/doorstep.json" in
      instance_attr w0 self "_pipeline_template" = Some (JStr path) /\
      timeline (snd (get_definition E self w0)) = timeline w ++ [Open path].
Proof.
  eexists _, _. split; [reflexivity |]. cbn [heap].
  split; [apply lookup_ge_None; lia |].
  split; [intros other Ho; apply lookup_app_l; now apply lookup_lt_is_Some |].
  fold (template_path E). rewrite template_path_spelled.
  set (sep := match last (module_dir E) with
              | None => []
              | Some x => if x =? 47 then [] else lit "/"
              end).
  exists sep. split.
  { unfold sep. destruct (last (module_dir E)) as [x |]; [destruct (x =? 47) |]; auto. }
  set (path := module_dir E ++ sep ++ lit "pachyderm_proxy/doorstep.json").
  set (w0 := {| timeline := timeline w;
                heap := heap w ++ [ {[ "_pipeline_template"%string := JStr path ]} ];
                drawn := drawn w |}).
  assert (Hi : instance_attr w0 (length (heap w)) "_pipeline_template" = Some (JStr path)).
  { unfold instance_attr, w0. cbn [heap]. rewrite lookup_app_r by lia.
    rewrite Nat.sub_diag. reflexivity. }
  assert (Hcur : getattr (length (heap w)) "pipeline_definition" w0 = (Ret JNull, w0)).
  { unfold getattr, w0. cbn [heap]. rewrite lookup_app_r by lia.
    rewrite Nat.sub_diag. reflexivity. }
  split; [exact Hi |].
  rewrite (get_definition_load E _ w0 JNull Hcur eq_refl).
  rewrite (getattr_of_instance _ _ _ _ Hi).
  destruct (files E path) as [text |]; [| reflexivity].
  destruct (parse_json E text) as [loaded |]; [| reflexivity].
  destruct (setattr_Ret (length (heap w)) "pipeline_definition" loaded (emit [Open path] w0))
    as (w3 & Hs & Ht & _ & Hi').
  { rewrite emit_heap. eapply getattr_Ret_heap; eauto. }
  unfold bind. rewrite Hs, (getattr_of_instance _ _ _ _ Hi'). exact Ht.
Qed.

Lemma failed_load_caches_nothing_witness :
  let path := lit "/engine/pachyderm_proxy/doorstep.json" in
  let r := get_definition Cases.no_files 0%nat started in
  heap (snd r) = heap started /\
  instance_attr started 0%nat "_pipeline_template" = Some (JStr path) /\
  disk Cases.no_files path = None /\
  timeline (snd r) = timeline started ++ [Open path].
Proof.
  intros path r.
  apply (failed_load_caches_nothing Cases.no_files 0%nat started (snd r) (OSError path)).
  unfold r. rewrite (surjective_pairing (get_definition Cases.no_files 0%nat started)) at 1.
  f_equal; vm_compute; reflexivity.
Defined.

Lemma falsy_definition_is_loaded_again_witness :
  let w1 := snd (get_definition Cases.empty_template 0%nat started) in
  exists path,
    instance_attr w1 0%nat "_pipeline_template" = Some (JStr path) /\
    timeline (snd (get_definition cluster 0%nat w1)) = timeline w1 ++ [Open path] /\
    forall text d',
      files cluster path = Some text -> parse_json cluster text = Some d' ->
      fst (get_definition cluster 0%nat w1) = Ret d'.
Proof.
  intros w1.
  apply (falsy_definition_is_loaded_again Cases.empty_template cluster 0%nat started w1 w1
           (JObj [])); [| reflexivity | reflexivity].
  unfold w1.
  rewrite (surjective_pairing (get_definition Cases.empty_template 0%nat started)) at 1.
  f_equal; vm_compute; reflexivity.
Defined.

(** ** The files a run opens *)

Section Elsewhere.
Context {P : effect -> Prop}.
Hypothesis P_elsewhere : forall e, is_staging e = false -> is_open e = false -> P e.

Lemma job_wait_elsewhere E p : task_emits P (wait_for_pipeline E p).
Proof.
  unfold wait_for_pipeline, _wait_for_pipeline.
  assert (Htick : task_emits P (Do (Write (lit ".")) (Do (Sleep _retry_delay) (Done tt)))).
  { cbn [task_emits]. split; [| split; [| exact I]]; apply P_elsewhere; reflexivity. }
  apply task_emits_tcatch.
  - apply task_emits_tbind; [| intros; exact I].
    apply task_emits_tbind; [| intros _];
      (apply task_emits_wait_for_run;
       [apply P_elsewhere; reflexivity | apply P_elsewhere; reflexivity | exact Htick]).
  - intros e t' He. destruct e; try discriminate. injection He as <-.
    apply task_emits_tbind; [| intros; exact I].
    destruct logs as [| first rest]; [exact I |].
    unfold tprint. cbn [tbind task_emits].
    split; [apply P_elsewhere; reflexivity | split; [apply P_elsewhere; reflexivity | exact I]].
Qed.

Lemma session_pipeline_elsewhere s : emits P (fun _ => True) (session_pipeline s).
Proof.
  unfold session_pipeline. destruct (s_pipeline s); [apply emits_ret; exact I | apply emits_raise].
Qed.

Lemma watch_for_output_elsewhere E s sub raw :
  emits P (fun _ => True) (watch_for_output E s sub raw).
Proof.
  unfold watch_for_output. destruct sub; try (apply emits_ret; exact I).
  destruct (watch_step (input_repos s) (from_raw raw)); try (apply emits_ret; exact I).
  eapply emits_bind with (Q := fun _ => True); [| intros _ _; apply emits_ret; exact I].
  apply emits_swallow.
  eapply emits_bind; [apply session_pipeline_elsewhere |].
  intros p _. apply emits_call. apply P_elsewhere; reflexivity.
Qed.

Lemma event_loop_elsewhere E s events : forall sub job_wait,
  task_emits P job_wait ->
  emits P (fun _ => True) (event_loop E s events sub job_wait).
Proof.
  induction events as [| ev rest IH]; intros sub job_wait Hjw; cbn [event_loop].
  - apply emits_blocked.
  - destruct ev as [raw | state].
    + eapply emits_bind; [apply watch_for_output_elsewhere |].
      intros sub' _. destruct sub'; try (apply IH; exact Hjw).
      apply emits_ret. exact I.
    + eapply emits_bind; [apply emits_advance; exact Hjw |].
      intros job_wait' Hjw'. apply IH. exact Hjw'.
Qed.

Lemma start_watch_elsewhere E s : emits P (fun _ => True) (start_watch E s).
Proof.
  assert (H : emits P (fun _ => True) (let* p := session_pipeline s in watch_commits E p)).
  { eapply emits_bind; [apply session_pipeline_elsewhere |].
    intros p _. apply emits_call. apply P_elsewhere; reflexivity. }
  intros w. destruct (H w) as (l & Ht & Hl & _). exists l. unfold start_watch.
  destruct ((let* p := session_pipeline s in watch_commits E p) w) as [[[] | e |] w1];
    cbn [fst snd] in *; (split; [exact Ht | split; [exact Hl | intros; exact I]]).
Qed.

Lemma monitor_output_elsewhere E s events job_wait :
  task_emits P job_wait ->
  emits P (fun _ => True) (monitor_output E s events job_wait).
Proof.
  intros Hjw. unfold monitor_output.
  eapply emits_bind; [apply start_watch_elsewhere |]. intros sub _.
  eapply emits_bind; [apply emits_settle; exact Hjw |]. intros jw Hjw'.
  apply event_loop_elsewhere. exact Hjw'.
Qed.

Lemma get_output_elsewhere E s : emits P (fun _ => True) (get_output E s).
Proof.
  unfold get_output.
  eapply emits_bind; [apply session_pipeline_elsewhere |].
  intros p _. eapply emits_bind with (Q := fun _ => True).
  { unfold pull_output.
    eapply emits_bind; [apply emits_call; apply P_elsewhere; reflexivity |].
    intros _ _. destruct (artifact E _); [apply emits_ret; exact I | apply emits_raise]. }
  intros output _. eapply emits_bind; [apply emits_decode_lines |].
  intros lines _. apply emits_ret. exact I.
Qed.

(** After the staging: the two tasks, the await, the cancellation and
    the output. *)
Lemma completion_elsewhere E s events :
  emits P (fun _ => True)
    (let* job_wait := monitor_pipeline E s in
     let* '(commit, job_wait') := monitor_output E s events job_wait in
     cancel job_wait' ;;;
     let* results := get_output E s in
     ret results).
Proof.
  eapply emits_bind with (Q := task_emits P).
  { unfold monitor_pipeline, start_job_wait. apply emits_ret.
    destruct (s_pipeline s); [apply job_wait_elsewhere | exact I]. }
  intros job_wait Hjw.
  eapply emits_bind; [apply monitor_output_elsewhere; exact Hjw |].
  intros [commit job_wait'] _.
  eapply emits_bind with (Q := fun _ => True).
  { unfold cancel. eapply emits_bind; [apply emits_perform; apply P_elsewhere; reflexivity |].
    intros _ _. apply emits_ret. exact I. }
  intros _ _.
  eapply emits_bind; [apply get_output_elsewhere |]. intros results _.
  apply emits_ret. exact I.
Qed.

End Elsewhere.

Section Inputs.
Context {P : effect -> Prop}.
Hypothesis P_closed : forall e, is_open e = false -> P e.
Variable E : env.
Variables (filename workflow_module : str) (bucket : option str).
Hypothesis P_module : P (Open workflow_module).
Hypothesis P_dataset : truthy_opt bucket = false -> P (Open filename).

Lemma run_block_opens events s :
  emits P (fun _ => True) (run_block E filename workflow_module bucket events s).
Proof.
  assert (Hadd : forall category r name data b,
             session_repo s category = ret r ->
             emits P (fun _ => True) (_add_file E category name data s b)).
  { intros category r name data b Hr.
    eapply emits_add_file; [exact Hr | | intros c | intros id];
      apply P_closed; [| | destruct (truthy_opt b)]; reflexivity. }
  unfold run_block.
  eapply emits_bind; [apply emits_open_read; exact P_module |]. intros source _.
  eapply emits_bind; [apply emits_encode_utf8 |]. intros encoded _.
  eapply emits_bind with (Q := fun _ => True).
  { unfold add_processor. eapply Hadd. apply session_repo_processors. }
  intros _ _.
  eapply emits_bind with (Q := fun _ => True).
  { destruct (truthy_opt bucket) eqn:Hb; [apply emits_ret; exact I |].
    eapply emits_bind; [apply emits_open_read; apply P_dataset; reflexivity |].
    intros text _. eapply emits_bind; [apply emits_encode_utf8 |].
    intros enc _. apply emits_ret. exact I. }
  intros data _.
  eapply emits_bind with (Q := fun _ => True).
  { unfold add_data. eapply Hadd. apply session_repo_data. }
  intros _ _.
  apply completion_elsewhere. intros e _. apply P_closed.
Qed.

End Inputs.

(** The one file [get_definition] may open is the template the object
    names. *)
Lemma get_definition_opens E self w :
  exists l,
    timeline (snd (get_definition E self w)) = timeline w ++ l /\
    Forall (opens_among
              (fun path => instance_attr w self "_pipeline_template" = Some (JStr path))) l.
Proof.
  destruct (getattr self "pipeline_definition" w) as [[cur | e0 |] w0] eqn:Hcur;
    apply getattr_same in Hcur as Hw; destruct Hw as [-> Hnb]; [| | congruence].
  2:{ exists []. unfold get_definition, bind. rewrite Hcur, app_nil_r. split; constructor. }
  destruct (truthy cur) eqn:Ht.
  { exists []. unfold get_definition, bind. rewrite Hcur, Ht. cbn.
    rewrite Hcur, app_nil_r. split; constructor. }
  rewrite (get_definition_load E self w cur Hcur Ht).
  destruct (getattr self "_pipeline_template" w) as [[p | e1 |] w1] eqn:Hp;
    apply getattr_same in Hp as Hw; destruct Hw as [-> _];
    [| exists []; rewrite app_nil_r; split; constructor ..].
  destruct p as [| | | path | |];
    try (exists []; rewrite app_nil_r; split; constructor).
  apply getattr_instance in Hp as Hi; [| exact template_not_in_class].
  exists [Open path]. split; [| repeat constructor; exact Hi].
  destruct (files E path) as [text |]; [| reflexivity].
  destruct (parse_json E text) as [loaded |]; [| reflexivity].
  destruct (setattr_Ret self "pipeline_definition" loaded (emit [Open path] w))
    as (w3 & Hs & Ht' & _ & Hi').
  { rewrite emit_heap. eapply getattr_Ret_heap; eauto. }
  unfold bind. rewrite Hs, (getattr_of_instance _ _ _ _ Hi'). exact Ht'.
Qed.

(** The effects of [make_session] around a block whose effects satisfy
    [P], after those of [get_definition]. *)
Lemma make_session_emits {P : effect -> Prop} E self {A} (body : session -> M A) w :
  (forall c, P (Rpc c)) ->
  (forall s, emits P (fun _ => True) (body s)) ->
  exists l0 l,
    timeline (snd (get_definition E self (drew w))) = timeline w ++ l0 /\
    (forall r w', make_session E self body w = (r, w') ->
       timeline w' = timeline w ++ l0 ++ l) /\
    Forall P l.
Proof.
  intros Hrpc Hbody.
  destruct (get_definition_opens E self (drew w)) as (l0 & Ht0 & _).
  cbn [drew timeline] in Ht0. exists l0.
  set (name := lit "doorstep-" ++ uuid4 E (drawn w)).
  assert (Hmk := make_session_unfold E self A body w). cbv zeta in Hmk. fold name in Hmk.
  destruct (get_definition E self (drew w)) as [[d | e |] w1]; cbn [fst snd] in *;
    [| exists []; (split; [exact Ht0 | split; [| constructor]]);
       intros r w' H; rewrite Hmk in H; injection H as <- <-; now rewrite app_nil_r ..].
  assert (Hprov : Forall P (provisioning d (session_of name))) by (repeat constructor; apply Hrpc).
  assert (Htear : Forall P (teardown (session_of name))) by (repeat constructor; apply Hrpc).
  destruct (rpc_fails E (CreateRepo (r_name (s_data (session_of name))))).
  { eexists. split; [exact Ht0 | split].
    - intros r w' H. rewrite Hmk in H. injection H as <- <-.
      cbn [emit timeline]. rewrite Ht0, <- app_assoc. reflexivity.
    - repeat constructor; apply Hrpc. }
  destruct (rpc_fails E (CreateRepo (r_name (s_processors (session_of name))))).
  { eexists. split; [exact Ht0 | split].
    - intros r w' H. rewrite Hmk in H. injection H as <- <-.
      cbn [emit timeline]. rewrite Ht0, <- app_assoc. reflexivity.
    - repeat constructor; apply Hrpc. }
  destruct (rpc_fails E (CreatePipeline _ _ _ _)).
  { eexists. split; [exact Ht0 | split].
    - intros r w' H. rewrite Hmk in H. injection H as <- <-.
      cbn [emit timeline]. rewrite Ht0, <- app_assoc. reflexivity.
    - repeat constructor; apply Hrpc. }
  destruct (Hbody (session_of name) (emit (provisioning d (session_of name)) w1))
    as (l & Ht & Hl & _).
  destruct (body (session_of name) (emit (provisioning d (session_of name)) w1))
    as [[v | e |] w2]; cbn [after_scope fst snd emit timeline] in *.
  - exists (provisioning d (session_of name) ++ l ++ teardown (session_of name)).
    split; [exact Ht0 | split].
    + intros r w' H. rewrite Hmk in H. injection H as <- <-.
      cbn [emit timeline]. rewrite Ht, Ht0, <- !(@List.app_assoc effect). reflexivity.
    + apply Forall_app. split; [exact Hprov |]. apply Forall_app. split; assumption.
  - exists (provisioning d (session_of name) ++ l ++ teardown (session_of name)).
    split; [exact Ht0 | split].
    + intros r w' H. rewrite Hmk in H. injection H as <- <-.
      cbn [emit timeline]. rewrite Ht, Ht0, <- !(@List.app_assoc effect). reflexivity.
    + apply Forall_app. split; [exact Hprov |]. apply Forall_app. split; assumption.
  - exists (provisioning d (session_of name) ++ l).
    split; [exact Ht0 | split].
    + intros r w' H. rewrite Hmk in H. injection H as <- <-.
      rewrite Ht, Ht0, <- !(@List.app_assoc effect). reflexivity.
    + apply Forall_app. split; assumption.
Qed.

(** X4. The only files a run opens are the template of the engine, the
    workflow module and, when there is no bucket, the dataset: with a
    bucket the dataset is not read from the local disk, however the run
    ends. *)
Theorem run_opens_only_its_inputs (E : env) (self : nat) (filename workflow_module : str)
    (bucket : option str) (events : list event) (w : world) :
  exists l,
    timeline (snd (run E self filename workflow_module bucket events w)) = timeline w ++ l /\
    forall path, In (Open path) l ->
      instance_attr w self "_pipeline_template" = Some (JStr path) \/
      path = workflow_module \/
      (truthy_opt bucket = false /\ path = filename).
Proof.
  set (allowed := fun path =>
         instance_attr w self "_pipeline_template" = Some (JStr path) \/
         path = workflow_module \/ (truthy_opt bucket = false /\ path = filename)).
  assert (Hclosed : forall e, is_open e = false -> opens_among allowed e).
  { intros [] H; try exact I. discriminate H. }
  destruct (@make_session_emits (opens_among allowed) E self value
              (run_block E filename workflow_module bucket events) w) as (l0 & l & Ht0 & Ht & Hl).
  { intros c. exact I. }
  { intros s. apply run_block_opens; [exact Hclosed | |].
    - right. left. reflexivity.
    - intros Hb. right. right. split; [exact Hb | reflexivity]. }
  exists (l0 ++ l). split.
  { rewrite run_unfold. eapply Ht. apply surjective_pairing. }
  intros path Hin. apply in_app_or in Hin as [Hin | Hin].
  - destruct (get_definition_opens E self (drew w)) as (l0' & Ht0' & Hl0).
    rewrite Ht0 in Ht0'. cbn [drew timeline] in Ht0'. apply app_inv_head in Ht0'. subst l0'.
    rewrite List.Forall_forall in Hl0. left. exact (Hl0 _ Hin).
  - rewrite List.Forall_forall in Hl. exact (Hl _ Hin).
Qed.

(** ** The attributes of the engine during a run *)

Lemma keeps_heap_ret {A} (a : A) : keeps_heap (ret a).
Proof. intros w. reflexivity. Qed.

Lemma keeps_heap_raise {A} e : keeps_heap (@raise A e).
Proof. intros w. reflexivity. Qed.

Lemma keeps_heap_blocked {A} : keeps_heap (@blocked A).
Proof. intros w. reflexivity. Qed.

Lemma keeps_heap_perform e : keeps_heap (perform e).
Proof. intros w. reflexivity. Qed.

Lemma keeps_heap_draw {A} (supply : nat -> A) : keeps_heap (draw supply).
Proof. intros w. reflexivity. Qed.

Lemma keeps_heap_bind {A B} (m : M A) (k : A -> M B) :
  keeps_heap m -> (forall a, keeps_heap (k a)) -> keeps_heap (bind m k).
Proof.
  intros Hm Hk w. unfold bind. specialize (Hm w).
  destruct (m w) as [[a | e |] w1]; cbn [snd] in *; try exact Hm.
  rewrite Hk. exact Hm.
Qed.

Lemma keeps_heap_swallow (m : M unit) : keeps_heap m -> keeps_heap (swallow m).
Proof.
  intros Hm w. unfold swallow. specialize (Hm w).
  destruct (m w) as [[a | e |] w1]; exact Hm.
Qed.

Lemma keeps_heap_with {R A} (enter : M R) leave (body : R -> M A) :
  keeps_heap enter -> (forall r, keeps_heap (leave r)) -> (forall r, keeps_heap (body r)) ->
  keeps_heap (with_ enter leave body).
Proof.
  intros He Hl Hb w. unfold with_. specialize (He w).
  destruct (enter w) as [[r | e |] w1]; cbn [snd] in *; try exact He.
  specialize (Hb r w1).
  destruct (body r w1) as [[a | e |] w2]; cbn [snd] in *;
    [specialize (Hl r w2) .. | congruence];
    destruct (leave r w2) as [[[] | e' |] w3]; cbn [snd] in *; congruence.
Qed.

Lemma keeps_heap_if {A} (b : bool) (m1 m2 : M A) :
  keeps_heap m1 -> keeps_heap m2 -> keeps_heap (if b then m1 else m2).
Proof. now destruct b. Qed.

Lemma keeps_heap_call E c : keeps_heap (call E c).
Proof.
  unfold call. apply keeps_heap_bind; [apply keeps_heap_perform | intros _].
  destruct (rpc_fails E c); [apply keeps_heap_raise | apply keeps_heap_ret].
Qed.

Lemma keeps_heap_open_read E path : keeps_heap (open_read E path).
Proof.
  rewrite open_read_files. apply keeps_heap_bind; [apply keeps_heap_perform | intros _].
  destruct (files E path); [apply keeps_heap_ret | apply keeps_heap_raise].
Qed.

Lemma keeps_heap_encode_utf8 s : keeps_heap (encode_utf8 s).
Proof. unfold encode_utf8. destruct (encode s); [apply keeps_heap_ret | apply keeps_heap_raise]. Qed.

Lemma keeps_heap_decode_lines output : keeps_heap (decode_lines output).
Proof.
  induction output as [| line rest IH]; cbn [decode_lines]; [apply keeps_heap_ret |].
  apply keeps_heap_bind.
  - unfold decode_utf8. destruct (decode line); [apply keeps_heap_ret | apply keeps_heap_raise].
  - intros text. apply keeps_heap_bind; [exact IH | intros; apply keeps_heap_ret].
Qed.

Lemma keeps_heap_session_pipeline s : keeps_heap (session_pipeline s).
Proof.
  unfold session_pipeline. destruct (s_pipeline s); [apply keeps_heap_ret | apply keeps_heap_raise].
Qed.

Lemma keeps_heap_session_repo s category : keeps_heap (session_repo s category).
Proof.
  unfold session_repo.
  repeat match goal with
         | |- context [decide ?p] => destruct (decide p)
         | |- context [match ?x with _ => _ end] => destruct x
         end; first [apply keeps_heap_ret | apply keeps_heap_raise].
Qed.

Lemma keeps_heap_add_file E category filename data s bucket :
  keeps_heap (_add_file E category filename data s bucket).
Proof.
  unfold _add_file. apply keeps_heap_bind; [apply keeps_heap_session_repo | intros repo].
  apply keeps_heap_with.
  - unfold make_commit_enter. apply keeps_heap_bind; [apply keeps_heap_call | intros _].
    apply keeps_heap_bind; [apply keeps_heap_draw | intros; apply keeps_heap_ret].
  - intros c. apply keeps_heap_call.
  - intros c. destruct (truthy_opt bucket); apply keeps_heap_call.
Qed.

Lemma keeps_heap_settle {A} (t : task A) : keeps_heap (settle t).
Proof.
  induction t as [a | e | eff k IH | p k IH]; cbn [settle]; try apply keeps_heap_ret.
  apply keeps_heap_bind; [apply keeps_heap_perform | intros _; exact IH].
Qed.

Lemma keeps_heap_advance {A} (t : task A) s : keeps_heap (advance t s).
Proof.
  destruct t; cbn [advance]; try apply keeps_heap_ret.
  apply keeps_heap_bind; [apply keeps_heap_perform | intros _; apply keeps_heap_settle].
Qed.

Lemma keeps_heap_watch_for_output E s sub raw : keeps_heap (watch_for_output E s sub raw).
Proof.
  unfold watch_for_output. destruct sub; try apply keeps_heap_ret.
  destruct (watch_step (input_repos s) (from_raw raw)); try apply keeps_heap_ret.
  apply keeps_heap_bind; [| intros _; apply keeps_heap_ret].
  apply keeps_heap_swallow.
  apply keeps_heap_bind; [apply keeps_heap_session_pipeline | intros p; apply keeps_heap_call].
Qed.

Lemma keeps_heap_event_loop E s events : forall sub job_wait,
  keeps_heap (event_loop E s events sub job_wait).
Proof.
  induction events as [| [raw | state] rest IH]; intros sub job_wait; cbn [event_loop].
  - apply keeps_heap_blocked.
  - apply keeps_heap_bind; [apply keeps_heap_watch_for_output | intros sub'].
    destruct sub'; first [apply IH | apply keeps_heap_ret].
  - apply keeps_heap_bind; [apply keeps_heap_advance | intros jw; apply IH].
Qed.

Lemma keeps_heap_start_watch E s : keeps_heap (start_watch E s).
Proof.
  assert (H : keeps_heap (let* p := session_pipeline s in watch_commits E p)).
  { apply keeps_heap_bind; [apply keeps_heap_session_pipeline | intros p; apply keeps_heap_call]. }
  intros w. specialize (H w). unfold start_watch.
  destruct ((let* p := session_pipeline s in watch_commits E p) w) as [[[] | e |] w1]; exact H.
Qed.

Lemma keeps_heap_get_output E s : keeps_heap (get_output E s).
Proof.
  unfold get_output. apply keeps_heap_bind; [apply keeps_heap_session_pipeline | intros p].
  apply keeps_heap_bind.
  - unfold pull_output. apply keeps_heap_bind; [apply keeps_heap_call | intros _].
    destruct (artifact E _); [apply keeps_heap_ret | apply keeps_heap_raise].
  - intros output. apply keeps_heap_bind; [apply keeps_heap_decode_lines |].
    intros lines. apply keeps_heap_ret.
Qed.

Lemma keeps_heap_run_block E filename workflow_module bucket events s :
  keeps_heap (run_block E filename workflow_module bucket events s).
Proof.
  unfold run_block.
  apply keeps_heap_bind; [apply keeps_heap_open_read | intros source].
  apply keeps_heap_bind; [apply keeps_heap_encode_utf8 | intros encoded].
  apply keeps_heap_bind; [apply keeps_heap_add_file | intros _].
  apply keeps_heap_bind.
  { apply keeps_heap_if; [apply keeps_heap_ret |].
    apply keeps_heap_bind; [apply keeps_heap_open_read | intros text].
    apply keeps_heap_bind; [apply keeps_heap_encode_utf8 | intros enc; apply keeps_heap_ret]. }
  intros data.
  apply keeps_heap_bind; [apply keeps_heap_add_file | intros _].
  apply keeps_heap_bind; [apply keeps_heap_ret | intros job_wait].
  apply keeps_heap_bind.
  { unfold monitor_output.
    apply keeps_heap_bind; [apply keeps_heap_start_watch | intros sub].
    apply keeps_heap_bind; [apply keeps_heap_settle | intros jw; apply keeps_heap_event_loop]. }
  intros [commit job_wait'].
  apply keeps_heap_bind.
  { unfold cancel. apply keeps_heap_bind; [apply keeps_heap_perform | intros; apply keeps_heap_ret]. }
  intros _. apply keeps_heap_bind; [apply keeps_heap_get_output | intros; apply keeps_heap_ret].
Qed.

(** Past [get_definition], a run touches no attribute. *)
Lemma run_heap E self filename workflow_module bucket events w r w' d wd :
  run E self filename workflow_module bucket events w = (r, w') ->
  get_definition E self (drew w) = (Ret d, wd) ->
  heap w' = heap wd.
Proof.
  intros Hrun Hdef. rewrite run_unfold, make_session_unfold in Hrun. cbv zeta in Hrun.
  rewrite Hdef in Hrun.
  repeat match type of Hrun with context [if ?b then _ else _] => destruct b end;
    try (injection Hrun as <- <-; reflexivity).
  match type of Hrun with context [run_block ?E ?f ?m ?b ?ev ?s ?w0] =>
    pose proof (keeps_heap_run_block E f m b ev s w0) as Hk;
    destruct (run_block E f m b ev s w0) as [[v | e |] w2]
  end; cbn [after_scope snd] in *; injection Hrun as <- <-; exact Hk.
Qed.

Lemma get_definition_cached E self w d :
  getattr self "pipeline_definition" w = (Ret d, w) -> truthy d = true ->
  get_definition E self w = (Ret d, w).
Proof.
  intros Hget Ht. unfold get_definition, bind. rewrite Hget, Ht. cbn. now rewrite Hget.
Qed.

(** X5. The template is read for the first run of an engine only: once
    a run has got a truthy definition, however that run ends, a later
    run on the same engine gets the same definition without opening the
    template, and opens nothing but its module and (without a bucket)
    its dataset. *)
Theorem later_runs_reuse_the_definition (E E' : env) (self : nat)
    (filename workflow_module filename' workflow_module' : str) (bucket bucket' : option str)
    (events events' : list event) (w w1 wd : world) (r : outcome value) (d : json) :
  run E self filename workflow_module bucket events w = (r, w1) ->
  get_definition E self (drew w) = (Ret d, wd) ->
  truthy d = true ->
  get_definition E' self (drew w1) = (Ret d, drew w1) /\
  exists l,
    timeline (snd (run E' self filename' workflow_module' bucket' events' w1))
    = timeline w1 ++ l /\
    forall path, In (Open path) l ->
      path = workflow_module' \/ (truthy_opt bucket' = false /\ path = filename').
Proof.
  intros Hrun Hdef Htruthy.
  pose proof (run_heap _ _ _ _ _ _ _ _ _ _ _ Hrun Hdef) as Hheap.
  apply get_definition_stored in Hdef.
  assert (Hcached : get_definition E' self (drew w1) = (Ret d, drew w1)).
  { apply get_definition_cached; [| exact Htruthy].
    eapply getattr_heap; [exact Hdef |]. cbn [drew heap]. now rewrite Hheap. }
  split; [exact Hcached |].
  set (allowed := fun path =>
         path = workflow_module' \/ (truthy_opt bucket' = false /\ path = filename')).
  assert (Hclosed : forall e, is_open e = false -> opens_among allowed e).
  { intros [] H; try exact I. discriminate H. }
  destruct (@make_session_emits (opens_among allowed) E' self value
              (run_block E' filename' workflow_module' bucket' events') w1)
    as (l0 & l & Ht0 & Ht & Hl).
  { intros c. exact I. }
  { intros s. apply run_block_opens; [exact Hclosed | |].
    - left. reflexivity.
    - intros Hb. right. split; [exact Hb | reflexivity]. }
  rewrite Hcached in Ht0. cbn [snd drew timeline] in Ht0.
  rewrite <- (app_nil_r (timeline w1)) in Ht0 at 1. apply app_inv_head in Ht0. subst l0.
  exists l. split.
  { rewrite run_unfold. eapply Ht. apply surjective_pairing. }
  intros path Hin. rewrite List.Forall_forall in Hl. exact (Hl _ Hin).
Qed.

Lemma later_runs_reuse_the_definition_witness :
  let first := run cluster 0%nat (lit "in.csv") (lit "proc.py") None three_commits started in
  let w1 := snd first in
  get_definition cluster 0%nat (drew w1) = (Ret template_json, drew w1) /\
  exists l,
    timeline (snd (run cluster 0%nat (lit "in.csv") (lit "proc.py") None three_commits w1))
    = timeline w1 ++ l /\
    forall path, In (Open path) l ->
      path = lit "proc.py" \/ (truthy_opt None = false /\ path = lit "in.csv").
Proof.
  intros first w1.
  apply (later_runs_reuse_the_definition cluster cluster 0%nat
           (lit "in.csv") (lit "proc.py") (lit "in.csv") (lit "proc.py") None None
           three_commits three_commits started w1
           (snd (get_definition cluster 0%nat (drew started))) (fst first) template_json).
  - apply surjective_pairing.
  - rewrite (surjective_pairing (get_definition cluster 0%nat (drew started))) at 1.
    f_equal; vm_compute; reflexivity.
  - reflexivity.
Defined.

(** ** Runs that cannot read their inputs *)

Lemma open_read_spec E path w :
  open_read E path w =
  (match files E path with
   | Some text => Ret text
   | None => Raise (match disk E path with
                    | Some _ => UnicodeDecodeError
                    | None => OSError path
                    end)
   end, emit [Open path] w).
Proof.
  rewrite open_read_files. unfold bind. rewrite perform_emit. now destruct (files E path).
Qed.

(** One call of [_add_file] on a cluster that refuses nothing. *)
Lemma add_file_accepted E r category filename data s bucket w :
  session_repo s category = ret r ->
  (forall c, rpc_fails E c = false) ->
  _add_file E category filename data s bucket w =
  (Ret tt,
   {| timeline := timeline w ++
                  commit_trace (r_name r) (commit_id E (drawn w)) filename data bucket;
      heap := heap w;
      drawn := S (drawn w) |}).
Proof.
  intros Hr Hok. unfold _add_file. rewrite Hr. unfold bind at 1, ret at 1.
  unfold with_, make_commit_enter, make_commit_leave, bind.
  rewrite call_spec, Hok. unfold draw, ret. cbn [emit timeline heap drawn].
  unfold commit_trace, the_put.
  destruct (truthy_opt bucket); [unfold put_file_url | unfold put_file_bytes];
    rewrite call_spec, Hok, call_spec, Hok; unfold emit, get_full_name;
    cbn [timeline heap drawn _repo _name];
    rewrite <- !(@List.app_assoc effect); reflexivity.
Qed.

Lemma make_session_accepted E self {A} (body : session -> M A) w d w1 :
  get_definition E self (drew w) = (Ret d, w1) ->
  (forall c, rpc_fails E c = false) ->
  let s := session_of (lit "doorstep-" ++ uuid4 E (drawn w)) in
  make_session E self body w = after_scope s (body s (emit (provisioning d s) w1)).
Proof.
  intros Hdef Hok. rewrite make_session_unfold. cbv zeta. rewrite Hdef, !Hok. reflexivity.
Qed.

(** X6. A run whose workflow module cannot be read raises the error of
    the read (the [OSError] of the [open] when there is no such file,
    the decoding error when its bytes are no text in the encoding of
    the locale), on a session that was set up and is torn down: nothing
    is staged and the dataset is not looked at. *)
Theorem run_without_module (E : env) (self : nat) (filename workflow_module : str)
    (bucket : option str) (events : list event) (w w1 : world) (d : json) :
  files E workflow_module = None ->
  get_definition E self (drew w) = (Ret d, w1) ->
  (forall c, rpc_fails E c = false) ->
  let s := session_of (lit "doorstep-" ++ uuid4 E (drawn w)) in
  run E self filename workflow_module bucket events w =
  (Raise (read_error E workflow_module),
   emit (provisioning d s ++ [Open workflow_module] ++ teardown s) w1).
Proof.
  intros Hmissing Hdef Hok s.
  rewrite run_unfold, (make_session_accepted E self _ w d w1 Hdef Hok). fold s.
  unfold run_block. unfold bind at 1.
  rewrite open_read_spec, Hmissing.
  cbn [after_scope]. rewrite !emit_emit. reflexivity.
Qed.

(** X7. Without a bucket, a run whose dataset cannot be read raises the
    error of the read (the [OSError] of the [open] when there is no
    such file, the decoding error when its bytes are no text in the
    encoding of the locale) after the module has been committed to the
    processors repository: the dataset is opened only then, nothing is
    put into the data repository, and the session is torn down. *)
Theorem run_without_dataset (E : env) (self : nat) (filename workflow_module : str)
    (bucket : option str) (events : list event) (w w1 : world) (d : json)
    (source : str) (encoded : bytes) :
  truthy_opt bucket = false ->
  files E workflow_module = Some source ->
  encode source = Some encoded ->
  files E filename = None ->
  get_definition E self (drew w) = (Ret d, w1) ->
  (forall c, rpc_fails E c = false) ->
  let name := lit "doorstep-" ++ uuid4 E (drawn w) in
  let s := session_of name in
  exists w',
    run E self filename workflow_module bucket events w = (Raise (read_error E filename), w') /\
    timeline w' =
    timeline w1 ++ provisioning d s ++
    [Open workflow_module] ++
    commit_trace (name ++ lit "-processors") (commit_id E (drawn w1))
      (lit "/processor.py") (Raw encoded) None ++
    [Open filename] ++ teardown s.
Proof.
  intros Hb Hsrc Henc Hmissing Hdef Hok name s.
  rewrite run_unfold, (make_session_accepted E self _ w d w1 Hdef Hok). fold name s.
  unfold run_block. unfold bind at 1. rewrite open_read_spec, Hsrc.
  unfold bind at 1. unfold encode_utf8 at 1. rewrite Henc. unfold ret at 1.
  unfold bind at 1. unfold add_processor.
  rewrite (add_file_accepted E (s_processors s)) by (apply session_repo_processors || exact Hok).
  rewrite Hb. unfold bind at 1. unfold bind at 1.
  rewrite open_read_spec, Hmissing.
  cbn [after_scope]. eexists. split; [reflexivity |].
  cbn [emit timeline drawn s session_of s_processors r_name].
  rewrite <- !(@List.app_assoc effect). reflexivity.
Qed.

Lemma run_without_module_witness :
  let w1 := snd (get_definition cluster 0%nat (drew started)) in
  let s := session_of (lit "doorstep-" ++ uuid4 cluster (drawn started)) in
  run cluster 0%nat (lit "in.csv") (lit "missing.py") None three_commits started =
  (Raise (OSError (lit "missing.py")),
   emit (provisioning template_json s ++ [Open (lit "missing.py")] ++ teardown s) w1).
Proof.
  intros w1.
  apply (run_without_module cluster 0%nat (lit "in.csv") (lit "missing.py") None three_commits
           started w1 template_json).
  - reflexivity.
  - unfold w1. rewrite (surjective_pairing (get_definition cluster 0%nat (drew started))) at 1.
    f_equal; vm_compute; reflexivity.
  - intros c. reflexivity.
Defined.

Lemma run_without_dataset_witness :
  let w1 := snd (get_definition cluster 0%nat (drew started)) in
  let name := lit "doorstep-" ++ uuid4 cluster (drawn started) in
  let s := session_of name in
  let encoded := default [] (encode (lit "print(1)")) in
  exists w',
    run cluster 0%nat (lit "missing.csv") (lit "proc.py") None three_commits started
    = (Raise (OSError (lit "missing.csv")), w') /\
    timeline w' =
    timeline w1 ++ provisioning template_json s ++
    [Open (lit "proc.py")] ++
    commit_trace (name ++ lit "-processors") (commit_id cluster (drawn w1))
      (lit "/processor.py") (Raw encoded) None ++
    [Open (lit "missing.csv")] ++ teardown s.
Proof.
  intros w1 name s encoded.
  apply (run_without_dataset cluster 0%nat (lit "missing.csv") (lit "proc.py") None
           three_commits started w1 template_json (lit "print(1)") encoded).
  - reflexivity.
  - reflexivity.
  - vm_compute. reflexivity.
  - reflexivity.
  - unfold w1. rewrite (surjective_pairing (get_definition cluster 0%nat (drew started))) at 1.
    f_equal; vm_compute; reflexivity.
  - intros c. reflexivity.
Defined.

(** ** The order of a run that returns *)

Lemma job_wait_polls E p : task_emits polling (wait_for_pipeline E p).
Proof.
  unfold wait_for_pipeline, _wait_for_pipeline.
  assert (Htick : task_emits polling
                    (Do (Write (lit ".")) (Do (Sleep _retry_delay) (Done tt)))).
  { repeat split. }
  apply task_emits_tcatch.
  - apply task_emits_tbind; [| intros; exact I].
    apply task_emits_tbind; [| intros _];
      (apply task_emits_wait_for_run; [exact I | exact I | exact Htick]).
  - intros e t' He. destruct e; try discriminate. injection He as <-.
    apply task_emits_tbind; [| intros; exact I].
    destruct logs as [| first rest]; [exact I |].
    repeat split.
Qed.

Lemma advance_polls {A} (t : task A) s w t' w' :
  task_emits polling t -> advance t s w = (Ret t', w') ->
  task_emits polling t' /\ exists l, timeline w' = timeline w ++ l /\ Forall polling l.
Proof.
  intros Ht H. destruct (@emits_advance polling A t s Ht w) as (l & Hl & Hp & Hq).
  rewrite H in Hl, Hq. cbn [fst snd] in *. split; [apply Hq; reflexivity | eauto].
Qed.

Lemma settle_polls {A} (t : task A) w t' w' :
  task_emits polling t -> settle t w = (Ret t', w') ->
  task_emits polling t' /\ exists l, timeline w' = timeline w ++ l /\ Forall polling l.
Proof.
  intros Ht H. destruct (@emits_settle polling A t Ht w) as (l & Hl & Hp & Hq).
  rewrite H in Hl, Hq. cbn [fst snd] in *. split; [apply Hq; reflexivity | eauto].
Qed.

(** The await that returns: between its start and the end of the
    subscription there is nothing but the polling of the job. *)
Lemma event_loop_Ret E s p events : forall job_wait w commit job_wait' w',
  s_pipeline s = Some p -> task_emits polling job_wait ->
  event_loop E s events Watching job_wait w = (Ret (commit, job_wait'), w') ->
  exists polls,
    Forall polling polls /\
    timeline w' = timeline w ++ polls ++ [Rpc (Unsubscribe (p_name p))].
Proof.
  induction events as [| [raw | state] rest IH]; intros jw w commit jw' w' Hp Hjw H;
    cbn [event_loop] in H.
  - discriminate.
  - unfold bind at 1 in H. unfold watch_for_output in H.
    destruct (watch_step (input_repos s) (from_raw raw)) as [| c | e].
    + apply (IH _ _ _ _ _ Hp Hjw H).
    + unfold bind at 1 in H. unfold session_pipeline in H. rewrite Hp in H.
      unfold bind at 1, ret at 1 in H. unfold stop_watching_commits in H.
      rewrite release_spec in H. injection H as <- <- <-.
      exists []. split; [constructor | reflexivity].
    + unfold ret in H. pose proof (await_dead_subscription E s rest e jw w) as Hd.
      rewrite H in Hd. discriminate.
  - apply bind_Ret in H as (jw1 & w1 & Hadv & H).
    apply advance_polls in Hadv as (Hjw1 & l & Hl & Hpl); [| exact Hjw].
    destruct (IH _ _ _ _ _ Hp Hjw1 H) as (polls & Hpolls & Ht).
    exists (l ++ polls). split; [apply Forall_app; split; assumption |].
    rewrite Ht, Hl, <- !(@List.app_assoc effect). reflexivity.
Qed.

Lemma monitor_output_Ret E s p events job_wait w commit job_wait' w' :
  s_pipeline s = Some p -> task_emits polling job_wait ->
  monitor_output E s events job_wait w = (Ret (commit, job_wait'), w') ->
  exists polls,
    Forall polling polls /\
    timeline w' = timeline w ++ [Rpc (SubscribeCommit (p_name p))] ++ polls ++
                  [Rpc (Unsubscribe (p_name p))].
Proof.
  intros Hp Hjw H. unfold monitor_output in H.
  apply bind_Ret in H as (sub & w1 & Hstart & H).
  unfold start_watch, bind, session_pipeline in Hstart. rewrite Hp in Hstart.
  unfold ret, watch_commits in Hstart. rewrite call_spec in Hstart.
  apply bind_Ret in H as (jw1 & w2 & Hsettle & H).
  apply settle_polls in Hsettle as (Hjw1 & l & Hl & Hpl); [| exact Hjw].
  destruct (rpc_fails E (SubscribeCommit (p_name p))); injection Hstart as <- <-.
  { pose proof (await_dead_subscription E s events (RpcError (SubscribeCommit (p_name p)))
                  jw1 w2) as Hd.
    rewrite H in Hd. discriminate. }
  destruct (event_loop_Ret _ _ _ _ _ _ _ _ _ Hp Hjw1 H) as (polls & Hpolls & Ht).
  exists (l ++ polls). split; [apply Forall_app; split; assumption |].
  rewrite Ht, Hl. cbn [emit timeline]. rewrite <- !(@List.app_assoc effect). reflexivity.
Qed.

Lemma get_output_timeline E s p w v w' :
  s_pipeline s = Some p -> get_output E s w = (Ret v, w') ->
  timeline w' = timeline w ++ [Rpc (GetFile (p_name p) (lit "/doorstep.out"))].
Proof.
  intros Hp H. unfold get_output in H.
  apply bind_Ret in H as (p' & w1 & Hpipe & H).
  unfold session_pipeline in Hpipe. rewrite Hp in Hpipe. injection Hpipe as <- <-.
  apply bind_Ret in H as (output & w2 & Hpull & H).
  apply bind_Ret in H as (texts & w3 & Hdec & H).
  injection H as <- <-.
  apply decode_lines_Ret in Hdec as [_ ->].
  unfold pull_output in Hpull. apply bind_Ret in Hpull as ([] & w4 & Hcall & Hpull).
  apply call_Ret in Hcall as ->.
  destruct (artifact E (lit "/doorstep.out")); [| discriminate].
  injection Hpull as _ <-. reflexivity.
Qed.

Lemma open_read_Ret E path w text w' :
  open_read E path w = (Ret text, w') -> files E path = Some text /\ w' = emit [Open path] w.
Proof.
  rewrite open_read_spec. destruct (files E path); [| discriminate].
  intros [= <- <-]. auto.
Qed.

Lemma add_file_trace E r category filename data s bucket w w' :
  session_repo s category = ret r ->
  _add_file E category filename data s bucket w = (Ret tt, w') ->
  exists id, timeline w' = timeline w ++ commit_trace (r_name r) id filename data bucket.
Proof. intros Hr H. exact (add_file_Ret _ _ _ _ _ _ _ _ _ Hr H). Qed.

Lemma run_block_order E name filename workflow_module bucket events w v w' :
  run_block E filename workflow_module bucket events (session_of name) w = (Ret v, w') ->
  exists source encoded data idp idd polls,
    files E workflow_module = Some source /\ encode source = Some encoded /\
    (if truthy_opt bucket then data = Text filename
     else exists text bytes,
         files E filename = Some text /\ encode text = Some bytes /\ data = Raw bytes) /\
    Forall polling polls /\
    timeline w' = timeline w ++
      [Open workflow_module] ++
      commit_trace (name ++ lit "-processors") idp (lit "/processor.py") (Raw encoded) None ++
      (if truthy_opt bucket then [] else [Open filename]) ++
      commit_trace (name ++ lit "-data") idd (lit "/data.csv") data bucket ++
      [Rpc (SubscribeCommit name)] ++ polls ++
      [Rpc (Unsubscribe name); CancelTask; Rpc (GetFile name (lit "/doorstep.out"))].
Proof.
  unfold run_block. intros H.
  apply bind_Ret in H as (source & wa & Hopen & H).
  apply open_read_Ret in Hopen as [Hsrc ->].
  apply bind_Ret in H as (encoded & wb & Henc & H).
  unfold encode_utf8 in Henc. destruct (encode source) as [enc |] eqn:Hencode; [| discriminate].
  injection Henc as <- <-.
  apply bind_Ret in H as ([] & wc & Hproc & H).
  unfold add_processor in Hproc.
  eapply add_file_trace in Hproc as [idp Hp]; [| apply session_repo_processors].
  apply bind_Ret in H as (data & wd & Hdata & H).
  assert (Hd : (if truthy_opt bucket then data = Text filename
                else exists text bytes,
                    files E filename = Some text /\ encode text = Some bytes /\ data = Raw bytes)
               /\ timeline wd
                  = timeline wc ++ (if truthy_opt bucket then [] else [Open filename])).
  { destruct (truthy_opt bucket).
    - injection Hdata as <- <-. split; [reflexivity | now rewrite app_nil_r].
    - apply bind_Ret in Hdata as (text & wx & Hopen' & Hdata).
      apply open_read_Ret in Hopen' as [Htext ->].
      apply bind_Ret in Hdata as (bytes & wy & Henc' & Hdata).
      unfold encode_utf8 in Henc'. destruct (encode text) as [enc' |] eqn:Hencode'; [| discriminate].
      injection Henc' as <- <-. injection Hdata as <- <-.
      split; [eauto | reflexivity]. }
  destruct Hd as [Hd Hl2].
  apply bind_Ret in H as ([] & we & Hstage & H).
  unfold add_data in Hstage.
  eapply add_file_trace in Hstage as [idd Hs]; [| apply session_repo_data].
  apply bind_Ret in H as (jw & wf & [= <- <-] & H).
  apply bind_Ret in H as ([commit jw'] & wg & Hmon & H).
  eapply monitor_output_Ret in Hmon as (polls & Hpolls & Hmon);
    [| reflexivity | apply job_wait_polls].
  apply bind_Ret in H as (? & wh & Hcancel & H).
  unfold cancel in Hcancel. apply bind_Ret in Hcancel as ([] & wi & Hperf & Hcancel).
  rewrite perform_emit in Hperf. injection Hperf as <-. injection Hcancel as _ <-.
  apply bind_Ret in H as (results & wj & Hout & [= <- <-]).
  eapply get_output_timeline in Hout; [| reflexivity].
  exists source, enc, data, idp, idd, polls.
  split; [exact Hsrc | split; [exact Hencode | split; [exact Hd | split; [exact Hpolls |]]]].
  rewrite Hout. cbn [emit timeline]. rewrite Hmon, Hs, Hl2, Hp.
  cbn [emit timeline session_of s_processors s_data r_name p_name].
  rewrite <- !(@List.app_assoc effect). reflexivity.
Qed.

(** X8. The order of a run that returns: the definition is fetched, the
    two repositories and the pipeline are created, the module is read
    and committed at [/processor.py], the dataset is read (without a
    bucket) and committed at [/data.csv], the subscription is opened;
    then comes the polling of the job and nothing else until the
    subscription is closed, the job-wait task is cancelled, the output
    is pulled from [/doorstep.out] and the session is torn down. *)
Theorem order_of_a_run_that_returns (E : env) (self : nat) (filename workflow_module : str)
    (bucket : option str) (events : list event) (w w' : world) (v : value) :
  run E self filename workflow_module bucket events w = (Ret v, w') ->
  let name := lit "doorstep-" ++ uuid4 E (drawn w) in
  let s := session_of name in
  exists d w1 source encoded data idp idd polls,
    get_definition E self (drew w) = (Ret d, w1) /\
    files E workflow_module = Some source /\ encode source = Some encoded /\
    (if truthy_opt bucket then data = Text filename
     else exists text bytes,
         files E filename = Some text /\ encode text = Some bytes /\ data = Raw bytes) /\
    Forall polling polls /\
    timeline w' = timeline w1 ++ provisioning d s ++
      [Open workflow_module] ++
      commit_trace (name ++ lit "-processors") idp (lit "/processor.py") (Raw encoded) None ++
      (if truthy_opt bucket then [] else [Open filename]) ++
      commit_trace (name ++ lit "-data") idd (lit "/data.csv") data bucket ++
      [Rpc (SubscribeCommit name)] ++ polls ++
      [Rpc (Unsubscribe name); CancelTask; Rpc (GetFile name (lit "/doorstep.out"))] ++
      teardown s.
Proof.
  intros H name s. rewrite run_unfold in H.
  apply make_session_Ret in H as (d & w1 & w2 & Hdef & Hblock & ->).
  cbv zeta in Hdef, Hblock. fold name in Hblock.
  apply run_block_order in Hblock
    as (source & encoded & data & idp & idd & polls & Hsrc & Henc & Hdata & Hpolls & Ht).
  exists d, w1, source, encoded, data, idp, idd, polls.
  split; [exact Hdef |].
  split; [exact Hsrc | split; [exact Henc | split; [exact Hdata | split; [exact Hpolls |]]]].
  cbn [emit timeline] in *. rewrite Ht. fold s.
  rewrite <- !(@List.app_assoc effect). reflexivity.
Qed.

Lemma order_of_a_run_that_returns_witness :
  let name := lit "doorstep-" ++ uuid4 cluster (drawn started) in
  let s := session_of name in
  let w' := snd (go None three_commits) in
  exists d w1 source encoded data idp idd polls,
    get_definition cluster 0%nat (drew started) = (Ret d, w1) /\
    files cluster (lit "proc.py") = Some source /\ encode source = Some encoded /\
    (exists text bytes,
        files cluster (lit "in.csv") = Some text /\ encode text = Some bytes /\
        data = Raw bytes) /\
    Forall polling polls /\
    timeline w' = timeline w1 ++ provisioning d s ++
      [Open (lit "proc.py")] ++
      commit_trace (name ++ lit "-processors") idp (lit "/processor.py") (Raw encoded) None ++
      [Open (lit "in.csv")] ++
      commit_trace (name ++ lit "-data") idd (lit "/data.csv") data None ++
      [Rpc (SubscribeCommit name)] ++ polls ++
      [Rpc (Unsubscribe name); CancelTask; Rpc (GetFile name (lit "/doorstep.out"))] ++
      teardown s.
Proof.
  intros name s w'.
  apply (order_of_a_run_that_returns cluster 0%nat (lit "in.csv") (lit "proc.py") None
           three_commits started w' (List [Str (lit "a" ++ [10] ++ lit "b")])).
  apply go_returns. vm_compute. reflexivity.
Defined.

(** ** Which commit is the output *)

(** When a turn of the loop accepts: the commit lists a provenance,
    and the set of its repository names is the target. *)
Lemma watch_step_accepts_iff (target : gset str) (commit : PachydermCommit) :
  watch_step target commit = Delivered commit <->
  exists entries,
    get_provenance commit = Some entries /\ target = list_to_set (map repo_name entries).
Proof.
  unfold watch_step, provenance_names.
  destruct (get_provenance commit) as [entries |];
    [| split; [discriminate | intros (? & ? & _); discriminate]].
  destruct (decide (target = list_to_set (map repo_name entries))) as [Heq | Hne]; split.
  - intros _. exists entries. split; [reflexivity | exact Heq].
  - reflexivity.
  - discriminate.
  - intros (entries' & [= <-] & Hsame). contradiction.
Qed.

Lemma same_repositories (target : gset str) (entries : list provenance_entry) :
  target = list_to_set (map repo_name entries) <->
  forall name, name ∈ target <-> In name (map repo_name entries).
Proof.
  rewrite set_eq. apply forall_proper. intros name.
  now rewrite elem_of_list_to_set, list_elem_of_In.
Qed.

(** X9. A commit is accepted as the output exactly when it lists a
    provenance whose repository names, as a set, are the target: the
    order of the entries, their repetition and their ids do not count,
    and a provenance with a repository more or a repository less is not
    accepted. *)
Theorem accepted_iff_same_repositories (target : gset str) (commit : PachydermCommit) :
  watch_step target commit = Delivered commit <->
  exists entries,
    get_provenance commit = Some entries /\
    forall name, name ∈ target <-> In name (map repo_name entries).
Proof.
  rewrite watch_step_accepts_iff. split.
  - intros (entries & Hp & Hsame). exists entries. split; [exact Hp |].
    apply same_repositories, Hsame.
  - intros (entries & Hp & Hsame). exists entries. split; [exact Hp |].
    apply same_repositories, Hsame.
Qed.

Lemma session_names_differ name : name ++ lit "-data" <> name ++ lit "-processors".
Proof. intros H. apply app_inv_head in H. discriminate H. Qed.

(** X10. What the loop does with a commit built from the raw metadata of
    the cluster, in a session of [make_session]: it dies of [TypeError]
    exactly when the cluster lists no provenance; it accepts the commit
    exactly when the provenance lists both repositories of the session
    and no other; every other commit is discarded and the loop goes on.
    A commit that lists one repository only is never the output. *)
Theorem fate_of_a_raw_commit (name : str) (raw : raw_commit) :
  let target := input_repos (session_of name) in
  let names := map prov_repo_name (raw_provenance_list raw) in
  let both :=
    In (name ++ lit "-data") names /\ In (name ++ lit "-processors") names /\
    forall n, In n names -> n = name ++ lit "-data" \/ n = name ++ lit "-processors" in
  (watch_step target (from_raw raw) = Died TypeError <-> raw_provenance_list raw = []) /\
  (watch_step target (from_raw raw) = Delivered (from_raw raw) <-> both) /\
  (watch_step target (from_raw raw) = Watching <-> raw_provenance_list raw <> [] /\ ~ both) /\
  (both -> (2 <= length (raw_provenance_list raw))%nat).
Proof.
  intros target names both.
  assert (Hin : forall n, n ∈ target <-> n = name ++ lit "-data" \/ n = name ++ lit "-processors").
  { intros n. unfold target, input_repos. cbn [session_of s_data s_processors get_repo_name r_name].
    rewrite elem_of_union, !elem_of_singleton. reflexivity. }
  assert (Hprov : raw_provenance_list raw <> [] ->
            get_provenance (from_raw raw) = Some (map (fun prov => {| id := prov_id prov; repo_name := prov_repo_name prov |}) (raw_provenance_list raw))).
  { apply from_raw_provenance. }
  assert (Hnames : forall l : list raw_provenance,
            map repo_name (map (fun prov => {| id := prov_id prov; repo_name := prov_repo_name prov |}) l)
            = map prov_repo_name l).
  { intros l. rewrite map_map. reflexivity. }
  assert (Hboth : watch_step target (from_raw raw) = Delivered (from_raw raw) <-> both).
  { rewrite watch_step_accepts_iff. split.
    - intros (entries & He & Hsame). rewrite same_repositories in Hsame.
      assert (Hl : raw_provenance_list raw <> []).
      { intros Hl. unfold from_raw in He. rewrite Hl in He. discriminate. }
      rewrite (Hprov Hl) in He. injection He as <-.
      rewrite Hnames in Hsame. unfold both, names.
      split; [apply Hsame, Hin; auto | split; [apply Hsame, Hin; auto |]].
      intros n Hn. apply Hin, Hsame, Hn.
    - intros (Hd & Hp & Honly).
      assert (Hl : raw_provenance_list raw <> []).
      { intros Hl. unfold names in Hd. rewrite Hl in Hd. destruct Hd. }
      eexists. split; [apply Hprov; exact Hl |].
      apply same_repositories.
      rewrite Hnames. fold names. intros n. rewrite Hin. split.
      + intros [-> | ->]; assumption.
      + apply Honly. }
  assert (Hdies : watch_step target (from_raw raw) = Died TypeError <->
                  raw_provenance_list raw = []).
  { split.
    - intros H. destruct (decide (raw_provenance_list raw = [])) as [Hl | Hl]; [exact Hl |].
      unfold watch_step, provenance_names in H. rewrite (Hprov Hl) in H.
      destruct (decide _); discriminate.
    - intros Hl. apply watch_step_dies. unfold from_raw. now rewrite Hl. }
  split; [exact Hdies | split; [exact Hboth | split]].
  - split.
    + intros H. split.
      * intros Hl. apply Hdies in Hl. congruence.
      * intros Hb. apply Hboth in Hb. congruence.
    + intros [Hl Hnb].
      destruct (watch_step target (from_raw raw)) as [| c | e] eqn:Hstep; [reflexivity | |].
      * exfalso. apply Hnb, Hboth. unfold watch_step in Hstep.
        destruct (provenance_names (from_raw raw)); [| discriminate].
        destruct (decide _); [| discriminate]. congruence.
      * exfalso. apply Hl, Hdies. unfold watch_step in Hstep.
        destruct (provenance_names (from_raw raw)); [| congruence].
        destruct (decide _); discriminate.
  - intros (Hd & Hp & _). unfold names in *.
    destruct (raw_provenance_list raw) as [| p [| q l]]; cbn [length]; try lia.
    + destruct Hd.
    + destruct Hd as [Hd | []], Hp as [Hp | []].
      exfalso. apply (session_names_differ name). now rewrite <- Hd, <- Hp.
Qed.

(** X11. The await of [run] returns the first commit of the subscription
    whose provenance is the pair of input repositories of the session,
    provided the commits before it list a provenance: the job
    observations that come in between, and whatever the job-wait task
    has become, do not change which commit it is. *)
Theorem await_returns_first_match (E : env) (s : session) (p : PachydermPipeline)
    (events : list event) (before after : list PachydermCommit) (commit : PachydermCommit)
    (job_wait : task unit) (w : world) :
  s_pipeline s = Some p ->
  rpc_fails E (SubscribeCommit (p_name p)) = false ->
  commits_of events = before ++ commit :: after ->
  Forall (discarded (input_repos s)) before ->
  matching (input_repos s) commit ->
  exists job_wait' w',
    monitor_output E s events job_wait w = (Ret (commit, job_wait'), w').
Proof.
  intros Hp Hok Hcommits Hbefore Hmatch.
  unfold monitor_output, bind at 1.
  unfold start_watch, bind, session_pipeline. rewrite Hp.
  unfold ret, watch_commits. rewrite call_spec, Hok.
  destruct (settle_returns job_wait (emit [Rpc (SubscribeCommit (p_name p))] w))
    as (jw1 & w1 & Hsettle).
  rewrite Hsettle.
  pose proof (await_follows_subscription E s events jw1 w1) as H.
  rewrite Hcommits, (watch_loop_first_match _ _ _ _ Hbefore Hmatch) in H. exact H.
Qed.

Lemma await_returns_first_match_witness :
  exists job_wait' w',
    monitor_output cluster the_session three_commits (Done tt) world0
    = (Ret (from_raw output, job_wait'), w').
Proof.
  apply (await_returns_first_match cluster the_session the_pipeline three_commits
           [from_raw only_data; from_raw only_processors] [] (from_raw output)).
  - reflexivity.
  - reflexivity.
  - reflexivity.
  - repeat constructor; [apply only_data_discarded | apply only_processors_discarded].
  - apply output_matches.
Defined.

(** ** What is staged, and what comes back *)

Lemma b2n_n2b n : n < 256 -> b2n (n2b n) = n.
Proof.
  intros H. unfold b2n, n2b.
  destruct (Byte.of_N n) as [b |] eqn:Hb.
  - apply Byte.to_of_N, Hb.
  - apply Byte.of_N_None_iff in Hb. lia.
Qed.

Lemma decode_continue st b rest :
  decode_from st (b :: rest) =
  match due st with
  | O =>
      if b2n b <? 0x80 then
        match decode_from dstart rest with
        | Some s => Some (b2n b :: s)
        | None => None
        end
      else
        match lead (b2n b) with
        | Some st' => decode_from st' rest
        | None => None
        end
  | S k =>
      if (lo st <=? b2n b) && (b2n b <=? hi st) then
        match k with
        | O =>
            match decode_from dstart rest with
            | Some s => Some ((acc st * 0x40 + (b2n b - 0x80)) :: s)
            | None => None
            end
        | S _ => decode_from {| due := k; acc := acc st * 0x40 + (b2n b - 0x80);
                                lo := 0x80; hi := 0xBF |} rest
        end
      else None
  end.
Proof. reflexivity. Qed.

(** A continuation byte of the encoder is taken by the decoder in its
    widest range. *)
Lemma decode_tail k a x rest :
  x < 0x40 ->
  decode_from {| due := S k; acc := a; lo := 0x80; hi := 0xBF |} (n2b (0x80 + x) :: rest) =
  match k with
  | O =>
      match decode_from dstart rest with
      | Some s => Some ((a * 0x40 + x) :: s)
      | None => None
      end
  | S _ => decode_from {| due := k; acc := a * 0x40 + x; lo := 0x80; hi := 0xBF |} rest
  end.
Proof.
  intros Hx. rewrite decode_continue. cbn [due lo hi acc].
  rewrite b2n_n2b by lia.
  replace (0x80 + x - 0x80) with x by lia.
  destruct (N.leb_spec 0x80 (0x80 + x)); [| lia].
  destruct (N.leb_spec (0x80 + x) 0xBF); [| lia].
  reflexivity.
Qed.

(** The first continuation byte, in the range the lead byte left. *)
Lemma decode_second k a l h x rest :
  x < 0x40 -> l <= 0x80 + x -> 0x80 + x <= h ->
  decode_from {| due := S (S k); acc := a; lo := l; hi := h |} (n2b (0x80 + x) :: rest) =
  decode_from {| due := S k; acc := a * 0x40 + x; lo := 0x80; hi := 0xBF |} rest.
Proof.
  intros Hx Hl Hh. rewrite decode_continue. cbn [due lo hi acc].
  rewrite b2n_n2b by lia.
  replace (0x80 + x - 0x80) with x by lia.
  destruct (N.leb_spec l (0x80 + x)); [| lia].
  destruct (N.leb_spec (0x80 + x) h); [| lia].
  reflexivity.
Qed.

Lemma decode_lead n rest st :
  0x80 <= n -> n < 256 -> lead n = Some st ->
  decode_from dstart (n2b n :: rest) = decode_from st rest.
Proof.
  intros Hn Hb Hl. rewrite decode_continue. cbn [due dstart].
  rewrite b2n_n2b by lia. destruct (N.ltb_spec n 0x80); [lia |]. now rewrite Hl.
Qed.

Lemma base64 c : c = c / 0x40 * 0x40 + c mod 0x40 /\ c mod 0x40 < 0x40.
Proof.
  split; [| apply N.mod_lt; discriminate].
  rewrite (N.div_mod c 0x40) at 1 by discriminate. lia.
Qed.

Lemma lead2 q : 2 <= q -> q < 32 ->
  lead (0xC0 + q) = Some {| due := 1; acc := q; lo := 0x80; hi := 0xBF |}.
Proof.
  intros Hl Hh. destruct q as [| p]; [lia |].
  do 5 (destruct p as [p | p |]; try reflexivity; try lia).
Qed.

Lemma lead3 q : q < 16 ->
  lead (0xE0 + q) =
  Some {| due := 2; acc := q;
          lo := if q =? 0 then 0xA0 else 0x80; hi := if q =? 13 then 0x9F else 0xBF |}.
Proof.
  intros Hh. destruct q as [| p]; [reflexivity |].
  do 4 (destruct p as [p | p |]; try reflexivity; try lia).
Qed.

Lemma lead4 q : q <= 4 ->
  lead (0xF0 + q) =
  Some {| due := 3; acc := q;
          lo := if q =? 0 then 0x90 else 0x80; hi := if q =? 4 then 0x8F else 0xBF |}.
Proof.
  intros Hh. destruct q as [| p]; [reflexivity |].
  do 4 (destruct p as [p | p |]; try reflexivity; try lia).
Qed.

(** What the encoder writes for one code point, the decoder reads as
    that code point. *)
Lemma encode_point_decoded c bs rest :
  encode_point c = Some bs ->
  decode_from dstart (bs ++ rest) =
  match decode_from dstart rest with
  | Some s => Some (c :: s)
  | None => None
  end.
Proof.
  unfold encode_point.
  destruct (base64 c) as [Hc Hr].
  destruct (base64 (c / 0x40)) as [Hc1 Hr1].
  destruct (base64 (c / 0x1000)) as [Hc2 Hr2].
  rewrite N.Div0.div_div in Hc1. change (0x40 * 0x40) with 0x1000 in Hc1.
  rewrite N.Div0.div_div in Hc2. change (0x1000 * 0x40) with 0x40000 in Hc2.
  set (q3 := c / 0x40000) in *. set (m2 := (c / 0x1000) mod 0x40) in *.
  set (q2 := c / 0x1000) in *. set (m1 := (c / 0x40) mod 0x40) in *.
  set (q1 := c / 0x40) in *. set (r := c mod 0x40) in *.
  clearbody q3 m2 q2 m1 q1 r.
  destruct (N.ltb_spec c 0x80) as [H1 | H1].
  { intros [= <-]. cbn [app]. rewrite decode_continue. cbn [due dstart].
    rewrite b2n_n2b by lia. destruct (N.ltb_spec c 0x80); [reflexivity | lia]. }
  destruct (N.ltb_spec c 0x800) as [H2 | H2].
  { intros [= <-]. cbn [app].
    rewrite (decode_lead (0xC0 + q1) _ _ ltac:(lia) ltac:(lia) (lead2 q1 ltac:(lia) ltac:(lia))).
    rewrite decode_tail by exact Hr. now rewrite <- Hc. }
  destruct (N.leb_spec 0xD800 c) as [H3 | H3]; destruct (N.leb_spec c 0xDFFF) as [H4 | H4];
    cbn [andb]; try discriminate; try lia.
  - (* past the surrogates *)
    destruct (N.ltb_spec c 0x10000) as [H5 | H5].
    + intros [= <-]. cbn [app].
      rewrite (decode_lead (0xE0 + q2) _ _ ltac:(lia) ltac:(lia) (lead3 q2 ltac:(lia))).
      rewrite decode_second;
        [| exact Hr1 | destruct (N.eqb_spec q2 0); lia | destruct (N.eqb_spec q2 13); lia].
      rewrite decode_tail by exact Hr. f_equal.
      destruct (decode_from dstart rest); [| reflexivity]. do 2 f_equal. lia.
    + destruct (N.ltb_spec c 0x110000) as [H6 | H6]; [| discriminate].
      intros [= <-]. cbn [app].
      rewrite (decode_lead (0xF0 + q3) _ _ ltac:(lia) ltac:(lia) (lead4 q3 ltac:(lia))).
      rewrite decode_second;
        [| exact Hr2 | destruct (N.eqb_spec q3 0); lia | destruct (N.eqb_spec q3 4); lia].
      rewrite decode_tail by exact Hr1. rewrite decode_tail by exact Hr.
      destruct (decode_from dstart rest); [| reflexivity]. do 2 f_equal. lia.
  - (* before the surrogates *)
    destruct (N.ltb_spec c 0x10000) as [H5 | H5]; [| lia].
    intros [= <-]. cbn [app].
    rewrite (decode_lead (0xE0 + q2) _ _ ltac:(lia) ltac:(lia) (lead3 q2 ltac:(lia))).
    rewrite decode_second;
      [| exact Hr1 | destruct (N.eqb_spec q2 0); lia | destruct (N.eqb_spec q2 13); lia].
    rewrite decode_tail by exact Hr.
    destruct (decode_from dstart rest); [| reflexivity]. do 2 f_equal. lia.
Qed.

(** Decoding the UTF-8 encoding of a text gives the text back. *)
Lemma decode_encode s : forall bs, encode s = Some bs -> decode bs = Some s.
Proof.
  unfold decode. induction s as [| c rest IH]; intros bs H; cbn [encode] in H.
  - injection H as <-. reflexivity.
  - destruct (encode_point c) as [first |] eqn:Hc; [| discriminate].
    destruct (encode rest) as [more |]; [| discriminate].
    injection H as <-. rewrite (encode_point_decoded _ _ _ Hc), (IH more eq_refl). reflexivity.
Qed.

(** X12. Whatever a run puts as bytes is the UTF-8 encoding of what a
    text-mode read of a local file gave, which is not the file's bytes
    in general: the bytes at [/processor.py] encode the text of the
    workflow module, that is the bytes of the file decoded by the
    locale with every line ending turned into a line feed, and the
    bytes at [/data.csv], which are only put without a bucket, encode
    the text of the dataset in the same sense. Decoding the bytes put
    (UTF-8) gives that text back. Nothing else is ever put as bytes,
    however the run ends. *)
Theorem staged_bytes_decode_to_the_files (E : env) (self : nat)
    (filename workflow_module : str) (bucket : option str) (events : list event) (w : world) :
  let read_as_text (path : str) (encoded : bytes) :=
    exists raw decoded,
      disk E path = Some raw /\ locale_decode E raw = Some decoded /\
      encode (universal_newlines decoded) = Some encoded /\
      decode encoded = Some (universal_newlines decoded) in
  exists l,
    timeline (snd (run E self filename workflow_module bucket events w)) = timeline w ++ l /\
    forall c path data, In (Rpc (PutFileBytes c path data)) l ->
      exists encoded,
        data = Raw encoded /\
        ((path = lit "/processor.py" /\ read_as_text workflow_module encoded) \/
         (path = lit "/data.csv" /\ truthy_opt bucket = false /\
          read_as_text filename encoded)).
Proof.
  intros read_as_text.
  destruct (run_timeline E self filename workflow_module bucket events w) as (l & Ht & Hl).
  exists l. split; [exact Ht |].
  intros c path data Hin.
  rewrite List.Forall_forall in Hl. apply Hl in Hin. cbn [run_effect] in Hin.
  destruct Hin as [(_ & -> & source & encoded & Hf & Henc & ->)
                  | (_ & -> & Hb & text & encoded & Hf & Henc & ->)];
    exists encoded; (split; [reflexivity |]);
    apply files_Some in Hf as (raw & decoded & Hraw & Hdec & ->).
  - left. split; [reflexivity |]. exists raw, decoded.
    split; [exact Hraw | split; [exact Hdec | split; [exact Henc |]]].
    apply decode_encode, Henc.
  - right. split; [reflexivity | split; [exact Hb |]]. exists raw, decoded.
    split; [exact Hraw | split; [exact Hdec | split; [exact Henc |]]].
    apply decode_encode, Henc.
Qed.

Lemma decode_lines_all output texts w :
  map decode output = map Some texts -> decode_lines output w = (Ret texts, w).
Proof.
  revert texts. induction output as [| line rest IH]; intros [| text more] H; try discriminate.
  - reflexivity.
  - cbn [map] in H. injection H as Hline Hrest.
    cbn [decode_lines]. unfold bind, decode_utf8. rewrite Hline. unfold ret at 1.
    rewrite (IH more Hrest). reflexivity.
Qed.

Lemma decode_lines_some_bad output w :
  Exists (fun line => decode line = None) output ->
  decode_lines output w = (Raise UnicodeDecodeError, w).
Proof.
  induction output as [| line rest IH]; intros H; [now apply Exists_nil in H |].
  cbn [decode_lines]. unfold bind, decode_utf8.
  destruct (decode line) as [text |] eqn:Hline; [| reflexivity].
  unfold ret at 1. rewrite IH; [reflexivity |].
  apply Exists_cons in H as [H | H]; [congruence | exact H].
Qed.

(** X13. [get_output], once the artifact [/doorstep.out] has been pulled:
    when every line decodes, it returns the list holding one string,
    the decoded lines joined by newlines (the empty string for an
    artifact without lines, and no newline at the end); when some line
    is not valid UTF-8, it raises the decoding error and returns no
    partial report. Either way its one call to the cluster is the pull. *)
Theorem get_output_decodes_every_line (E : env) (s : session) (p : PachydermPipeline)
    (output : list bytes) (w : world) :
  s_pipeline s = Some p ->
  rpc_fails E (GetFile (p_name p) (lit "/doorstep.out")) = false ->
  artifact E (lit "/doorstep.out") = Some output ->
  let w' := emit [Rpc (GetFile (p_name p) (lit "/doorstep.out"))] w in
  (forall texts, map decode output = map Some texts ->
     get_output E s w = (Ret (List [Str (join [10] texts)]), w')) /\
  (Exists (fun line => decode line = None) output ->
     get_output E s w = (Raise UnicodeDecodeError, w')) /\
  (output = [] -> get_output E s w = (Ret (List [Str []]), w')).
Proof.
  intros Hp Hok Hart w'.
  assert (Hpull : forall A (k : list bytes -> M A),
             (let* output := pull_output E p (lit "/doorstep.out") in k output) w
             = k output w').
  { intros A k. unfold pull_output, bind at 1. unfold bind at 1.
    rewrite call_spec, Hok, Hart. reflexivity. }
  assert (Hget : get_output E s w
                 = (let* lines := decode_lines output in
                    ret (List [Str (join [10] lines)])) w').
  { unfold get_output, bind at 1. unfold session_pipeline. rewrite Hp. unfold ret at 1.
    apply Hpull. }
  split; [| split].
  - intros texts Hall. rewrite Hget. unfold bind.
    rewrite (decode_lines_all _ _ _ Hall). reflexivity.
  - intros Hbad. rewrite Hget. unfold bind.
    rewrite (decode_lines_some_bad _ _ Hbad). reflexivity.
  - intros ->. rewrite Hget. reflexivity.
Qed.

Lemma get_output_decodes_every_line_witness :
  get_output cluster the_session world0
  = (Ret (List [Str (lit "a" ++ [10] ++ lit "b")]),
     emit [Rpc (GetFile (lit "doorstep-u0") (lit "/doorstep.out"))] world0).
Proof.
  apply (proj1 (get_output_decodes_every_line cluster the_session the_pipeline
                  [ [x61]; [x62] ] world0 eq_refl eq_refl eq_refl) [lit "a"; lit "b"]).
  reflexivity.
Defined.

(** The last character tells the two repositories of a session apart,
    whatever the names of the sessions. *)
Lemma data_is_not_processors (a b : str) : a ++ lit "-data" <> b ++ lit "-processors".
Proof.
  intros H. apply (f_equal last) in H.
  change (lit "-data") with (lit "-dat" ++ [97]) in H.
  change (lit "-processors") with (lit "-processor" ++ [115]) in H.
  rewrite !app_assoc, !last_snoc in H. discriminate.
Qed.

Lemma input_repos_of name n :
  n ∈ input_repos (session_of name) <-> n = name ++ lit "-data" \/ n = name ++ lit "-processors".
Proof.
  unfold input_repos. cbn [session_of s_data s_processors get_repo_name r_name].
  rewrite elem_of_union, !elem_of_singleton. reflexivity.
Qed.

(** X14. Two sessions whose random parts differ have no repository in
    common, and the subscription of the one never takes a commit that
    the other accepts as its output: it discards it and goes on. *)
Theorem sessions_do_not_mix (E : env) (i j : nat) (commit : PachydermCommit) :
  uuid4 E i <> uuid4 E j ->
  let s := session_of (lit "doorstep-" ++ uuid4 E i) in
  let s' := session_of (lit "doorstep-" ++ uuid4 E j) in
  input_repos s ## input_repos s' /\
  (watch_step (input_repos s) commit = Delivered commit ->
   watch_step (input_repos s') commit = Watching).
Proof.
  intros Hne s s'.
  assert (Hnames : lit "doorstep-" ++ uuid4 E i <> lit "doorstep-" ++ uuid4 E j).
  { intros H. apply Hne. eapply app_inv_head, H. }
  assert (Hdisj : forall n, n ∈ input_repos s -> n ∈ input_repos s' -> False).
  { intros n Hn Hn'. apply input_repos_of in Hn, Hn'.
    destruct Hn as [-> | ->], Hn' as [Hn' | Hn'].
    - apply Hnames. eapply app_inv_tail, Hn'.
    - exact (data_is_not_processors _ _ Hn').
    - symmetry in Hn'. exact (data_is_not_processors _ _ Hn').
    - apply Hnames. eapply app_inv_tail, Hn'. }
  split.
  - intros n Hn Hn'. exact (Hdisj n Hn Hn').
  - intros Hacc. apply watch_step_accepts_iff in Hacc as (entries & Hp & Hset).
    apply (watch_step_discards _ _ entries Hp).
    intros Heq. rewrite <- Hset in Heq.
    apply (Hdisj (lit "doorstep-" ++ uuid4 E i ++ lit "-data")).
    + apply input_repos_of. left. now rewrite app_assoc.
    + rewrite <- Heq. apply input_repos_of. left. now rewrite app_assoc.
Qed.

Lemma sessions_do_not_mix_witness :
  input_repos (session_of (lit "doorstep-u0")) ## input_repos (session_of (lit "doorstep-u1")) /\
  (watch_step (input_repos (session_of (lit "doorstep-u0"))) (from_raw output)
   = Delivered (from_raw output) ->
   watch_step (input_repos (session_of (lit "doorstep-u1"))) (from_raw output) = Watching).
Proof.
  apply (sessions_do_not_mix cluster 0%nat 1%nat (from_raw output)).
  vm_compute. discriminate.
Defined.

Lemma no_slash_prefix (a b x y : str) :
  ~ In 47 a -> ~ In 47 b -> a ++ 47 :: x = b ++ 47 :: y -> a = b /\ x = y.
Proof.
  revert b. induction a as [| c a IH]; intros [| d b] Ha Hb H; cbn [app] in H.
  - injection H as ->. split; reflexivity.
  - injection H as <- _. exfalso. apply Hb. left. reflexivity.
  - injection H as -> _. exfalso. apply Ha. left. reflexivity.
  - injection H as -> H.
    destruct (IH b) as [-> ->]; [| | exact H | split; reflexivity].
    + intros Hin. apply Ha. right. exact Hin.
    + intros Hin. apply Hb. right. exact Hin.
Qed.

(** X15. The full name of a commit, which every put and every finish is
    addressed with, tells the commit: two commits of repositories whose
    names hold no slash have the same full name only when they have the
    same repository and the same name. With a slash in a repository
    name this fails: the commit [c] of [a/b] and the commit [b/c] of
    [a] share the full name [a/b/c]. *)
Theorem full_name_identifies_commit :
  (forall c c' : PachydermCommit,
      ~ In 47 (_repo c) -> ~ In 47 (_repo c') ->
      get_full_name c = get_full_name c' -> _repo c = _repo c' /\ get_name c = get_name c') /\
  (forall provenance,
      get_full_name {| _repo := lit "a/b"; _name := lit "c"; _provenance := provenance |}
      = get_full_name {| _repo := lit "a"; _name := lit "b/c"; _provenance := provenance |}).
Proof.
  split.
  - intros c c' Hc Hc' H. unfold get_full_name, get_name in *.
    apply (no_slash_prefix _ _ _ _ Hc Hc'). exact H.
  - intros provenance. reflexivity.
Qed.

(** ** The Dask engine: the client *)

Import Dask.

Lemma dask_bind_unfold {A B} (m : D A) (k : A -> D B) w :
  (m ≫= k) w =
  match m w with
  | (Ret a, w') => k a w'
  | (Raise e, w') => (Raise e, w')
  | (Hang, w') => (Hang, w')
  end.
Proof. reflexivity. Qed.

Lemma dask_getattr_same self name w r w' :
  getattr self name w = (r, w') -> w' = w /\ r <> Hang.
Proof.
  unfold getattr. intros H.
  repeat match type of H with context [match ?x with _ => _ end] => destruct x end;
    injection H as <- <-; split; congruence.
Qed.

Lemma dask_setattr_Ret self name v w :
  is_Some (heap w !! self) -> exists w', setattr self name v w = (Ret tt, w').
Proof. intros [dict Hd]. unfold setattr. rewrite Hd. eauto. Qed.

Lemma dask_getattr_dict self name w dict :
  heap w !! self = Some dict ->
  getattr self name w =
  (match dict !! name with
   | Some v => Ret v
   | None => match class_attrs !! name with
             | Some v => Ret v
             | None => Raise (AttributeError name)
             end
   end, w).
Proof. unfold getattr. intros ->. repeat case_match; reflexivity. Qed.

(** [get_client] on an engine object, case by case. *)
Lemma get_client_spec E self w dict :
  heap w !! self = Some dict ->
  let current := default VNone (dict !! "client"%string) in
  let url := default (VStr DEFAULT_CLIENT) (dict !! "client_url"%string) in
  let asked := {| trace := trace w ++ [MakeClient url]; heap := heap w;
                  drawn := drawn w; made := made w |} in
  get_client E self w =
  if truthy current then (Ret current, w)
  else
    match connects E url with
    | Gives _ =>
        (Ret (VClient (made w)),
         {| trace := trace w ++ [MakeClient url];
            heap := <[self := <["client"%string := VClient (made w)]> dict]> (heap w);
            drawn := drawn w; made := S (made w) |})
    | Throws e => (Raise e, asked)
    | Never => (Hang, asked)
    end.
Proof.
  intros Hd current url asked. unfold get_client.
  rewrite dask_bind_unfold, (dask_getattr_dict _ _ _ _ Hd).
  assert (Hcur : match dict !! "client"%string with
                 | Some v => Ret v
                 | None => match class_attrs !! "client"%string with
                           | Some v => Ret v
                           | None => Raise (AttributeError "client")
                           end
                 end = Ret current).
  { unfold current. destruct (dict !! "client"%string); reflexivity. }
  rewrite Hcur. rewrite dask_bind_unfold.
  destruct (truthy current) eqn:Ht; cbn [negb].
  { cbn. rewrite (dask_getattr_dict _ _ _ _ Hd), Hcur. reflexivity. }
  rewrite dask_bind_unfold, (dask_getattr_dict _ _ _ _ Hd).
  assert (Hurl : match dict !! "client_url"%string with
                 | Some v => Ret v
                 | None => match class_attrs !! "client_url"%string with
                           | Some v => Ret v
                           | None => Raise (AttributeError "client_url")
                           end
                 end = Ret url).
  { unfold url. destruct (dict !! "client_url"%string); reflexivity. }
  rewrite Hurl. rewrite dask_bind_unfold. unfold make_client.
  rewrite dask_bind_unfold. unfold ask at 1.
  destruct (connects E url) as [[] | e |]; try reflexivity.
  rewrite dask_bind_unfold. unfold fresh at 1. cbn [mret D_ret ret].
  unfold setattr at 1. cbn [heap trace drawn made]. rewrite Hd.
  unfold getattr. cbn [heap].
  rewrite list_lookup_insert_eq by (eapply lookup_lt_Some; eauto).
  rewrite lookup_insert_eq. reflexivity.
Qed.

Lemma dask_alloc_lookup d w :
  let w0 := snd (alloc d w) in
  alloc d w = (Ret (length (heap w)), w0) /\
  heap w0 !! length (heap w) = Some d /\ heap w !! length (heap w) = None /\
  trace w0 = trace w /\ made w0 = made w /\ drawn w0 = drawn w /\
  forall other, is_Some (heap w !! other) -> heap w0 !! other = heap w !! other.
Proof.
  cbn. repeat split.
  - rewrite lookup_app_r by reflexivity. now rewrite Nat.sub_diag.
  - apply lookup_ge_None. reflexivity.
  - intros other [x Hx]. apply lookup_app_l. eapply lookup_lt_Some, Hx.
Qed.

(** What [__init__] leaves in the instance dictionary. *)
Lemma engine_init config w :
  exists w0,
    let self := length (heap w) in
    DaskDistributedEngine config w = (Ret self, w0) /\
    heap w !! self = None /\
    heap w0 !! self =
      Some (match config ≫= (.!! "url"%string) with
            | Some url => {[ "client_url"%string := url ]}
            | None => ∅
            end) /\
    trace w0 = trace w /\ made w0 = made w /\ drawn w0 = drawn w /\
    forall other, is_Some (heap w !! other) -> heap w0 !! other = heap w !! other.
Proof.
  destruct (dask_alloc_lookup ∅ w) as (Ha & Hnew & Hold & Ht & Hm & Hdr & Hothers).
  set (w1 := snd (alloc ∅ w)) in *.
  assert (Hplain : (mret (length (heap w)) : D nat) w1 = (Ret (length (heap w)), w1))
    by reflexivity.
  assert (Hkeep : config ≫= (.!! "url"%string) = None ->
            exists w0, DaskDistributedEngine config w = (Ret (length (heap w)), w0) /\
              heap w !! length (heap w) = None /\ heap w0 !! length (heap w) = Some ∅ /\
              trace w0 = trace w /\ made w0 = made w /\ drawn w0 = drawn w /\
              forall other, is_Some (heap w !! other) -> heap w0 !! other = heap w !! other).
  { intros Hnone. exists w1. split; [| repeat split; assumption].
    unfold DaskDistributedEngine. rewrite dask_bind_unfold, Ha.
    destruct config as [c |]; [| reflexivity]. cbn in Hnone.
    destruct (decide (c = ∅)); [reflexivity |]. now rewrite Hnone. }
  destruct (config ≫= (.!! "url"%string)) as [url |] eqn:Hurl; [| now apply Hkeep].
  destruct config as [c |]; [| discriminate]. cbn in Hurl.
  assert (Hne : c <> ∅) by (intros ->; discriminate).
  destruct (dask_setattr_Ret (length (heap w)) "client_url" url w1) as [w0 Hs]; [eauto |].
  exists w0. cbv zeta. unfold DaskDistributedEngine.
  rewrite dask_bind_unfold, Ha.
  destruct (decide (c = ∅)); [contradiction |]. rewrite Hurl.
  rewrite dask_bind_unfold, Hs.
  unfold setattr in Hs. rewrite Hnew in Hs. injection Hs as <-.
  cbn [heap trace drawn made].
  split; [reflexivity | split; [exact Hold | split; [| repeat split; try assumption]]].
  - rewrite list_lookup_insert_eq by (eapply lookup_lt_Some; eauto).
    f_equal.
  - intros other Hother. rewrite list_lookup_insert_ne; [apply Hothers, Hother |].
    intros <-. rewrite Hold in Hother. destruct Hother; discriminate.
Qed.

(** X16. The address an engine connects to is the entry [url] of the
    configuration it was built with, and [tcp://localhost:8786] when
    the configuration is [None], is empty or has no such entry. Building
    the engine connects nowhere: the one connection is made by the
    first [get_client]. *)
Theorem engine_connects_to_configured_url (E : env) (config : option (gmap string value))
    (w : world) :
  exists self w0,
    DaskDistributedEngine config w = (Ret self, w0) /\
    heap w !! self = None /\
    (forall other, is_Some (heap w !! other) -> heap w0 !! other = heap w !! other) /\
    trace w0 = trace w /\
    trace (snd (get_client E self w0))
    = trace w ++ [MakeClient (default (VStr DEFAULT_CLIENT) (config ≫= (.!! "url"%string)))].
Proof.
  destruct (engine_init config w) as (w0 & Hinit & Hnew & Hdict & Ht & _ & _ & Hothers).
  exists (length (heap w)), w0.
  split; [exact Hinit | split; [exact Hnew | split; [exact Hothers | split; [exact Ht |]]]].
  rewrite (get_client_spec E _ _ _ Hdict).
  destruct (config ≫= (.!! "url"%string)) as [url |]; cbn [default];
    rewrite ?lookup_singleton_ne by discriminate; rewrite ?lookup_empty;
    rewrite ?lookup_singleton_eq; cbn [default truthy];
    (destruct (connects E _) as [[] | e |]; cbn [snd trace]; now rewrite Ht).
Qed.

Lemma get_client_dangling E self w :
  heap w !! self = None -> get_client E self w = (Raise (AttributeError "client"), w).
Proof.
  intros Hd. unfold get_client. rewrite dask_bind_unfold. unfold getattr. now rewrite Hd.
Qed.

(** What a call of [get_client] that returns has done. *)
Lemma get_client_Ret E self w c w1 :
  get_client E self w = (Ret c, w1) ->
  truthy c = true /\
  (exists dict, heap w1 !! self = Some dict /\ dict !! "client"%string = Some c) /\
  (w1 = w \/
   exists url, connects E url = Gives tt /\ c = VClient (made w) /\
               trace w1 = trace w ++ [MakeClient url] /\ made w1 = S (made w)).
Proof.
  destruct (heap w !! self) as [dict |] eqn:Hd;
    [| rewrite (get_client_dangling _ _ _ Hd); discriminate].
  rewrite (get_client_spec E _ _ _ Hd).
  destruct (truthy (default VNone (dict !! "client"%string))) eqn:Ht.
  - intros [= <- <-]. split; [exact Ht | split; [| left; reflexivity]].
    exists dict. split; [exact Hd |].
    destruct (dict !! "client"%string); [reflexivity | discriminate].
  - destruct (connects E _) as [[] | e |] eqn:Hc; try discriminate.
    intros [= <- <-]. split; [reflexivity | split].
    + eexists. cbn [heap]. split.
      * apply list_lookup_insert_eq. eapply lookup_lt_Some; eauto.
      * apply lookup_insert_eq.
    + right. eexists. split; [exact Hc |]. repeat split.
Qed.

(** X17. An engine makes its client once: when [get_client] has returned
    a client, at the price of one connection at most, every later call
    on the same object, as long as its attributes are untouched,
    returns that client and connects nowhere, whatever the cluster does
    by then. *)
Theorem client_is_made_once (E E' : env) (self : nat) (w w1 w2 : world) (c : value) :
  get_client E self w = (Ret c, w1) ->
  heap w2 !! self = heap w1 !! self ->
  (trace w1 = trace w \/ exists url, trace w1 = trace w ++ [MakeClient url]) /\
  get_client E' self w2 = (Ret c, w2).
Proof.
  intros Hfirst Hsame. apply get_client_Ret in Hfirst as (Ht & (dict & Hd & Hc) & Hwhat).
  split.
  - destruct Hwhat as [-> | (url & _ & _ & Htr & _)]; [left; reflexivity | right; eauto].
  - rewrite <- Hsame in Hd. rewrite (get_client_spec E' _ _ _ Hd), Hc.
    change (default VNone (Some c)) with c. now rewrite Ht.
Qed.

Lemma client_is_made_once_witness :
  let w := snd (DaskDistributedEngine None world0) in
  let w1 := snd (get_client DaskCases.local_cluster 0%nat w) in
  (trace w1 = trace w \/ exists url, trace w1 = trace w ++ [MakeClient url]) /\
  get_client DaskCases.local_cluster 0%nat w1 = (Ret (VClient 0), w1).
Proof.
  intros w w1.
  apply (client_is_made_once DaskCases.local_cluster DaskCases.local_cluster
           0%nat w w1 w1 (VClient 0)); [| reflexivity].
  unfold w1. rewrite (surjective_pairing (get_client DaskCases.local_cluster 0%nat w)) at 1.
  f_equal; vm_compute; reflexivity.
Defined.

(** ** The Dask engine: the name of the module *)

Lemma rfind_from_notin c p : forall i found, ~ In c p -> rfind_from c p i found = found.
Proof.
  induction p as [| x rest IH]; intros i found Hn; cbn [rfind_from]; [reflexivity |].
  rewrite IH by (intros H; apply Hn; right; exact H).
  destruct (N.eqb_spec x c) as [-> |]; [| reflexivity].
  exfalso. apply Hn. left. reflexivity.
Qed.

Lemma rfind_from_app c a b : forall i found,
  rfind_from c (a ++ b) i found
  = rfind_from c b (i + Z.of_nat (length a))%Z (rfind_from c a i found).
Proof.
  induction a as [| x rest IH]; intros i found; cbn [app rfind_from length].
  - f_equal. lia.
  - rewrite IH. f_equal. lia.
Qed.

Lemma rfind_last c a b : ~ In c b -> rfind c (a ++ c :: b) = Z.of_nat (length a).
Proof.
  intros Hn. unfold rfind. rewrite rfind_from_app. cbn [rfind_from].
  rewrite N.eqb_refl. rewrite rfind_from_notin by exact Hn. lia.
Qed.

Lemma rfind_none c p : ~ In c p -> rfind c p = (-1)%Z.
Proof. intros Hn. unfold rfind. now apply rfind_from_notin. Qed.

Lemma basename_of_file (dir file : str) :
  dir = [] \/ last dir = Some 47 -> ~ In 47 file -> basename (dir ++ file) = file.
Proof.
  intros Hdir Hfile. unfold basename, slice_from.
  destruct Hdir as [-> | Hlast].
  - cbn [app]. rewrite rfind_none by exact Hfile. reflexivity.
  - destruct (last_Some dir 47) as [[d' ->] _]; [exact Hlast |].
    rewrite <- app_assoc. cbn [app]. rewrite rfind_last by exact Hfile.
    replace (Z.to_nat (Z.of_nat (length d') + 1)) with (S (length d')) by lia.
    change (47 :: file) with ([47] ++ file). rewrite app_assoc.
    rewrite drop_app_length'; [reflexivity |]. rewrite length_app. cbn. lia.
Qed.

Lemma not_in_app {A} (x : A) (l1 l2 : list A) : ~ In x l1 -> ~ In x l2 -> ~ In x (l1 ++ l2).
Proof. intros H1 H2 H. apply in_app_or in H as [H | H]; contradiction. Qed.

Lemma splitext_of_file (stem ext : str) :
  ~ In 47 stem -> ~ In 47 ext -> ~ In 46 ext ->
  splitext (stem ++ 46 :: ext)
  = if forallb (N.eqb 46) stem then (stem ++ 46 :: ext, []) else (stem, 46 :: ext).
Proof.
  intros Hs He Hd. unfold splitext.
  rewrite rfind_none.
  2:{ apply not_in_app; [exact Hs |]. intros [H | H]; [discriminate | contradiction]. }
  rewrite rfind_last by exact Hd.
  destruct (Z.ltb_spec (-1) (Z.of_nat (length stem))) as [_ | H]; [| lia].
  unfold slice_to, slice_from. cbn [Z.add Z.to_nat drop].
  change (-1 + 1)%Z with 0%Z. rewrite Z.sub_0_r, Nat2Z.id.
  change (Z.to_nat 0) with 0%nat. rewrite drop_0.
  rewrite !take_app_length, drop_app_length. reflexivity.
Qed.

Lemma splitext_no_dot (file : str) : ~ In 46 file -> splitext file = (file, []).
Proof.
  intros Hd. unfold splitext. rewrite (rfind_none 46) by exact Hd.
  destruct (Z.ltb_spec (rfind 47 file) (-1)) as [H | _]; [| reflexivity].
  exfalso. unfold rfind in H.
  assert (Hlow : forall p i found, (-1 <= found)%Z -> (0 <= i)%Z ->
                                   (-1 <= rfind_from 47 p i found)%Z).
  { induction p as [| x rest IH]; intros i found Hf Hi; cbn [rfind_from]; [exact Hf |].
    apply IH; [destruct (x =? 47); lia | lia]. }
  specialize (Hlow file 0%Z (-1)%Z). lia.
Qed.

(** X19. The module the cluster is asked to run is named after the file
    of the workflow, without its directories and without its last
    extension: [/a.b/my.mod.py] gives [my.mod]. Dots in the directories
    do not count, a file without a dot keeps its name, and so does a
    file whose name has nothing but dots before its last dot ([.py]). *)
Theorem module_name_is_the_stem (dir stem ext : str) :
  dir = [] \/ last dir = Some 47 ->
  ~ In 47 stem -> ~ In 47 ext -> ~ In 46 ext ->
  module_name_of (VStr (dir ++ stem ++ 46 :: ext))
  = ret (VStr (if forallb (N.eqb 46) stem then stem ++ 46 :: ext else stem)) /\
  (~ In 46 stem -> module_name_of (VStr (dir ++ stem)) = ret (VStr stem)).
Proof.
  intros Hdir Hs He Hd. split.
  - unfold module_name_of. rewrite basename_of_file; [| exact Hdir |].
    + rewrite splitext_of_file by assumption.
      destruct (forallb (N.eqb 46) stem); reflexivity.
    + apply not_in_app; [exact Hs |]. intros [H | H]; [discriminate | contradiction].
  - intros Hnd. unfold module_name_of.
    rewrite basename_of_file by assumption. now rewrite splitext_no_dot.
Qed.

Lemma module_name_is_the_stem_witness :
  module_name_of (VStr (lit "/a.b/my.mod.py")) = ret (VStr (lit "my.mod")) /\
  (~ In 46 (lit "my.mod") -> module_name_of (VStr (lit "/a.b/my.mod")) = ret (VStr (lit "my.mod"))).
Proof.
  apply (module_name_is_the_stem (lit "/a.b/") (lit "my.mod") (lit "py")).
  - right. reflexivity.
  - cbn. intuition discriminate.
  - cbn. intuition discriminate.
  - cbn. intuition discriminate.
Defined.

(** ** The Dask engine: a run *)

Import DaskTraces.

Lemma ask_spec {A} (c : call) (r : reply A) w :
  ask c r w = (match r with Gives a => Ret a | Throws e => Raise e | Never => Hang end,
               said [c] w).
Proof. unfold ask, said. destruct r; reflexivity. Qed.

Lemma said_said l1 l2 w : said l2 (said l1 w) = said (l1 ++ l2) w.
Proof. unfold said. cbn. now rewrite app_assoc. Qed.

Lemma run_unfold_block E filename workflow_module bucket client :
  _run E filename workflow_module bucket client =
  (with_file_manager E (Positional bucket) (run_work E filename workflow_module client)
   ≫= fun result => mret (default VNone result)).
Proof. reflexivity. Qed.

(** The block, when it returns. *)
Lemma run_work_Ret E filename workflow_module client fm w v w' :
  run_work E filename workflow_module client fm w = (Ret v, w') ->
  exists c local_file name,
    client = VClient c /\ gets E filename = Gives local_file /\
    module_name_of workflow_module = ret name /\
    submits E local_file name = Gives v /\
    w' = said [FileManagerGet fm filename; UploadFile c workflow_module;
               Submit c local_file name] w.
Proof.
  unfold run_work. rewrite dask_bind_unfold, ask_spec.
  destruct (gets E filename) as [local_file | e |]; try discriminate.
  rewrite dask_bind_unfold.
  destruct client as [| s | b | c]; try discriminate. cbn [as_client mret D_ret ret].
  rewrite dask_bind_unfold, ask_spec.
  destruct (uploads E workflow_module) as [[] | e |]; try discriminate.
  rewrite dask_bind_unfold.
  destruct workflow_module as [| s | b | c']; try discriminate;
    cbn [module_name_of ret]; rewrite ask_spec;
    (destruct (submits E local_file _) as [v' | e |] eqn:Hs; try discriminate);
    intros [= <- <-]; rewrite !said_said; cbn [app]; eauto 10.
Qed.

(** The calls of the block, however it ends. *)
Lemma run_work_calls E filename workflow_module client fm w :
  exists l,
    snd (run_work E filename workflow_module client fm w) = said l w /\
    Forall (fun c => is_work c = true /\ uses_client client c) l.
Proof.
  unfold run_work. rewrite dask_bind_unfold, ask_spec.
  destruct (gets E filename) as [local_file | e |];
    [| (eexists; split; [reflexivity | repeat constructor]) ..].
  rewrite dask_bind_unfold.
  destruct client as [| s | b | c];
    try (eexists; split; [reflexivity | repeat constructor]).
  cbn [as_client mret D_ret ret].
  rewrite dask_bind_unfold, ask_spec.
  destruct (uploads E workflow_module) as [[] | e |];
    [| (rewrite said_said; eexists; split; [reflexivity | repeat constructor]) ..].
  rewrite dask_bind_unfold.
  destruct workflow_module as [| s | b | c'];
    cbn [module_name_of ret raise]; rewrite ?ask_spec, !said_said;
    eexists; (split; [reflexivity | repeat constructor]).
Qed.

(** [with make_file_manager(...)], case by case. *)
Lemma with_file_manager_spec {A} E arg (body : nat -> D A) w :
  with_file_manager E arg body w =
  match enters E arg with
  | Gives _ =>
      match body (made w) (handed (said [EnterFileManager arg] w)) with
      | (Ret a, w1) =>
          (match exits E None with
           | Gives _ => Ret (Some a)
           | Throws e => Raise e
           | Never => Hang
           end, said [ExitFileManager (made w) None] w1)
      | (Raise e, w1) =>
          (match exits E (Some e) with
           | Gives true => Ret None
           | Gives false => Raise e
           | Throws e' => Raise e'
           | Never => Hang
           end, said [ExitFileManager (made w) (Some e)] w1)
      | (Hang, w1) => (Hang, w1)
      end
  | Throws e => (Raise e, said [EnterFileManager arg] w)
  | Never => (Hang, said [EnterFileManager arg] w)
  end.
Proof.
  unfold with_file_manager. rewrite dask_bind_unfold, ask_spec.
  destruct (enters E arg) as [[] | e |]; try reflexivity.
  cbv beta iota. unfold mbind at 1, D_bind at 1, bind at 1, fresh at 1. cbn [made said trace heap drawn].
  change {| trace := trace w ++ [EnterFileManager arg]; heap := heap w;
            drawn := drawn w; made := S (made w) |}
    with (handed (said [EnterFileManager arg] w)).
  destruct (body (made w) (handed (said [EnterFileManager arg] w))) as [[a | e |] w1];
    try reflexivity.
  - rewrite dask_bind_unfold, ask_spec. destruct (exits E None) as [b | e |]; reflexivity.
  - rewrite dask_bind_unfold, ask_spec.
    destruct (exits E (Some e)) as [[] | e' |]; reflexivity.
Qed.

(** X20. A run that returns has gone through the file manager in this
    order: it is entered with the bucket, it is asked for the local
    file, the workflow is uploaded to the client, the job is submitted
    with the local file and the name of the module, and it is left;
    the value returned is the answer of the cluster to that job. The
    one other way to return is with [None], when the block has raised
    and the file manager has swallowed the exception. *)
Theorem run_goes_through_the_file_manager (E : env)
    (filename workflow_module bucket client v : value) (w w' : world) :
  _run E filename workflow_module bucket client w = (Ret v, w') ->
  let fm := made w in
  let enter := EnterFileManager (Positional bucket) in
  (exists c local_file name,
      client = VClient c /\ gets E filename = Gives local_file /\
      module_name_of workflow_module = ret name /\
      submits E local_file name = Gives v /\
      trace w' = trace w ++
        [enter; FileManagerGet fm filename; UploadFile c workflow_module;
         Submit c local_file name; ExitFileManager fm None])
  \/
  (v = VNone /\
   exists e l, exits E (Some e) = Gives true /\ Forall (fun c => is_work c = true) l /\
               trace w' = trace w ++ enter :: l ++ [ExitFileManager fm (Some e)]).
Proof.
  intros H fm enter. rewrite run_unfold_block, dask_bind_unfold in H.
  rewrite with_file_manager_spec in H.
  destruct (enters E (Positional bucket)) as [[] | e |]; try discriminate.
  fold enter in H. fold fm in H.
  destruct (run_work_calls E filename workflow_module client fm (handed (said [enter] w)))
    as (l & Hl & Hwork).
  destruct (run_work E filename workflow_module client fm (handed (said [enter] w)))
    as [[a | e |] w1] eqn:Hbody; cbn [snd] in Hl; try discriminate.
  - destruct (exits E None) as [b | e |]; try discriminate.
    injection H as <- <-. left.
    apply run_work_Ret in Hbody as (c & local_file & name & -> & Hg & Hn & Hs & ->).
    exists c, local_file, name. repeat (split; [assumption || reflexivity |]).
    cbn [said handed trace]. rewrite <- !app_assoc. reflexivity.
  - destruct (exits E (Some e)) as [[] | e' |] eqn:Hx; try discriminate.
    injection H as <- <-. right. split; [reflexivity |].
    exists e, l. split; [exact Hx | split].
    + eapply Forall_impl; [exact Hwork |]. intros c [Hc _]. exact Hc.
    + subst w1. cbn [said handed trace]. rewrite <- !app_assoc. reflexivity.
Qed.

Lemma run_goes_through_the_file_manager_witness :
  let w := snd (_run DaskCases.local_cluster (VStr (lit "in.csv")) (VStr (lit "/w/proc.py"))
                  VNone (VClient 0) world0) in
  (exists c local_file name,
      VClient 0 = VClient c /\
      gets DaskCases.local_cluster (VStr (lit "in.csv")) = Gives local_file /\
      module_name_of (VStr (lit "/w/proc.py")) = ret name /\
      submits DaskCases.local_cluster local_file name = Gives (VStr (lit "proc")) /\
      trace w = trace world0 ++
        [EnterFileManager (Positional VNone); FileManagerGet 0 (VStr (lit "in.csv"));
         UploadFile c (VStr (lit "/w/proc.py"));
         Submit c local_file name; ExitFileManager 0 None])
  \/
  (VStr (lit "proc") = VNone /\
   exists e l, exits DaskCases.local_cluster (Some e) = Gives true /\
               Forall (fun c => is_work c = true) l /\
               trace w = trace world0 ++
                 EnterFileManager (Positional VNone) :: l ++ [ExitFileManager 0 (Some e)]).
Proof.
  intros w.
  apply (run_goes_through_the_file_manager DaskCases.local_cluster
           (VStr (lit "in.csv")) (VStr (lit "/w/proc.py")) VNone (VClient 0)
           (VStr (lit "proc")) world0 w).
  unfold w.
  rewrite (surjective_pairing (_run DaskCases.local_cluster (VStr (lit "in.csv"))
                                 (VStr (lit "/w/proc.py")) VNone (VClient 0) world0)) at 1.
  f_equal; vm_compute; reflexivity.
Defined.

(** The calls of [_run], however it ends. *)
Lemma run_calls E filename workflow_module bucket client w :
  let r := _run E filename workflow_module bucket client w in
  let enter := EnterFileManager (Positional bucket) in
  heap (snd r) = heap w /\
  ((trace (snd r) = trace w ++ [enter] /\
    match enters E (Positional bucket) with
    | Gives _ => False
    | Throws e => fst r = Raise e
    | Never => fst r = Hang
    end) \/
   exists l,
     Forall (fun c => is_work c = true /\ uses_client client c) l /\
     ((fst r = Hang /\ trace (snd r) = trace w ++ enter :: l) \/
      exists x, trace (snd r) = trace w ++ enter :: l ++ [ExitFileManager (made w) x])).
Proof.
  intros r enter. unfold r. rewrite run_unfold_block, dask_bind_unfold.
  rewrite with_file_manager_spec. fold enter.
  destruct (enters E (Positional bucket)) as [[] | e |];
    [| split; [reflexivity | left; split; reflexivity] ..].
  destruct (run_work_calls E filename workflow_module client (made w)
              (handed (said [enter] w))) as (l & Hl & Hwork).
  assert (Hclosed : forall x,
            trace (said [ExitFileManager (made w) x] (said l (handed (said [enter] w))))
            = trace w ++ enter :: l ++ [ExitFileManager (made w) x]).
  { intros x. cbn [said handed trace]. rewrite <- !app_assoc. reflexivity. }
  destruct (run_work E filename workflow_module client (made w) (handed (said [enter] w)))
    as [[a | e |] w1]; cbn [snd] in Hl; subst w1.
  - destruct (exits E None) as [b | e |];
      (split; [reflexivity | right; exists l; split; [exact Hwork | right]]);
      exists None; apply Hclosed.
  - destruct (exits E (Some e)) as [[] | e' |];
      (split; [reflexivity | right; exists l; split; [exact Hwork | right]]);
      exists (Some e); apply Hclosed.
  - cbn [fst snd]. split; [reflexivity | right]. exists l. split; [exact Hwork | left].
    split; [reflexivity |]. cbn [said handed trace]. rewrite <- !app_assoc. reflexivity.
Qed.

(** X21. However a run ends, if it ends, the file manager it has entered
    has been left, once and after everything else: the calls of a run
    are the entering, then calls of the block only (the file is asked
    for, the workflow uploaded, the job submitted), then the leaving,
    with the exception of the block if there is one. The one run that
    leaves no file manager is the run that could not enter it. *)
Theorem file_manager_is_always_left (E : env) (filename workflow_module bucket client : value)
    (w : world) :
  let r := _run E filename workflow_module bucket client w in
  let enter := EnterFileManager (Positional bucket) in
  fst r <> Hang ->
  (exists e, enters E (Positional bucket) = Throws e /\ fst r = Raise e /\
             trace (snd r) = trace w ++ [enter]) \/
  (exists l x, Forall (fun c => is_work c = true) l /\
               trace (snd r) = trace w ++ enter :: l ++ [ExitFileManager (made w) x]).
Proof.
  intros r enter Hends.
  destruct (run_calls E filename workflow_module bucket client w)
    as [_ [[Ht Henter] | (l & Hwork & [[Hhang _] | [x Ht]])]].
  - left. fold r in Henter. destruct (enters E (Positional bucket)) as [[] | e |];
      [destruct Henter | eauto | contradiction].
  - contradiction.
  - right. exists l, x. split; [| exact Ht].
    eapply Forall_impl; [exact Hwork |]. intros c [Hc _]. exact Hc.
Qed.

Lemma file_manager_is_always_left_witness :
  let r := _run DaskCases.local_cluster (VStr (lit "in.csv")) VNone VNone (VClient 0) world0 in
  let enter := EnterFileManager (Positional VNone) in
  (exists e, enters DaskCases.local_cluster (Positional VNone) = Throws e /\
             fst r = Raise e /\ trace (snd r) = trace world0 ++ [enter]) \/
  (exists l x, Forall (fun c => is_work c = true) l /\
               trace (snd r) = trace world0 ++ enter :: l ++ [ExitFileManager (made world0) x]).
Proof.
  apply (file_manager_is_always_left DaskCases.local_cluster (VStr (lit "in.csv")) VNone VNone
           (VClient 0) world0).
  vm_compute. discriminate.
Defined.

Lemma run_with_client E self filename workflow_module bucket w c wc :
  get_client E self w = (Ret c, wc) ->
  run E self filename workflow_module bucket w = _run E filename workflow_module bucket c wc.
Proof. intros H. unfold run. rewrite dask_bind_unfold, H. reflexivity. Qed.

(** X22. The runs of an engine share its client: once a run has got a
    client, however that run has ended, a later run on the same engine
    connects nowhere, and it uploads its workflow and submits its job
    to that client. *)
Theorem later_runs_reuse_the_client (E E' : env) (self : nat)
    (filename workflow_module bucket filename' workflow_module' bucket' c : value)
    (w wc w1 : world) (r : outcome value) :
  run E self filename workflow_module bucket w = (r, w1) ->
  get_client E self w = (Ret c, wc) ->
  exists l,
    trace (snd (run E' self filename' workflow_module' bucket' w1)) = trace w1 ++ l /\
    Forall (uses_client c) l.
Proof.
  intros Hrun Hclient.
  rewrite (run_with_client _ _ _ _ _ _ _ _ Hclient) in Hrun.
  destruct (run_calls E filename workflow_module bucket c wc) as [Hheap _].
  rewrite Hrun in Hheap. cbn [snd] in Hheap.
  apply get_client_Ret in Hclient as (Htruthy & (dict & Hd & Hc) & _).
  assert (Hagain : get_client E' self w1 = (Ret c, w1)).
  { rewrite (get_client_spec E' self w1 dict) by (now rewrite Hheap).
    rewrite Hc. change (default VNone (Some c)) with c. now rewrite Htruthy. }
  rewrite (run_with_client _ _ _ _ _ _ _ _ Hagain).
  destruct (run_calls E' filename' workflow_module' bucket' c w1)
    as [_ [[Ht _] | (l & Hwork & [[_ Ht] | [x Ht]])]]; rewrite Ht; eexists; (split; [reflexivity |]).
  - repeat constructor.
  - constructor; [exact I |]. eapply Forall_impl; [exact Hwork |]. now intros ? [_ ?].
  - constructor; [exact I |]. apply Forall_app. split.
    + eapply Forall_impl; [exact Hwork |]. now intros ? [_ ?].
    + repeat constructor.
Qed.

Lemma later_runs_reuse_the_client_witness :
  let w := snd (DaskDistributedEngine None world0) in
  let w1 := snd (run DaskCases.local_cluster 0%nat (VStr (lit "in.csv"))
                   (VStr (lit "proc.py")) VNone w) in
  exists l,
    trace (snd (run DaskCases.local_cluster 0%nat (VStr (lit "b.csv"))
                  (VStr (lit "other.py")) VNone w1)) = trace w1 ++ l /\
    Forall (uses_client (VClient 0)) l.
Proof.
  intros w w1.
  apply (later_runs_reuse_the_client DaskCases.local_cluster DaskCases.local_cluster 0%nat
           (VStr (lit "in.csv")) (VStr (lit "proc.py")) VNone
           (VStr (lit "b.csv")) (VStr (lit "other.py")) VNone (VClient 0)
           w (snd (get_client DaskCases.local_cluster 0%nat w)) w1
           (fst (run DaskCases.local_cluster 0%nat (VStr (lit "in.csv"))
                   (VStr (lit "proc.py")) VNone w))).
  - unfold w1. apply surjective_pairing.
  - rewrite (surjective_pairing (get_client DaskCases.local_cluster 0%nat w)) at 1.
    f_equal; vm_compute; reflexivity.
Defined.

(** ** The Dask engine: sessions *)

Lemma getitem_spec d key w dict :
  heap w !! d = Some dict ->
  getitem d key w = (match dict !! key with Some v => Ret v | None => Raise (KeyError key) end, w).
Proof. unfold getitem. intros ->. destruct (dict !! key); reflexivity. Qed.

Lemma setitem_spec d key v w dict :
  heap w !! d = Some dict ->
  exists w', setitem d key v w = (Ret tt, w') /\
             heap w' !! d = Some (<[key := v]> dict) /\
             trace w' = trace w /\ made w' = made w.
Proof.
  intros Hd. unfold setitem. rewrite Hd. eexists. split; [reflexivity |].
  cbn [heap trace made]. split; [| split; reflexivity].
  apply list_lookup_insert_eq. eapply lookup_lt_Some; eauto.
Qed.

Lemma add_processor_spec filename content session w dict :
  heap w !! session = Some dict ->
  exists w', add_processor filename content session w = (Ret tt, w') /\
             heap w' !! session
             = Some (<["workflow-content"%string := content]>
                       (<["workflow-filename"%string := filename]> dict)) /\
             trace w' = trace w /\ made w' = made w.
Proof.
  intros Hd. unfold add_processor.
  destruct (setitem_spec session "workflow-filename" filename w dict Hd)
    as (w1 & H1 & Hd1 & Ht1 & Hm1).
  destruct (setitem_spec session "workflow-content" content w1 _ Hd1)
    as (w2 & H2 & Hd2 & Ht2 & Hm2).
  exists w2. rewrite dask_bind_unfold, H1, H2.
  split; [reflexivity | split; [exact Hd2 | split; congruence]].
Qed.

Lemma add_data_spec filename content session w dict :
  heap w !! session = Some dict ->
  exists w', add_data filename content session w = (Ret tt, w') /\
             heap w' !! session
             = Some (<["data-content"%string := content]>
                       (<["data-filename"%string := filename]> dict)) /\
             trace w' = trace w /\ made w' = made w.
Proof.
  intros Hd. unfold add_data.
  destruct (setitem_spec session "data-filename" filename w dict Hd)
    as (w1 & H1 & Hd1 & Ht1 & Hm1).
  destruct (setitem_spec session "data-content" content w1 _ Hd1)
    as (w2 & H2 & Hd2 & Ht2 & Hm2).
  exists w2. rewrite dask_bind_unfold, H1, H2.
  split; [reflexivity | split; [exact Hd2 | split; congruence]].
Qed.

(** The session [make_session] hands to its block. *)
Lemma make_session_spec {A} E self (body : nat -> D A) w :
  exists w0,
    let name := lit "doorstep-" ++ uuid4 E (drawn w) in
    make_session E self body w = body (length (heap w)) w0 /\
    heap w0 !! length (heap w)
    = Some {[ "name"%string := VStr name;
              "data"%string := VStr (name ++ lit "-data");
              "processors"%string := VStr (name ++ lit "-processors") ]} /\
    trace w0 = trace w /\ made w0 = made w /\
    forall other, is_Some (heap w !! other) -> heap w0 !! other = heap w !! other.
Proof.
  eexists. cbv zeta. split.
  { unfold make_session, mbind, D_bind, bind, draw, alloc. cbn [heap trace made drawn].
    reflexivity. }
  cbn [heap trace made].
  split; [| split; [reflexivity | split; [reflexivity |]]].
  - rewrite lookup_app_r by reflexivity. now rewrite Nat.sub_diag.
  - intros other [x Hx]. apply lookup_app_l. eapply lookup_lt_Some, Hx.
Qed.

Lemma run_grows E self filename workflow_module bucket w :
  exists l, trace (snd (run E self filename workflow_module bucket w)) = trace w ++ l.
Proof.
  unfold run. rewrite dask_bind_unfold.
  destruct (heap w !! self) as [dict |] eqn:Hd.
  2:{ rewrite (get_client_dangling _ _ _ Hd). exists []. now rewrite app_nil_r. }
  assert (Hrun : forall c w1 l0, trace w1 = trace w ++ l0 ->
            exists l, trace (snd (_run E filename workflow_module bucket c w1)) = trace w ++ l).
  { intros c w1 l0 Hw1.
    destruct (run_calls E filename workflow_module bucket c w1)
      as [_ [[Ht _] | (l & _ & [[_ Ht] | [x Ht]])]]; rewrite Ht, Hw1, <- app_assoc; eauto. }
  rewrite (get_client_spec E _ _ _ Hd).
  destruct (truthy _).
  - apply (Hrun _ _ []). now rewrite app_nil_r.
  - destruct (connects E _) as [[] | e |].
    + eapply Hrun. reflexivity.
    + eexists. reflexivity.
    + eexists. reflexivity.
Qed.

(** [monitor_pipeline] on a session that has its four entries, the
    contents being bytes that decode. *)
Lemma monitor_pipeline_enters E self session w dict
    (workflow_module filename : value) (wb db : bytes) (wt dt : str) :
  heap w !! session = Some dict ->
  dict !! "workflow-filename"%string = Some workflow_module ->
  dict !! "data-filename"%string = Some filename ->
  dict !! "workflow-content"%string = Some (VBytes wb) ->
  dict !! "data-content"%string = Some (VBytes db) ->
  decode wb = Some wt -> decode db = Some dt ->
  exists l,
    trace (snd (monitor_pipeline E self session w))
    = trace w ++
      EnterFileManager (Content (dict_set filename dt [(workflow_module, wt)])) :: l.
Proof.
  intros Hd Hwf Hfn Hwc Hdc Hwt Hdt. unfold monitor_pipeline.
  rewrite dask_bind_unfold, (getitem_spec _ _ _ _ Hd), Hwf. cbv beta iota.
  rewrite dask_bind_unfold, (getitem_spec _ _ _ _ Hd), Hfn. cbv beta iota.
  rewrite dask_bind_unfold, (getitem_spec _ _ _ _ Hd), Hwc. cbv beta iota.
  rewrite dask_bind_unfold. cbn [decode_utf8]. rewrite Hwt. unfold ret at 1. cbv beta iota.
  rewrite dask_bind_unfold, (getitem_spec _ _ _ _ Hd), Hdc. cbv beta iota.
  rewrite dask_bind_unfold. cbn [decode_utf8]. rewrite Hdt. unfold ret at 1. cbv beta iota.
  cbn [dict_set]. rewrite dask_bind_unfold, with_file_manager_spec.
  set (content := Content _).
  destruct (enters E content) as [[] | e |]; try (exists []; reflexivity).
  destruct (run_grows E self filename workflow_module VNone
              (handed (said [EnterFileManager content] w))) as [l Hl].
  destruct (run E self filename workflow_module VNone
              (handed (said [EnterFileManager content] w))) as [[a | e |] w1];
    cbn [snd] in Hl; cbn [trace handed said] in Hl.
  - destruct (exits E None) as [b | e |]; cbv beta iota;
      cbn [snd trace said mret D_ret ret raise]; rewrite Hl, <- !app_assoc;
      eexists; reflexivity.
  - destruct (exits E (Some e)) as [[] | e' |]; cbv beta iota;
      cbn [snd trace said mret D_ret ret raise];
      rewrite Hl, <- !app_assoc; eexists; reflexivity.
  - cbn [snd]. rewrite Hl, <- !app_assoc. eexists. reflexivity.
Qed.

Ltac lookup_dict :=
  repeat first
    [ rewrite lookup_insert_eq
    | rewrite lookup_insert_ne by discriminate
    | rewrite lookup_singleton_ne by discriminate
    | rewrite lookup_empty ].

(** X23. A session that has been given its workflow and its dataset, in
    either order, reaches the file manager: the first call of
    [monitor_pipeline] is to enter it with the two decoded texts under
    their file names, the workflow first. When the two file names are
    the same there is one entry, and it holds the text of the dataset:
    the text of the workflow is lost. *)
Theorem staged_session_reaches_file_manager (E : env) (self : nat)
    (workflow_module filename : value) (wb db : bytes) (wt dt : str)
    (processor_first : bool) (w : world) :
  decode wb = Some wt -> decode db = Some dt ->
  let content :=
    if decide (workflow_module = filename) then [(workflow_module, dt)]
    else [(workflow_module, wt); (filename, dt)] in
  exists l,
    trace (snd (make_session E self (fun session =>
                  (if processor_first then
                     add_processor workflow_module (VBytes wb) session ;;
                     add_data filename (VBytes db) session
                   else
                     add_data filename (VBytes db) session ;;
                     add_processor workflow_module (VBytes wb) session) ;;
                  monitor_pipeline E self session) w))
    = trace w ++ EnterFileManager (Content content) :: l.
Proof.
  intros Hwt Hdt content.
  destruct (make_session_spec E self (fun session =>
              (if processor_first then
                 add_processor workflow_module (VBytes wb) session ;;
                 add_data filename (VBytes db) session
               else
                 add_data filename (VBytes db) session ;;
                 add_processor workflow_module (VBytes wb) session) ;;
              monitor_pipeline E self session) w) as (w0 & -> & Hd0 & Ht0 & _).
  set (session := length (heap w)) in *.
  rewrite dask_bind_unfold.
  assert (Hstaged : exists w2 dict,
            (if processor_first then
               add_processor workflow_module (VBytes wb) session ;;
               add_data filename (VBytes db) session
             else
               add_data filename (VBytes db) session ;;
               add_processor workflow_module (VBytes wb) session) w0 = (Ret tt, w2) /\
            heap w2 !! session = Some dict /\ trace w2 = trace w /\
            dict !! "workflow-filename"%string = Some workflow_module /\
            dict !! "data-filename"%string = Some filename /\
            dict !! "workflow-content"%string = Some (VBytes wb) /\
            dict !! "data-content"%string = Some (VBytes db)).
  { destruct processor_first.
    - destruct (add_processor_spec workflow_module (VBytes wb) session w0 _ Hd0)
        as (w1 & H1 & Hd1 & Ht1 & _).
      destruct (add_data_spec filename (VBytes db) session w1 _ Hd1)
        as (w2 & H2 & Hd2 & Ht2 & _).
      exists w2. eexists. rewrite dask_bind_unfold, H1, H2.
      split; [reflexivity | split; [exact Hd2 | split; [congruence |]]].
      repeat split; lookup_dict; reflexivity.
    - destruct (add_data_spec filename (VBytes db) session w0 _ Hd0)
        as (w1 & H1 & Hd1 & Ht1 & _).
      destruct (add_processor_spec workflow_module (VBytes wb) session w1 _ Hd1)
        as (w2 & H2 & Hd2 & Ht2 & _).
      exists w2. eexists. rewrite dask_bind_unfold, H1, H2.
      split; [reflexivity | split; [exact Hd2 | split; [congruence |]]].
      repeat split; lookup_dict; reflexivity. }
  destruct Hstaged as (w2 & dict & -> & Hd & Ht & Hwf & Hfn & Hwc & Hdc).
  destruct (monitor_pipeline_enters E self session w2 dict workflow_module filename
              wb db wt dt Hd Hwf Hfn Hwc Hdc Hwt Hdt) as [l Hl].
  exists l. rewrite Hl, Ht. unfold content. cbn [dict_set].
  destruct (decide (workflow_module = filename)); reflexivity.
Qed.

Lemma staged_session_reaches_file_manager_witness :
  exists l,
    trace (snd (make_session DaskCases.local_cluster 0%nat (fun session =>
                  (add_data (VStr (lit "a")) (VBytes [x64]) session ;;
                   add_processor (VStr (lit "a")) (VBytes [x77]) session) ;;
                  monitor_pipeline DaskCases.local_cluster 0%nat session) world0))
    = trace world0 ++ EnterFileManager (Content [(VStr (lit "a"), lit "d")]) :: l.
Proof.
  apply (staged_session_reaches_file_manager DaskCases.local_cluster 0%nat
           (VStr (lit "a")) (VStr (lit "a")) [x77] [x64] (lit "w") (lit "d") false world0);
    reflexivity.
Defined.

(** X24. A session that lacks its workflow or its dataset is refused
    before anything is done: [monitor_pipeline] raises the [KeyError]
    of the first entry it misses, the file name of the workflow before
    that of the dataset, and has called neither the file manager nor
    the cluster. A content given as text, not as bytes, is refused in
    the same way, with the [AttributeError] of its missing [decode]. *)
Theorem incomplete_session_is_refused (E : env) (self : nat) (filename content : value)
    (text : str) (w : world) :
  (exists w', make_session E self (fun session => monitor_pipeline E self session) w
              = (Raise (KeyError "workflow-filename"), w') /\ trace w' = trace w) /\
  (exists w', make_session E self (fun session =>
                add_data filename content session ;;
                monitor_pipeline E self session) w
              = (Raise (KeyError "workflow-filename"), w') /\ trace w' = trace w) /\
  (exists w', make_session E self (fun session =>
                add_processor filename content session ;;
                monitor_pipeline E self session) w
              = (Raise (KeyError "data-filename"), w') /\ trace w' = trace w) /\
  (exists w', make_session E self (fun session =>
                add_processor filename (VStr text) session ;;
                add_data filename content session ;;
                monitor_pipeline E self session) w
              = (Raise (AttributeError "decode"), w') /\ trace w' = trace w).
Proof.
  split; [| split; [| split]].
  - destruct (make_session_spec E self (fun session => monitor_pipeline E self session) w)
      as (w0 & -> & Hd0 & Ht0 & _).
    exists w0. split; [| exact Ht0].
    unfold monitor_pipeline. rewrite dask_bind_unfold, (getitem_spec _ _ _ _ Hd0).
    lookup_dict. reflexivity.
  - destruct (make_session_spec E self (fun session =>
                add_data filename content session ;;
                monitor_pipeline E self session) w) as (w0 & -> & Hd0 & Ht0 & _).
    destruct (add_data_spec filename content _ w0 _ Hd0) as (w1 & H1 & Hd1 & Ht1 & _).
    exists w1. split; [| congruence].
    rewrite dask_bind_unfold, H1.
    unfold monitor_pipeline. rewrite dask_bind_unfold, (getitem_spec _ _ _ _ Hd1).
    lookup_dict. reflexivity.
  - destruct (make_session_spec E self (fun session =>
                add_processor filename content session ;;
                monitor_pipeline E self session) w) as (w0 & -> & Hd0 & Ht0 & _).
    destruct (add_processor_spec filename content _ w0 _ Hd0) as (w1 & H1 & Hd1 & Ht1 & _).
    exists w1. split; [| congruence].
    rewrite dask_bind_unfold, H1.
    unfold monitor_pipeline. rewrite dask_bind_unfold, (getitem_spec _ _ _ _ Hd1).
    lookup_dict. cbv beta iota.
    rewrite dask_bind_unfold, (getitem_spec _ _ _ _ Hd1).
    lookup_dict. reflexivity.
  - destruct (make_session_spec E self (fun session =>
                add_processor filename (VStr text) session ;;
                add_data filename content session ;;
                monitor_pipeline E self session) w) as (w0 & -> & Hd0 & Ht0 & _).
    destruct (add_processor_spec filename (VStr text) _ w0 _ Hd0)
      as (w1 & H1 & Hd1 & Ht1 & _).
    destruct (add_data_spec filename content _ w1 _ Hd1) as (w2 & H2 & Hd2 & Ht2 & _).
    exists w2. split; [| congruence].
    rewrite dask_bind_unfold, H1. cbv beta iota. rewrite dask_bind_unfold, H2.
    unfold monitor_pipeline.
    rewrite dask_bind_unfold, (getitem_spec _ _ _ _ Hd2). lookup_dict. cbv beta iota.
    rewrite dask_bind_unfold, (getitem_spec _ _ _ _ Hd2). lookup_dict. cbv beta iota.
    rewrite dask_bind_unfold, (getitem_spec _ _ _ _ Hd2). lookup_dict. cbv beta iota.
    reflexivity.
Qed.
